(** * flask_des_app: the DES-like Feistel engine and its modes of operation

    A shallow embedding of [des/des_core.py] and [des/modes.py].

    - Python [bytes] are [list byte]; a Python [int] is a [Z] (or an [N] where
      the source can only produce a non-negative value, as with [int(s, 2)]).
    - The bit strings of [des_core.py] are Python [str] values over the
      alphabet '0'/'1' (they are only ever produced by the [:0nb] formats and
      by slicing and permuting such strings); they are embedded as
      [list bool], with [true] for '1'.
    - Code that can raise returns a [result]; loops are folds in that monad,
      with the loop variables as the explicit state. *)

From Stdlib Require Import List ZArith NArith Lia Bool.
From Stdlib Require Import Strings.Byte.
Import ListNotations.

Set Implicit Arguments.

(** ** Exceptions and the error monad *)

Module Py.

Inductive exn : Type :=
| ValueError
| IndexError
| OverflowError
| ZeroDivisionError
| BinasciiError.

Inductive result (A : Type) : Type :=
| Ok (a : A)
| Raise (e : exn).

Arguments Ok {A} a.
Arguments Raise {A} e.

Definition bind {A B : Type} (m : result A) (k : A -> result B) : result B :=
  match m with
  | Ok a => k a
  | Raise e => Raise e
  end.

(** [for x in l: s = body(s, x)] *)
Fixpoint foldM {S A : Type} (body : S -> A -> result S) (l : list A) (s : S)
  : result S :=
  match l with
  | [] => Ok s
  | x :: l' => bind (body s x) (foldM body l')
  end.

(** a comprehension [[f(x) for x in l]] whose body can raise *)
Fixpoint mapM {A B : Type} (f : A -> result B) (l : list A) : result (list B) :=
  match l with
  | [] => Ok []
  | x :: l' => bind (f x) (fun y => bind (mapM f l') (fun ys => Ok (y :: ys)))
  end.

(** [range(n)] for a Python int [n]: empty when [n <= 0]. *)
Definition range (n : Z) : list nat := seq 0 (Z.to_nat n).

(** [s[k]] with Python's index rule: a negative index counts from the end. *)
Definition index {A : Type} (s : list A) (k : Z) : result A :=
  let k' := if (k <? 0)%Z then (k + Z.of_nat (length s))%Z else k in
  if (k' <? 0)%Z then Raise IndexError
  else match nth_error s (Z.to_nat k') with
       | Some a => Ok a
       | None => Raise IndexError
       end.

(** [[s[i:i+n] for i in range(0, len(s), n)]] for a step [n > 0]. *)
Definition slices {A : Type} (n : nat) (s : list A) : list (list A) :=
  map (fun k => firstn n (skipn (k * n) s)) (seq 0 ((length s + n - 1) / n)).

End Py.

Import Py.

Notation "x <- m ;; k" := (Py.bind m (fun x => k))
  (at level 61, m at next level, right associativity).

Abbreviation bytes := (list byte).
Abbreviation bitstr := (list bool).

(** The value of a byte as a Python int. *)
Definition byte_int (b : byte) : Z := Z.of_N (Byte.to_N b).

(** [bytes(ints)]: every element must be in [range(256)]. *)
Definition bytes_of_ints (l : list Z) : result bytes :=
  Py.mapM (fun n => if (n <? 0)%Z then Py.Raise Py.ValueError
                    else match Byte.of_N (Z.to_N n) with
                         | Some b => Py.Ok b
                         | None => Py.Raise Py.ValueError
                         end) l.

(** ** The standard library's base64 codec

    [b64encode] and [b64decode] are not code of the repository: they are the
    standard library's.  [b64encode] follows RFC 4648 (standard alphabet, '='
    padding); [b64decode] follows the non-strict decoder ([validate=False]):
    characters outside the alphabet are skipped, a run of '=' that completes
    the current quad ends the data, and leftover sextets are an error.  The
    shifts and masks of the decoder act on values below 64 and are written
    with multiplication, division and remainder. *)

Module Base64.

Open Scope N_scope.

Definition alphabet : bytes :=
  [x41; x42; x43; x44; x45; x46; x47; x48; x49; x4a; x4b; x4c; x4d;
   x4e; x4f; x50; x51; x52; x53; x54; x55; x56; x57; x58; x59; x5a;
   x61; x62; x63; x64; x65; x66; x67; x68; x69; x6a; x6b; x6c; x6d;
   x6e; x6f; x70; x71; x72; x73; x74; x75; x76; x77; x78; x79; x7a;
   x30; x31; x32; x33; x34; x35; x36; x37; x38; x39; x2b; x2f].

(** '=' *)
Definition PAD : byte := x3d.

Definition b2a (i : N) : byte := nth (N.to_nat i) alphabet PAD.

Fixpoint find_index (c : byte) (l : bytes) (i : N) : option N :=
  match l with
  | [] => None
  | d :: l' => if Byte.eqb c d then Some i else find_index c l' (i + 1)
  end.

Definition a2b (c : byte) : option N := find_index c alphabet 0.

Fixpoint b64encode (s : bytes) : bytes :=
  match s with
  | [] => []
  | [a] =>
      let a := Byte.to_N a in
      [b2a (a / 4); b2a (a mod 4 * 16); PAD; PAD]
  | [a; b] =>
      let a := Byte.to_N a in
      let b := Byte.to_N b in
      [b2a (a / 4); b2a (a mod 4 * 16 + b / 16); b2a (b mod 16 * 4); PAD]
  | a :: b :: c :: rest =>
      let a := Byte.to_N a in
      let b := Byte.to_N b in
      let c := Byte.to_N c in
      [b2a (a / 4); b2a (a mod 4 * 16 + b / 16);
       b2a (b mod 16 * 4 + c / 64); b2a (c mod 64)] ++ b64encode rest
  end.

(** A decoded octet is stored in an unsigned char. *)
Definition octet (n : N) : byte :=
  match Byte.of_N (n mod 256) with
  | Some b => b
  | None => x00
  end.

(** The decoder's loop; its state is the position in the current quad, the
    bits left over from the previous sextet, the count of '=' seen in a row,
    and the output so far. *)
Fixpoint a2b_loop (data : bytes) (quad_pos leftchar pads : N) (out : bytes)
  : result bytes :=
  match data with
  | [] => if quad_pos =? 0 then Ok out else Raise BinasciiError
  | this_ch :: data' =>
      if Byte.eqb this_ch PAD then
        if (2 <=? quad_pos) && (4 <=? quad_pos + (pads + 1)) then Ok out
        else a2b_loop data' quad_pos leftchar
               (if 2 <=? quad_pos then pads + 1 else pads) out
      else
        match a2b this_ch with
        | None => a2b_loop data' quad_pos leftchar pads out
        | Some v =>
            match quad_pos with
            | 0 => a2b_loop data' 1 v 0 out
            | 1 => a2b_loop data' 2 (v mod 16) 0
                     (out ++ [octet (leftchar * 4 + v / 16)])
            | 2 => a2b_loop data' 3 (v mod 4) 0
                     (out ++ [octet (leftchar * 16 + v / 4)])
            | _ => a2b_loop data' 0 0 0
                     (out ++ [octet (leftchar * 64 + v)])
            end
        end
  end.

Definition b64decode (s : bytes) : result bytes := a2b_loop s 0 0 0 [].

End Base64.

(** ** des/des_core.py *)

Module DesCore.

Open Scope Z_scope.

Definition P_BOX : list Z :=
  [16; 7; 20; 21; 29; 12; 28; 17;
   1; 15; 23; 26; 5; 18; 31; 10;
   2; 8; 24; 14; 32; 27; 3; 9;
   19; 13; 30; 6; 22; 11; 4; 25].

Definition E_BOX : list Z :=
  [32; 1; 2; 3; 4; 5;
   4; 5; 6; 7; 8; 9;
   8; 9; 10; 11; 12; 13;
   12; 13; 14; 15; 16; 17;
   16; 17; 18; 19; 20; 21;
   20; 21; 22; 23; 24; 25;
   24; 25; 26; 27; 28; 29;
   28; 29; 30; 31; 32; 1].

Definition S_BOXES : list (list N) := [
  [14;4;13;1;2;15;11;8;3;10;6;12;5;9;0;7;
   0;15;7;4;14;2;13;1;10;6;12;11;9;5;3;8;
   4;1;14;8;13;6;2;11;15;12;9;7;3;10;5;0;
   15;12;8;2;4;9;1;7;5;11;3;14;10;0;6;13];
  [15;1;8;14;6;11;3;4;9;7;2;13;12;0;5;10;
   3;13;4;7;15;2;8;14;12;0;1;10;6;9;11;5;
   0;14;7;11;10;4;13;1;5;8;12;6;9;3;2;15;
   13;8;10;1;3;15;4;2;11;6;7;12;0;5;14;9];
  [10;0;9;14;6;3;15;5;1;13;12;7;11;4;2;8;
   13;7;0;9;3;4;6;10;2;8;5;14;12;11;15;1;
   13;6;4;9;8;15;3;0;11;1;2;12;5;10;14;7;
   1;10;13;0;6;9;8;7;4;15;14;3;11;5;2;12];
  [7;13;14;3;0;6;9;10;1;2;8;5;11;12;4;15;
   13;8;11;5;6;15;0;3;4;7;2;12;1;10;14;9;
   10;6;9;0;12;11;7;13;15;1;3;14;5;2;8;4;
   3;15;0;6;10;1;13;8;9;4;5;11;12;7;2;14];
  [2;12;4;1;7;10;11;6;8;5;3;15;13;0;14;9;
   14;11;2;12;4;7;13;1;5;0;15;10;3;9;8;6;
   4;2;1;11;10;13;7;8;15;9;12;5;6;3;0;14;
   11;8;12;7;1;14;2;13;6;15;0;9;10;4;5;3];
  [12;1;10;15;9;2;6;8;0;13;3;4;14;7;5;11;
   10;15;4;2;7;12;9;5;6;1;13;14;0;11;3;8;
   9;14;15;5;2;8;12;3;7;0;4;10;1;13;11;6;
   4;3;2;12;9;5;15;10;11;14;1;7;6;0;8;13];
  [4;11;2;14;15;0;8;13;3;12;9;7;5;10;6;1;
   13;0;11;7;4;9;1;10;14;3;5;12;2;15;8;6;
   1;4;11;13;12;3;7;14;10;15;6;8;0;5;9;2;
   6;11;13;8;1;4;10;7;9;5;0;15;14;2;3;12];
  [13;2;8;4;6;15;11;1;10;9;3;14;5;0;12;7;
   1;15;13;8;10;3;7;4;12;5;6;11;0;14;9;2;
   7;11;4;1;9;12;14;2;0;6;10;13;15;3;5;8;
   2;1;14;7;4;10;8;13;15;12;9;0;3;5;6;11]
]%N.

Definition PC_1 : list Z :=
  [57;49;41;33;25;17;9;
   1;58;50;42;34;26;18;
   10;2;59;51;43;35;27;
   19;11;3;60;52;44;36;
   63;55;47;39;31;23;15;
   7;62;54;46;38;30;22;
   14;6;61;53;45;37;29;
   21;13;5;28;20;12;4].

Definition PC_2 : list Z :=
  [14;17;11;24;1;5;
   3;28;15;6;21;10;
   23;19;12;4;26;8;
   16;7;27;20;13;2;
   41;52;31;37;47;55;
   30;40;51;45;33;48;
   44;49;39;56;34;53;
   46;42;50;36;29;32].

Definition ROTATIONS : list nat :=
  [1; 1; 2; 2; 2; 2; 2; 2; 1; 2; 2; 2; 2; 2; 2; 1]%nat.

(** *** Binary formatting and parsing *)

(** The binary digits of a positive number, most significant first. *)
Fixpoint pos_bits (p : positive) : bitstr :=
  match p with
  | xH => [true]
  | xO q => pos_bits q ++ [false]
  | xI q => pos_bits q ++ [true]
  end.

(** [f'{n:b}'] *)
Definition bin (n : N) : bitstr :=
  match n with
  | N0 => [false]
  | Npos p => pos_bits p
  end.

(** [f'{n:0wb}']: zero-filled on the left up to [w] characters, never cut. *)
Definition format_b (w : nat) (n : N) : bitstr :=
  repeat false (w - length (bin n)) ++ bin n.

(** The value of a digit string; [int2] below adds the failure on [""]. *)
Definition int2val (s : bitstr) : N :=
  fold_left (fun acc (b : bool) => (2 * acc + N.b2n b)%N) s 0%N.

(** [int(s, 2)] *)
Definition int2 (s : bitstr) : result N :=
  match s with
  | [] => Raise ValueError
  | _ => Ok (int2val s)
  end.

(** *** Helpers *)

Definition bytes_to_bit_string (data : bytes) : bitstr :=
  flat_map (fun b => format_b 8 (Byte.to_N b)) data.

Definition bit_string_to_bytes (bit_string : bitstr) : result bytes :=
  let bit_string :=
    if negb (Nat.eqb (length bit_string mod 8) 0)
    then bit_string
         ++ repeat false ((length bit_string + 7) / 8 * 8 - length bit_string)
    else bit_string in
  ints <- mapM int2 (slices 8 bit_string) ;;
  bytes_of_ints (map Z.of_N ints).

Definition rotate_left (bit_string : bitstr) (n : nat) : result bitstr :=
  match length bit_string with
  | O => Raise ZeroDivisionError
  | len => let n := (n mod len)%nat in
           Ok (skipn n bit_string ++ firstn n bit_string)
  end.

Definition _permute (data_str : bitstr) (table : list Z) : result bitstr :=
  mapM (fun i => index data_str (i - 1)) table.

(** *** The DES class *)

Record DES : Type := mkDES {
  block_size : Z;
  rounds : Z;
  keylen : Z;
  iv : option bytes;
  key : bytes;
  subkeys : list bitstr
}.

(** The loop body of [_generate_subkeys]; the state is [(C, D, subkeys)]. *)
Definition subkey_step (st : bitstr * bitstr * list bitstr) (i : nat)
  : result (bitstr * bitstr * list bitstr) :=
  let '(C, D, subkeys) := st in
  r <- match nth_error ROTATIONS (i mod length ROTATIONS) with
       | Some r => Ok r
       | None => Raise IndexError
       end ;;
  C <- rotate_left C r ;;
  D <- rotate_left D r ;;
  k <- _permute (C ++ D) PC_2 ;;
  Ok (C, D, subkeys ++ [k]).

Definition _generate_subkeys (key : bytes) (rounds : Z) : result (list bitstr) :=
  let key_str := bytes_to_bit_string key in
  pc1_key <- _permute key_str PC_1 ;;
  let C := firstn 28 pc1_key in
  let D := skipn 28 pc1_key in
  st <- foldM subkey_step (range rounds) (C, D, []) ;;
  Ok (snd st).

(** [key.ljust(8, b'\x00')] when short, [key[:8]] when long. *)
Definition normalize_key (key : bytes) : bytes :=
  if (length key <? 8)%nat then key ++ repeat x00 (8 - length key)
  else if (8 <? length key)%nat then firstn 8 key
  else key.

(** [DES.__init__]; the [mode] argument is accepted and never stored. *)
Definition DES_init (key : bytes) (block_size rounds keylen : Z)
  (iv : option bytes) : result DES :=
  let key := normalize_key key in
  subkeys <- _generate_subkeys key rounds ;;
  Ok (mkDES block_size rounds keylen iv key subkeys).

(** One S-box lookup of [_feistel_function]: the body of [for i in range(8)]. *)
Definition sbox_step (xor_result : bitstr) (s_box_output : bitstr) (i : nat)
  : result bitstr :=
  let chunk := firstn 6 (skipn (i * 6) xor_result) in
  match chunk with
  | [c0; c1; c2; c3; c4; c5] =>
      row <- int2 [c0; c5] ;;
      col <- int2 [c1; c2; c3; c4] ;;
      let index := (row * 16 + col)%N in
      match nth_error S_BOXES i with
      | None => Raise IndexError
      | Some box =>
          if (N.of_nat (length box) <=? index)%N then Raise ValueError
          else match nth_error box (N.to_nat index) with
               | None => Raise IndexError
               | Some s_val => Ok (s_box_output ++ format_b 4 s_val)
               end
      end
  | _ => Raise ValueError
  end.

Definition _feistel_function (R K : bitstr) : result bitstr :=
  expanded_R <- _permute R E_BOX ;;
  x <- int2 expanded_R ;;
  k <- int2 K ;;
  let xor_result := format_b 48 (N.lxor x k) in
  if negb (Nat.eqb (length xor_result) 48) then Raise ValueError
  else
    s_box_output <- foldM (sbox_step xor_result) (range 8) [] ;;
    _permute s_box_output P_BOX.

(** The body of the round loop of [_process_block]; the state is [(L, R)]. *)
Definition round_step (keys : list bitstr) (st : bitstr * bitstr) (i : nat)
  : result (bitstr * bitstr) :=
  let '(L, R) := st in
  let temp := R in
  K <- match nth_error keys i with
       | Some K => Ok K
       | None => Raise IndexError
       end ;;
  f_res <- _feistel_function R K ;;
  l <- int2 L ;;
  f <- int2 f_res ;;
  let R := format_b 32 (N.lxor l f) in
  let L := temp in
  Ok (L, R).

Definition _process_block (self : DES) (block : bytes) (decrypt_mode : bool)
  : result bytes :=
  if negb (Nat.eqb (length block) 8) then Raise ValueError
  else
    let block_str := bytes_to_bit_string block in
    let L := firstn 32 block_str in
    let R := skipn 32 block_str in
    let keys := if decrypt_mode then rev (subkeys self) else subkeys self in
    st <- foldM (round_step keys) (range (rounds self)) (L, R) ;;
    let '(L, R) := st in
    let final_bits := R ++ L in
    bit_string_to_bytes final_bits.

Definition encrypt_block (self : DES) (block : bytes) : result bytes :=
  _process_block self block false.

Definition decrypt_block (self : DES) (block : bytes) : result bytes :=
  _process_block self block true.

(** [DES.encrypt] and [DES.decrypt]: [plaintext[::-1]] is [rev]. *)
Definition encrypt (self : DES) (plaintext : bytes) : bytes :=
  Base64.b64encode (rev plaintext).

Definition decrypt (self : DES) (ciphertext : bytes) : result bytes :=
  decoded <- Base64.b64decode ciphertext ;;
  Ok (rev decoded).

End DesCore.

(** ** des/modes.py *)

Module Modes.

Import DesCore.

Open Scope Z_scope.

(** *** Padding: PKCS#7 *)

Definition pad (data : bytes) (block_size : Z) : result bytes :=
  if block_size =? 0 then Raise ZeroDivisionError
  else
    let padding_len := block_size - Z.of_nat (length data) mod block_size in
    let padding_len := if padding_len =? 0 then block_size else padding_len in
    b <- bytes_of_ints [padding_len] ;;
    Ok (data ++ concat (repeat b (Z.to_nat padding_len))).

Definition unpad (data : bytes) (block_size : Z) : bytes :=
  match data with
  | [] => []
  | _ =>
      let padding_len := byte_int (last data x00) in
      if (padding_len <? 1) || (block_size <? padding_len)
         || (Z.of_nat (length data) <? padding_len)
      then data
      else firstn (length data - Z.to_nat padding_len) data
  end.

(** *** Base mode *)

Inductive kind : Type := ECB | CBC | CFB | OFB | CTR.

(** An instance of one of the five subclasses of [_BaseMode]. *)
Record Mode : Type := mkMode {
  cls : kind;
  des : option DES;
  block_size_bytes : Z;
  iv : option bytes
}.

(** [_BaseMode.__init__], which every subclass inherits. *)
Definition Mode_init (cls : kind) (des_engine : option DES) : result Mode :=
  match des_engine with
  | Some d => Ok (mkMode cls (Some d) (DesCore.block_size d / 8) (DesCore.iv d))
  | None => Ok (mkMode cls None 0 None)
  end.

(** [_BaseMode.set_des_engine]: binds an engine to an existing instance. *)
Definition set_des_engine (self : Mode) (des_engine : DES) : Mode :=
  mkMode (cls self) (Some des_engine) (DesCore.block_size des_engine / 8)
         (DesCore.iv des_engine).

Definition _get_blocks (self : Mode) (data : bytes) : result (list bytes) :=
  if block_size_bytes self =? 0 then Raise ValueError
  else if block_size_bytes self <? 0 then Ok []
  else Ok (slices (Z.to_nat (block_size_bytes self)) data).

(** [if not self.iv: raise ValueError]: [None] and [b""] are both falsy. *)
Definition require_iv (self : Mode) : result bytes :=
  match iv self with
  | None => Raise ValueError
  | Some [] => Raise ValueError
  | Some v => Ok v
  end.

(** [bytes(p ^ c for p, c in zip(a, b))] *)
Definition xor_bytes (a b : bytes) : result bytes :=
  bytes_of_ints
    (map (fun pc => Z.lxor (byte_int (fst pc)) (byte_int (snd pc)))
         (combine a b)).

(** [int.from_bytes(b, 'big')] *)
Definition int_from_bytes (b : bytes) : Z :=
  fold_left (fun acc x => 256 * acc + byte_int x) b 0.

(** The [len] big-endian base-256 digits of [n]. *)
Fixpoint be_digits (len : nat) (n : Z) : list Z :=
  match len with
  | O => []
  | S len' => be_digits len' (n / 256) ++ [n mod 256]
  end.

(** [n.to_bytes(len, 'big')] *)
Definition int_to_bytes (n : Z) (len : Z) : result bytes :=
  if len <? 0 then Raise ValueError
  else if n <? 0 then Raise OverflowError
  else if 256 ^ len <=? n then Raise OverflowError
  else bytes_of_ints (be_digits (Z.to_nat len) n).

(** *** ECB *)

Definition ECB_encrypt (self : Mode) (plaintext : bytes) : result bytes :=
  match des self with
  | None => Raise ValueError
  | Some d =>
      padded <- pad plaintext (block_size_bytes self) ;;
      blocks <- _get_blocks self padded ;;
      encrypted <- mapM (encrypt_block d) blocks ;;
      Ok (concat encrypted)
  end.

Definition ECB_decrypt (self : Mode) (ciphertext : bytes) : result bytes :=
  match des self with
  | None => Raise ValueError
  | Some d =>
      blocks <- _get_blocks self ciphertext ;;
      decrypted <- mapM (decrypt_block d) blocks ;;
      Ok (unpad (concat decrypted) (block_size_bytes self))
  end.

(** *** CBC: the loop state is [(encrypted_blocks, previous_block)]. *)

Definition CBC_encrypt_step (d : DES) (st : list bytes * bytes) (block : bytes)
  : result (list bytes * bytes) :=
  let '(encrypted_blocks, previous_block) := st in
  xored <- xor_bytes block previous_block ;;
  cipher_block <- encrypt_block d xored ;;
  Ok (encrypted_blocks ++ [cipher_block], cipher_block).

Definition CBC_encrypt (self : Mode) (plaintext : bytes) : result bytes :=
  match des self with
  | None => Raise ValueError
  | Some d =>
      iv <- require_iv self ;;
      padded <- pad plaintext (block_size_bytes self) ;;
      blocks <- _get_blocks self padded ;;
      st <- foldM (CBC_encrypt_step d) blocks ([], iv) ;;
      Ok (concat (fst st))
  end.

Definition CBC_decrypt_step (d : DES) (st : list bytes * bytes) (block : bytes)
  : result (list bytes * bytes) :=
  let '(decrypted_blocks, previous_block) := st in
  decrypted_block <- decrypt_block d block ;;
  plain_block <- xor_bytes decrypted_block previous_block ;;
  Ok (decrypted_blocks ++ [plain_block], block).

Definition CBC_decrypt (self : Mode) (ciphertext : bytes) : result bytes :=
  match des self with
  | None => Raise ValueError
  | Some d =>
      iv <- require_iv self ;;
      blocks <- _get_blocks self ciphertext ;;
      st <- foldM (CBC_decrypt_step d) blocks ([], iv) ;;
      Ok (unpad (concat (fst st)) (block_size_bytes self))
  end.

(** *** CFB: the loop state is [(blocks_out, prev_cipher)]. *)

Definition CFB_encrypt_step (d : DES) (st : list bytes * bytes) (block : bytes)
  : result (list bytes * bytes) :=
  let '(encrypted_blocks, prev_cipher) := st in
  encrypted_iv <- encrypt_block d prev_cipher ;;
  cipher_block <- xor_bytes block encrypted_iv ;;
  Ok (encrypted_blocks ++ [cipher_block], cipher_block).

Definition CFB_encrypt (self : Mode) (plaintext : bytes) : result bytes :=
  match des self with
  | None => Raise ValueError
  | Some d =>
      iv <- require_iv self ;;
      padded <- pad plaintext (block_size_bytes self) ;;
      blocks <- _get_blocks self padded ;;
      st <- foldM (CFB_encrypt_step d) blocks ([], iv) ;;
      Ok (concat (fst st))
  end.

Definition CFB_decrypt_step (d : DES) (st : list bytes * bytes) (block : bytes)
  : result (list bytes * bytes) :=
  let '(decrypted_blocks, prev_cipher) := st in
  encrypted_iv <- encrypt_block d prev_cipher ;;
  plain_block <- xor_bytes block encrypted_iv ;;
  Ok (decrypted_blocks ++ [plain_block], block).

Definition CFB_decrypt (self : Mode) (ciphertext : bytes) : result bytes :=
  match des self with
  | None => Raise ValueError
  | Some d =>
      iv <- require_iv self ;;
      blocks <- _get_blocks self ciphertext ;;
      st <- foldM (CFB_decrypt_step d) blocks ([], iv) ;;
      Ok (unpad (concat (fst st)) (block_size_bytes self))
  end.

(** *** OFB: the loop state is [(encrypted_blocks, feedback)]. *)

Definition OFB_step (d : DES) (st : list bytes * bytes) (block : bytes)
  : result (list bytes * bytes) :=
  let '(encrypted_blocks, feedback) := st in
  output_block <- encrypt_block d feedback ;;
  cipher_block <- xor_bytes block output_block ;;
  Ok (encrypted_blocks ++ [cipher_block], output_block).

Definition OFB_encrypt (self : Mode) (plaintext : bytes) : result bytes :=
  match des self with
  | None => Raise ValueError
  | Some d =>
      iv <- require_iv self ;;
      padded <- pad plaintext (block_size_bytes self) ;;
      blocks <- _get_blocks self padded ;;
      st <- foldM (OFB_step d) blocks ([], iv) ;;
      Ok (concat (fst st))
  end.

Definition OFB_decrypt (self : Mode) (ciphertext : bytes) : result bytes :=
  OFB_encrypt self ciphertext.

(** *** CTR: the loop state is [(encrypted_blocks, counter)]. *)

Definition CTR_step (d : DES) (block_len : Z) (st : list bytes * Z)
  (block : bytes) : result (list bytes * Z) :=
  let '(encrypted_blocks, counter) := st in
  counter_block <- int_to_bytes counter block_len ;;
  output_block <- encrypt_block d counter_block ;;
  cipher_block <- xor_bytes block output_block ;;
  Ok (encrypted_blocks ++ [cipher_block], counter + 1).

Definition CTR_encrypt (self : Mode) (plaintext : bytes) : result bytes :=
  match des self with
  | None => Raise ValueError
  | Some d =>
      iv <- require_iv self ;;
      padded <- pad plaintext (block_size_bytes self) ;;
      let counter := int_from_bytes iv in
      let block_len := block_size_bytes self in
      blocks <- _get_blocks self padded ;;
      st <- foldM (CTR_step d block_len) blocks ([], counter) ;;
      Ok (concat (fst st))
  end.

Definition CTR_decrypt (self : Mode) (ciphertext : bytes) : result bytes :=
  CTR_encrypt self ciphertext.

(** *** Dispatch on the class of the instance *)

Definition encrypt (self : Mode) (plaintext : bytes) : result bytes :=
  match cls self with
  | ECB => ECB_encrypt self plaintext
  | CBC => CBC_encrypt self plaintext
  | CFB => CFB_encrypt self plaintext
  | OFB => OFB_encrypt self plaintext
  | CTR => CTR_encrypt self plaintext
  end.

Definition decrypt (self : Mode) (ciphertext : bytes) : result bytes :=
  match cls self with
  | ECB => ECB_decrypt self ciphertext
  | CBC => CBC_decrypt self ciphertext
  | CFB => CFB_decrypt self ciphertext
  | OFB => OFB_decrypt self ciphertext
  | CTR => CTR_decrypt self ciphertext
  end.

End Modes.

(** ** The specification's reading of the key schedule, the rounds and CTR *)

Module Spec.

Import DesCore Modes.

Open Scope Z_scope.

(** A selection permutation: output position [j] takes input bit
    [table[j]], counted from 1. *)
Definition select (table : list Z) (s : bitstr) : bitstr :=
  map (fun i => nth (Z.to_nat (i - 1)) s false) table.

(** Left rotation by [n] places. *)
Definition rotl (n : nat) (s : bitstr) : bitstr := skipn n s ++ firstn n s.

(** The per-round rotation amount, cycling through the table. *)
Definition rotation (i : nat) : nat := nth (i mod 16) ROTATIONS O.

(** The halves [(C, D)] after [n] rounds of rotation: PC-1 of the key for
    [n = 0], and the previous round's halves rotated once more after that. *)
Fixpoint halves (key : bytes) (n : nat) : bitstr * bitstr :=
  match n with
  | O => let k := select PC_1 (bytes_to_bit_string key) in
         (firstn 28 k, skipn 28 k)
  | S i => let '(C, D) := halves key i in
           (rotl (rotation i) C, rotl (rotation i) D)
  end.

(** Subkey [i]: PC-2 of the concatenated halves after round [i]'s rotation. *)
Definition subkey (key : bytes) (i : nat) : bitstr :=
  let '(C, D) := halves key (S i) in select PC_2 (C ++ D).

(** One Feistel round under subkey [K]: the new left half is the old right
    half, the new right half is the old left half XOR the round function. *)
Definition feistel_round (st : bitstr * bitstr) (K : bitstr)
  : result (bitstr * bitstr) :=
  let '(L, R) := st in
  f_res <- _feistel_function R K ;;
  l <- int2 L ;;
  f <- int2 f_res ;;
  Ok (R, format_b 32 (N.lxor l f)).

(** The rounds of one direction: the subkeys are consumed in list order. *)
Definition feistel_rounds (keys : list bitstr) (st : bitstr * bitstr)
  : result (bitstr * bitstr) :=
  foldM feistel_round keys st.

(** The two 32-bit halves [(L, R)] of a block. *)
Definition block_halves (block : bytes) : bitstr * bitstr :=
  (firstn 32 (bytes_to_bit_string block), skipn 32 (bytes_to_bit_string block)).

(** An engine whose schedule has one 48-bit subkey per round. *)
Definition well_formed (e : DES) : Prop :=
  length (subkeys e) = Z.to_nat (rounds e)
  /\ Forall (fun K : bitstr => length K = 48%nat) (subkeys e).

(** Keystream block [i] of CTR, computed from the seed and [i] alone. *)
Definition CTR_keystream (d : DES) (iv : bytes) (block_len : Z) (i : nat)
  : result bytes :=
  counter_block <- int_to_bytes (int_from_bytes iv + Z.of_nat i) block_len ;;
  encrypt_block d counter_block.

(** CTR with every block processed independently of the others. *)
Definition CTR_encrypt_direct (self : Mode) (plaintext : bytes) : result bytes :=
  match des self with
  | None => Raise ValueError
  | Some d =>
      iv <- require_iv self ;;
      padded <- pad plaintext (block_size_bytes self) ;;
      blocks <- _get_blocks self padded ;;
      out <- mapM (fun ib => ks <- CTR_keystream d iv (block_size_bytes self) (fst ib) ;;
                             xor_bytes (snd ib) ks)
                  (combine (seq 0 (length blocks)) blocks) ;;
      Ok (concat out)
  end.

End Spec.

(** ** Sample inputs *)

Module Samples.

Import DesCore Modes.

(** [b"MYSECRET"], [b"12345678"], [b"HELLOALI"] *)
Definition key : bytes := [x4d; x59; x53; x45; x43; x52; x45; x54].
Definition iv : bytes := [x31; x32; x33; x34; x35; x36; x37; x38].
Definition msg : bytes := [x48; x45; x4c; x4c; x4f; x41; x4c; x49].

(** [b"\xff" * 8]: the largest counter seed. *)
Definition iv_max : bytes := [xff; xff; xff; xff; xff; xff; xff; xff].

(** [DES(key, rounds=rounds, iv=iv)] followed by [cls(engine)] *)
Definition new_mode (cls : kind) (rounds : Z) (iv : option bytes)
  : result Mode :=
  e <- DES_init key 64 rounds 64 iv ;;
  Mode_init cls (Some e).

End Samples.

(** * Proofs *)

Import DesCore Modes.

Unset Implicit Arguments.

(** ** The error monad and the list helpers *)

Lemma foldM_app {S A : Type} (body : S -> A -> result S) (l1 l2 : list A) (s : S) :
  foldM body (l1 ++ l2) s = bind (foldM body l1 s) (foldM body l2).
Proof.
  revert s; induction l1 as [|x l1 IH]; intros s; simpl; [reflexivity|].
  destruct (body s x); simpl; auto.
Qed.

Lemma mapM_pure {A B : Type} (f : A -> result B) (g : A -> B) (l : list A) :
  (forall x, In x l -> f x = Ok (g x)) -> mapM f l = Ok (map g l).
Proof.
  induction l as [|x l IH]; intros H; simpl; [reflexivity|].
  rewrite (H x (or_introl eq_refl)); simpl.
  rewrite IH by (intros; apply H; right; assumption).
  reflexivity.
Qed.


Lemma slices_nil {A : Type} (n : nat) : (0 < n)%nat -> slices n (@nil A) = [].
Proof.
  intros Hn. unfold slices. simpl.
  replace ((n - 1) / n)%nat with O; [reflexivity|].
  symmetry. apply Nat.div_small. lia.
Qed.

Lemma slices_cons {A : Type} (n : nat) (a s : list A) :
  (0 < n)%nat -> length a = n -> slices n (a ++ s) = a :: slices n s.
Proof.
  intros Hn Ha. unfold slices.
  rewrite length_app, Ha.
  replace ((n + length s + n - 1) / n)%nat with (S ((length s + n - 1) / n)).
  2:{ replace (n + length s + n - 1)%nat with (1 * n + (length s + n - 1))%nat by lia.
      rewrite Nat.div_add_l by lia. lia. }
  rewrite <- cons_seq, <- seq_shift, map_cons, map_map. f_equal.
  - simpl. rewrite <- Ha. rewrite firstn_app, Nat.sub_diag, firstn_all.
    simpl. apply app_nil_r.
  - apply map_ext. intros k. f_equal.
    replace (S k * n)%nat with (length a + k * n)%nat by (simpl; lia).
    rewrite skipn_app, skipn_all2 by lia.
    replace (length a + k * n - length a)%nat with (k * n)%nat by lia.
    reflexivity.
Qed.


(** ** Binary formatting and parsing *)

Lemma int2val_snoc (s : bitstr) (b : bool) :
  int2val (s ++ [b]) = (2 * int2val s + N.b2n b)%N.
Proof. unfold int2val. rewrite fold_left_app. reflexivity. Qed.

Lemma int2val_zeros (k : nat) (s : bitstr) :
  int2val (repeat false k ++ s) = int2val s.
Proof.
  unfold int2val. rewrite fold_left_app. f_equal.
  induction k as [|k IH]; simpl; [reflexivity|]. exact IH.
Qed.

Lemma int2val_pos_bits (p : positive) : int2val (pos_bits p) = Npos p.
Proof.
  induction p as [q IH|q IH|]; simpl; try reflexivity;
    rewrite int2val_snoc, IH; reflexivity.
Qed.

Lemma int2val_format_b (w : nat) (n : N) : int2val (format_b w n) = n.
Proof.
  unfold format_b. rewrite int2val_zeros.
  destruct n as [|p]; [reflexivity|apply int2val_pos_bits].
Qed.


Lemma format_b_snoc (w : nat) (n : N) (b : bool) :
  (1 <= w)%nat ->
  format_b (S w) (2 * n + N.b2n b) = format_b w n ++ [b].
Proof.
  intros Hw. unfold format_b. destruct n as [|p].
  - destruct w as [|w]; [lia|].
    assert (E : repeat false w ++ [false] = repeat false (S w))
      by (rewrite <- repeat_cons; reflexivity).
    destruct b; simpl bin; simpl length; simpl Nat.sub;
      rewrite Nat.sub_0_r, <- E, <- !app_assoc; reflexivity.
  - assert (E : bin (2 * N.pos p + N.b2n b) = pos_bits p ++ [b])
      by (destruct b; reflexivity).
    rewrite E. simpl bin. rewrite length_app. simpl length.
    replace (S w - (length (pos_bits p) + 1))%nat
      with (w - length (pos_bits p))%nat by lia.
    apply app_assoc.
Qed.

Lemma format_b_int2val (s : bitstr) :
  (1 <= length s)%nat -> format_b (length s) (int2val s) = s.
Proof.
  induction s as [|b s IH] using rev_ind; intros H; [simpl in H; lia|].
  rewrite int2val_snoc, length_app. simpl length.
  rewrite Nat.add_1_r.
  destruct s as [|c s].
  - destruct b; reflexivity.
  - rewrite format_b_snoc by (simpl; lia).
    rewrite IH by (simpl; lia). reflexivity.
Qed.

Lemma int2val_lt (s : bitstr) : (int2val s < 2 ^ N.of_nat (length s))%N.
Proof.
  induction s as [|b s IH] using rev_ind; [reflexivity|].
  rewrite int2val_snoc, length_app. simpl length.
  rewrite Nat.add_1_r, Nat2N.inj_succ, N.pow_succ_r'.
  destruct b; simpl N.b2n; lia.
Qed.

Lemma length_pos_bits_le (p : positive) : forall w : nat,
  (N.pos p < 2 ^ N.of_nat w)%N -> (length (pos_bits p) <= w)%nat.
Proof.
  induction p as [q IH|q IH|]; intros w H.
  - destruct w as [|w]; [simpl in H; lia|].
    rewrite Nat2N.inj_succ, N.pow_succ_r' in H.
    simpl. rewrite length_app. simpl.
    specialize (IH w). assert (N.pos q < 2 ^ N.of_nat w)%N by lia.
    apply IH in H0. lia.
  - destruct w as [|w]; [simpl in H; lia|].
    rewrite Nat2N.inj_succ, N.pow_succ_r' in H.
    simpl. rewrite length_app. simpl.
    specialize (IH w). assert (N.pos q < 2 ^ N.of_nat w)%N by lia.
    apply IH in H0. lia.
  - destruct w as [|w]; [simpl in H; lia|]. simpl. lia.
Qed.

Lemma length_format_b (w : nat) (n : N) :
  (1 <= w)%nat -> (n < 2 ^ N.of_nat w)%N -> length (format_b w n) = w.
Proof.
  intros Hw Hn. unfold format_b. rewrite length_app, repeat_length.
  assert (length (bin n) <= w)%nat.
  { destruct n as [|p]; [simpl; lia|]. apply length_pos_bits_le; assumption. }
  lia.
Qed.

Lemma lxor_lt (a b w : N) :
  (a < 2 ^ w)%N -> (b < 2 ^ w)%N -> (N.lxor a b < 2 ^ w)%N.
Proof.
  intros Ha Hb.
  destruct (N.eq_dec a 0) as [->|Na]; [rewrite N.lxor_0_l; assumption|].
  destruct (N.eq_dec b 0) as [->|Nb]; [rewrite N.lxor_0_r; assumption|].
  destruct (N.eq_dec (N.lxor a b) 0) as [E|Nx].
  - rewrite E. apply N.neq_0_lt_0. apply N.pow_nonzero. discriminate.
  - apply N.log2_lt_pow2; [lia|].
    apply N.log2_lt_pow2 in Ha; [|lia]. apply N.log2_lt_pow2 in Hb; [|lia].
    pose proof (N.log2_lxor a b). lia.
Qed.

Lemma length_format_b_lxor (w : nat) (s t : bitstr) :
  (1 <= w)%nat -> length s = w -> length t = w ->
  length (format_b w (N.lxor (int2val s) (int2val t))) = w.
Proof.
  intros Hw Hs Ht. apply length_format_b; [assumption|].
  apply lxor_lt; [rewrite <- Hs|rewrite <- Ht]; apply int2val_lt.
Qed.

Lemma int2_ok (s : bitstr) : (1 <= length s)%nat -> int2 s = Ok (int2val s).
Proof. destruct s; simpl; [lia|reflexivity]. Qed.

(** ** Bytes and their eight bits *)

Lemma length_byte_bits (b : byte) : length (format_b 8 (Byte.to_N b)) = 8%nat.
Proof.
  apply length_format_b; [lia|].
  pose proof (Byte.to_N_bounded b). simpl. lia.
Qed.

Lemma length_bytes_to_bit_string (data : bytes) :
  length (bytes_to_bit_string data) = (8 * length data)%nat.
Proof.
  unfold bytes_to_bit_string.
  induction data as [|b data IH]; simpl; [reflexivity|].
  rewrite length_app, length_byte_bits, IH. lia.
Qed.

Lemma bytes_of_ints_bytes (l : bytes) : bytes_of_ints (map byte_int l) = Ok l.
Proof.
  unfold bytes_of_ints.
  rewrite mapM_pure with (g := fun z => match Byte.of_N (Z.to_N z) with
                                        | Some b => b | None => x00 end).
  - f_equal. rewrite map_map. rewrite <- (map_id l) at 2.
    apply map_ext. intros b. unfold byte_int.
    rewrite N2Z.id, Byte.of_to_N. reflexivity.
  - intros z Hz. apply in_map_iff in Hz. destruct Hz as [b [<- _]].
    unfold byte_int. rewrite N2Z.id, Byte.of_to_N.
    destruct (Z.ltb_spec (Z.of_N (Byte.to_N b)) 0); [lia|reflexivity].
Qed.

(** [bit_string_to_bytes] undoes [bytes_to_bit_string]. *)
Lemma bit_string_to_bytes_of_bytes (data : bytes) :
  bit_string_to_bytes (bytes_to_bit_string data) = Ok data.
Proof.
  unfold bit_string_to_bytes.
  rewrite length_bytes_to_bit_string.
  replace ((8 * length data) mod 8)%nat with O
    by (symmetry; rewrite Nat.mul_comm; apply Nat.Div0.mod_mul).
  simpl negb. cbv iota.
  assert (E : mapM int2 (slices 8 (bytes_to_bit_string data))
              = Ok (map Byte.to_N data)).
  { unfold bytes_to_bit_string.
    induction data as [|b data IH]; [reflexivity|].
    cbn [flat_map].
    rewrite slices_cons by (try lia; apply length_byte_bits).
    cbn [mapM map]. rewrite int2_ok by (rewrite length_byte_bits; lia).
    rewrite IH. cbn [bind]. rewrite int2val_format_b. reflexivity. }
  rewrite E. simpl. rewrite map_map. apply bytes_of_ints_bytes.
Qed.

(** A bit string of whole octets is the bit string of the bytes it decodes to. *)
Lemma bit_string_to_bytes_octets (k : nat) : forall s : bitstr,
  length s = (8 * k)%nat ->
  exists c, bit_string_to_bytes s = Ok c
            /\ bytes_to_bit_string c = s /\ length c = k.
Proof.
  assert (A : forall (k : nat) (s : bitstr), length s = (8 * k)%nat ->
            exists c, mapM int2 (slices 8 s) = Ok (map Byte.to_N c)
                      /\ bytes_to_bit_string c = s /\ length c = k).
  { clear k. induction k as [|k IH]; intros s Hs.
    - destruct s; [|simpl in Hs; lia]. exists []. repeat split.
    - rewrite <- (firstn_skipn 8 s).
      set (a := firstn 8 s). set (s' := skipn 8 s).
      assert (Ha : length a = 8%nat) by (unfold a; rewrite length_firstn; lia).
      assert (Hs' : length s' = (8 * k)%nat)
        by (unfold s'; rewrite length_skipn; lia).
      destruct (IH s' Hs') as [c [E1 [E2 E3]]].
      destruct (Byte.of_N (int2val a)) as [b|] eqn:Eb.
      2:{ apply Byte.of_N_None_iff in Eb.
          pose proof (int2val_lt a) as Hlt. rewrite Ha in Hlt.
          simpl in Hlt. lia. }
      apply Byte.to_of_N in Eb.
      exists (b :: c). split; [|split].
      + rewrite slices_cons by lia. cbn [mapM map].
        rewrite int2_ok by lia. rewrite E1. cbn [bind].
        rewrite Eb. reflexivity.
      + unfold bytes_to_bit_string in *. cbn [flat_map].
        rewrite E2, Eb, <- Ha, format_b_int2val by lia. reflexivity.
      + simpl. rewrite E3. reflexivity. }
  intros s Hs. destruct (A k s Hs) as [c [E1 [E2 E3]]].
  exists c. split; [|split; assumption].
  unfold bit_string_to_bytes. rewrite Hs.
  replace ((8 * k) mod 8)%nat with O
    by (symmetry; rewrite Nat.mul_comm; apply Nat.Div0.mod_mul).
  simpl negb. cbv iota. rewrite E1. cbn [bind].
  rewrite map_map. apply bytes_of_ints_bytes.
Qed.

(** ** Selection permutations *)

Lemma length_select (table : list Z) (s : bitstr) :
  length (Spec.select table s) = length table.
Proof. apply length_map. Qed.

Lemma permute_select (s : bitstr) (table : list Z) :
  Forall (fun i => (1 <= i <= Z.of_nat (length s))%Z) table ->
  _permute s table = Ok (Spec.select table s).
Proof.
  intros H. unfold _permute, Spec.select. apply mapM_pure.
  intros i Hi. rewrite Forall_forall in H. specialize (H i Hi).
  unfold index.
  destruct (Z.ltb_spec (i - 1) 0); [lia|].
  destruct (Z.ltb_spec (i - 1) 0); [lia|].
  rewrite nth_error_nth' with (d := false) by lia. reflexivity.
Qed.

Lemma E_BOX_range : Forall (fun i => (1 <= i <= 32)%Z) E_BOX.
Proof. unfold E_BOX. repeat (constructor; [lia|]). constructor. Qed.

Lemma P_BOX_range : Forall (fun i => (1 <= i <= 32)%Z) P_BOX.
Proof. unfold P_BOX. repeat (constructor; [lia|]). constructor. Qed.

Lemma PC_1_range : Forall (fun i => (1 <= i <= 64)%Z) PC_1.
Proof. unfold PC_1. repeat (constructor; [lia|]). constructor. Qed.

Lemma PC_2_range : Forall (fun i => (1 <= i <= 56)%Z) PC_2.
Proof. unfold PC_2. repeat (constructor; [lia|]). constructor. Qed.

Lemma permute_fixed (n : Z) (table : list Z) (s : bitstr) :
  Forall (fun i => (1 <= i <= n)%Z) table -> Z.of_nat (length s) = n ->
  _permute s table = Ok (Spec.select table s).
Proof.
  intros H Hn. apply permute_select. rewrite Hn. exact H.
Qed.

(** ** The round function is total on well-sized inputs *)

Lemma sbox_step_ok (x out : bitstr) (i : nat) :
  (i < 8)%nat -> length x = 48%nat ->
  exists nib, sbox_step x out i = Ok (out ++ nib) /\ length nib = 4%nat.
Proof.
  intros Hi Hx. unfold sbox_step.
  assert (Hc : length (firstn 6 (skipn (i * 6) x)) = 6%nat)
    by (rewrite length_firstn, length_skipn; lia).
  destruct (firstn 6 (skipn (i * 6) x))
    as [|c0 [|c1 [|c2 [|c3 [|c4 [|c5 [|c6 r]]]]]]]; try discriminate Hc.
  do 8 (destruct i as [|i];
        [destruct c0, c1, c2, c3, c4, c5;
         (eexists; split; [reflexivity|reflexivity])|]).
  lia.
Qed.

Lemma sbox_loop_ok (x : bitstr) : length x = 48%nat ->
  forall (l : list nat) (out : bitstr),
  Forall (fun i => (i < 8)%nat) l ->
  exists out', foldM (sbox_step x) l out = Ok out'
               /\ length out' = (length out + 4 * length l)%nat.
Proof.
  intros Hx. induction l as [|i l IH]; intros out Hl.
  - exists out. simpl. split; [reflexivity|lia].
  - inversion Hl as [|? ? Hi Hl']; subst.
    destruct (sbox_step_ok x out i Hi Hx) as [nib [E Hn]].
    destruct (IH (out ++ nib) Hl') as [out' [E' Hn']].
    exists out'. cbn [foldM]. rewrite E. cbn [bind]. split; [exact E'|].
    rewrite Hn', length_app. simpl. lia.
Qed.

Lemma feistel_function_ok (R K : bitstr) :
  length R = 32%nat -> length K = 48%nat ->
  exists f, _feistel_function R K = Ok f /\ length f = 32%nat.
Proof.
  intros HR HK. unfold _feistel_function.
  rewrite (permute_fixed 32 E_BOX R E_BOX_range) by (rewrite HR; reflexivity).
  cbn [bind].
  assert (HE : length (Spec.select E_BOX R) = 48%nat) by (rewrite length_select; reflexivity).
  rewrite !int2_ok by lia. cbn [bind].
  set (x := format_b 48 _).
  assert (Hx : length x = 48%nat) by (apply length_format_b_lxor; auto; lia).
  rewrite Hx. simpl negb. cbv iota.
  destruct (sbox_loop_ok x Hx (range 8) []) as [out [E Ho]].
  { unfold range. simpl. repeat (constructor; [lia|]). constructor. }
  rewrite E. cbn [bind]. simpl in Ho.
  rewrite (permute_fixed 32 P_BOX out P_BOX_range) by (rewrite Ho; reflexivity).
  eexists. split; [reflexivity|]. rewrite length_select. reflexivity.
Qed.

(** ** The Feistel rounds *)

Lemma round_step_key (keys : list bitstr) (st : bitstr * bitstr) (i : nat)
  (K : bitstr) :
  nth_error keys i = Some K -> round_step keys st i = Spec.feistel_round st K.
Proof.
  intros H. unfold round_step, Spec.feistel_round. destruct st as [L R].
  rewrite H. reflexivity.
Qed.

(** The indexed loop over [range(rounds)] is a fold over the key list. *)
Lemma foldM_round_step (ks : list bitstr) : forall pre st,
  foldM (round_step (pre ++ ks)) (seq (length pre) (length ks)) st
  = Spec.feistel_rounds ks st.
Proof.
  unfold Spec.feistel_rounds.
  induction ks as [|K ks IH]; intros pre st; [reflexivity|].
  cbn [length seq foldM].
  rewrite (round_step_key _ _ _ K)
    by (rewrite nth_error_app2, Nat.sub_diag by lia; reflexivity).
  destruct (Spec.feistel_round st K) as [st'|err]; [|reflexivity].
  cbn [bind].
  replace (pre ++ K :: ks) with ((pre ++ [K]) ++ ks)
    by (rewrite <- app_assoc; reflexivity).
  replace (S (length pre)) with (length (pre ++ [K]))
    by (rewrite length_app; simpl; lia).
  apply IH.
Qed.

Lemma feistel_round_ok (L R K : bitstr) :
  length L = 32%nat -> length R = 32%nat -> length K = 48%nat ->
  exists R', Spec.feistel_round (L, R) K = Ok (R, R')
             /\ length R' = 32%nat
             /\ Spec.feistel_round (R', R) K = Ok (R, L).
Proof.
  intros HL HR HK.
  destruct (feistel_function_ok R K HR HK) as [f [Ef Hf]].
  exists (format_b 32 (N.lxor (int2val L) (int2val f))).
  assert (Hlen : length (format_b 32 (N.lxor (int2val L) (int2val f))) = 32%nat)
    by (apply length_format_b_lxor; auto; lia).
  unfold Spec.feistel_round. rewrite Ef. cbn [bind].
  rewrite !int2_ok by lia. cbn [bind].
  split; [reflexivity|]. split; [exact Hlen|].
  rewrite int2val_format_b.
  rewrite N.lxor_assoc, N.lxor_nilpotent, N.lxor_0_r.
  rewrite <- HL at 1. rewrite format_b_int2val by lia. reflexivity.
Qed.

(** Running the rounds and then running them again on the swapped halves
    with the subkeys reversed gives back the swapped start. *)
Lemma feistel_rounds_inverse (ks : list bitstr) :
  Forall (fun K : bitstr => length K = 48%nat) ks ->
  forall L R : bitstr, length L = 32%nat -> length R = 32%nat ->
  exists L' R' : bitstr, Spec.feistel_rounds ks (L, R) = Ok (L', R')
                /\ length L' = 32%nat /\ length R' = 32%nat
                /\ Spec.feistel_rounds (rev ks) (R', L') = Ok (R, L).
Proof.
  unfold Spec.feistel_rounds.
  induction ks as [|K ks IH]; intros Hks L R HL HR.
  - exists L, R. repeat split; assumption.
  - inversion Hks as [|? ? HK Hks']; subst.
    destruct (feistel_round_ok L R K HL HR HK) as [R1 [E1 [H1 E2]]].
    destruct (IH Hks' R R1 HR H1) as [L' [R' [E3 [HL' [HR' E4]]]]].
    exists L', R'. cbn [foldM]. rewrite E1. cbn [bind].
    split; [exact E3|]. split; [exact HL'|]. split; [exact HR'|].
    cbn [rev]. rewrite foldM_app, E4. cbn [bind foldM].
    rewrite E2. reflexivity.
Qed.

Lemma length_block_halves (B : bytes) : length B = 8%nat ->
  length (fst (Spec.block_halves B)) = 32%nat
  /\ length (snd (Spec.block_halves B)) = 32%nat.
Proof.
  intros HB. unfold Spec.block_halves. cbn [fst snd].
  rewrite length_firstn, length_skipn, length_bytes_to_bit_string, HB.
  split; reflexivity.
Qed.

(** [_process_block] in terms of the rounds over the key list. *)
Lemma process_block_rounds (e : DES) (B : bytes) (dm : bool) :
  length B = 8%nat -> length (subkeys e) = Z.to_nat (rounds e) ->
  _process_block e B dm =
  (st <- Spec.feistel_rounds (if dm then rev (subkeys e) else subkeys e)
           (Spec.block_halves B) ;;
   bit_string_to_bytes (snd st ++ fst st)).
Proof.
  intros HB Hr. unfold _process_block. rewrite HB. simpl negb. cbv iota.
  unfold range.
  set (ks := if dm then rev (subkeys e) else subkeys e).
  assert (Hk : Z.to_nat (rounds e) = length ks)
    by (unfold ks; destruct dm; rewrite ?length_rev; lia).
  rewrite Hk. change ks with ([] ++ ks) at 1.
  change 0%nat with (length (@nil bitstr)).
  rewrite foldM_round_step. unfold Spec.block_halves.
  destruct (Spec.feistel_rounds _ _) as [[L R]|err]; reflexivity.
Qed.

(** Encrypting a block and decrypting the result, for a well-formed engine. *)
Lemma block_roundtrip (e : DES) (B : bytes) :
  Spec.well_formed e -> length B = 8%nat ->
  exists C Ln Rn,
    encrypt_block e B = Ok C /\ length C = 8%nat
    /\ decrypt_block e C = Ok B
    /\ Spec.feistel_rounds (subkeys e) (Spec.block_halves B) = Ok (Ln, Rn)
    /\ bytes_to_bit_string C = Rn ++ Ln
    /\ Spec.feistel_rounds (rev (subkeys e)) (Spec.block_halves C)
       = Ok (snd (Spec.block_halves B), fst (Spec.block_halves B)).
Proof.
  intros [Hr Hk] HB.
  destruct (length_block_halves B HB) as [HL HR].
  destruct (feistel_rounds_inverse (subkeys e) Hk _ _ HL HR)
    as [Ln [Rn [E1 [HLn [HRn E2]]]]].
  destruct (bit_string_to_bytes_octets 8 (Rn ++ Ln)) as [C [EC [HC1 HC2]]].
  { rewrite length_app, HLn, HRn. reflexivity. }
  assert (HCh : Spec.block_halves C = (Rn, Ln)).
  { unfold Spec.block_halves. rewrite HC1, <- HRn.
    rewrite firstn_app, Nat.sub_diag, firstn_all, skipn_app, Nat.sub_diag,
      skipn_all. simpl. rewrite app_nil_r. reflexivity. }
  exists C, Ln, Rn.
  unfold encrypt_block, decrypt_block.
  rewrite !process_block_rounds by assumption.
  rewrite <- surjective_pairing in E1. rewrite E1. cbn [bind fst snd].
  rewrite HCh, E2. cbn [bind fst snd].
  repeat split; try assumption; try reflexivity.
  unfold Spec.block_halves. cbn [fst snd].
  rewrite firstn_skipn. apply bit_string_to_bytes_of_bytes.
Qed.

Lemma encrypt_block_ok (e : DES) (B : bytes) :
  Spec.well_formed e -> length B = 8%nat ->
  exists C, encrypt_block e B = Ok C /\ length C = 8%nat.
Proof.
  intros He HB.
  destruct (block_roundtrip e B He HB) as [C [_ [_ [E [H _]]]]].
  exists C. split; assumption.
Qed.

(** ** The key schedule *)

Lemma length_normalize_key (key : bytes) : length (normalize_key key) = 8%nat.
Proof.
  unfold normalize_key.
  destruct (Nat.ltb_spec (length key) 8).
  - rewrite length_app, repeat_length. lia.
  - destruct (Nat.ltb_spec 8 (length key)); [|lia].
    rewrite length_firstn. lia.
Qed.

Lemma normalize_key_8 (key : bytes) : length key = 8%nat -> normalize_key key = key.
Proof.
  intros H. unfold normalize_key. rewrite H. reflexivity.
Qed.

Lemma rotation_lookup (i : nat) :
  nth_error ROTATIONS (i mod length ROTATIONS) = Some (Spec.rotation i)
  /\ (1 <= Spec.rotation i <= 2)%nat.
Proof.
  unfold Spec.rotation. change (length ROTATIONS) with 16%nat.
  assert (H : (i mod 16 < 16)%nat) by (apply Nat.mod_upper_bound; lia).
  destruct (i mod 16)%nat as [|m]; [simpl; split; [reflexivity|lia]|].
  do 15 (destruct m as [|m]; [simpl; split; [reflexivity|lia]|]).
  lia.
Qed.

Lemma length_rotl (n : nat) (s : bitstr) : length (Spec.rotl n s) = length s.
Proof.
  unfold Spec.rotl. rewrite length_app, length_skipn, length_firstn. lia.
Qed.

Lemma rotate_left_28 (s : bitstr) (n : nat) :
  length s = 28%nat -> (n < 28)%nat -> rotate_left s n = Ok (Spec.rotl n s).
Proof.
  intros Hs Hn. unfold rotate_left. rewrite Hs.
  rewrite Nat.mod_small by assumption. reflexivity.
Qed.

Lemma length_halves (key : bytes) (n : nat) :
  length key = 8%nat ->
  length (fst (Spec.halves key n)) = 28%nat
  /\ length (snd (Spec.halves key n)) = 28%nat.
Proof.
  intros Hk. induction n as [|n [IH1 IH2]].
  - cbn [Spec.halves fst snd].
    rewrite length_firstn, length_skipn, length_select. split; reflexivity.
  - cbn [Spec.halves]. destruct (Spec.halves key n) as [C D].
    cbn [fst snd] in *. rewrite !length_rotl. split; assumption.
Qed.

Lemma subkey_step_spec (key : bytes) (i : nat) (acc : list bitstr) :
  length key = 8%nat ->
  subkey_step (fst (Spec.halves key i), snd (Spec.halves key i), acc) i
  = Ok (fst (Spec.halves key (S i)), snd (Spec.halves key (S i)),
        acc ++ [Spec.subkey key i]).
Proof.
  intros Hk. destruct (length_halves key i Hk) as [HC HD].
  destruct (rotation_lookup i) as [Er Hr].
  unfold Spec.subkey. cbn [Spec.halves].
  destruct (Spec.halves key i) as [C D]. cbn [fst snd] in *.
  unfold subkey_step. rewrite Er. cbn [bind].
  rewrite !rotate_left_28 by (assumption || lia). cbn [bind].
  rewrite (permute_fixed 56 PC_2 _ PC_2_range)
    by (rewrite length_app, !length_rotl, HC, HD; reflexivity).
  reflexivity.
Qed.

Lemma subkey_loop_spec (key : bytes) : length key = 8%nat ->
  forall (n a : nat) (acc : list bitstr),
  foldM subkey_step (seq a n)
    (fst (Spec.halves key a), snd (Spec.halves key a), acc)
  = Ok (fst (Spec.halves key (a + n)), snd (Spec.halves key (a + n)),
        acc ++ map (Spec.subkey key) (seq a n)).
Proof.
  intros Hk. induction n as [|n IH]; intros a acc.
  - cbn [seq foldM map]. rewrite Nat.add_0_r, app_nil_r. reflexivity.
  - cbn [seq foldM map]. rewrite subkey_step_spec by assumption.
    cbn [bind]. rewrite IH. rewrite <- app_assoc.
    replace (S a + n)%nat with (a + S n)%nat by lia. reflexivity.
Qed.

(** The schedule computed by the loop is the list of the specified subkeys. *)
Lemma generate_subkeys_spec (key : bytes) (rounds : Z) :
  length key = 8%nat ->
  _generate_subkeys key rounds
  = Ok (map (Spec.subkey key) (range rounds)).
Proof.
  intros Hk. unfold _generate_subkeys.
  rewrite (permute_fixed 64 PC_1 _ PC_1_range)
    by (rewrite length_bytes_to_bit_string, Hk; reflexivity).
  cbn [bind]. cbv zeta. unfold range.
  pose proof (subkey_loop_spec key Hk (Z.to_nat rounds) 0 []) as H.
  cbn [Spec.halves fst snd] in H.
  etransitivity; [apply f_equal2; [exact H|reflexivity]|].
  reflexivity.
Qed.

Lemma length_subkey (key : bytes) (i : nat) : length (Spec.subkey key i) = 48%nat.
Proof.
  unfold Spec.subkey. destruct (Spec.halves key (S i)) as [C D].
  rewrite length_select. reflexivity.
Qed.

(** Every construction succeeds, and the engine it builds is well formed. *)
Lemma DES_init_ok (key : bytes) (bs rounds kl : Z) (iv : option bytes) :
  exists e, DES_init key bs rounds kl iv = Ok e
            /\ Spec.well_formed e
            /\ DesCore.block_size e = bs /\ DesCore.rounds e = rounds
            /\ DesCore.iv e = iv
            /\ subkeys e = map (Spec.subkey (normalize_key key)) (range rounds).
Proof.
  unfold DES_init.
  rewrite generate_subkeys_spec by apply length_normalize_key.
  cbn [bind]. eexists. split; [reflexivity|].
  unfold Spec.well_formed. cbn [subkeys DesCore.rounds DesCore.block_size DesCore.iv].
  repeat split.
  - unfold range. rewrite length_map, length_seq. reflexivity.
  - apply Forall_forall. intros K HK. apply in_map_iff in HK.
    destruct HK as [i [<- _]]. apply length_subkey.
Qed.

(** C6: for an 8-byte key and a round count [rounds >= 0], construction
    succeeds and the schedule holds exactly [rounds] subkeys, each of 48 bits;
    subkey [i] is PC-2 of the two 28-bit halves of PC-1 of the key after they
    have been left-rotated, round after round, by the table amount for
    [i mod 16] on top of the previous round's rotation. *)
Theorem key_schedule_subkeys (key : bytes) (bs rounds kl : Z) (iv : option bytes) :
  length key = 8%nat -> (0 <= rounds)%Z ->
  exists e, DES_init key bs rounds kl iv = Ok e
            /\ Z.of_nat (length (subkeys e)) = rounds
            /\ Forall (fun K : bitstr => length K = 48%nat) (subkeys e)
            /\ forall i : nat, (Z.of_nat i < rounds)%Z ->
                 nth_error (subkeys e) i = Some (Spec.subkey key i)
                 /\ length (fst (Spec.halves key i)) = 28%nat
                 /\ length (snd (Spec.halves key i)) = 28%nat.
Proof.
  intros Hk Hr.
  destruct (DES_init_ok key bs rounds kl iv) as [e [E [[Hl Hw] [_ [Hro [_ Hs]]]]]].
  exists e. split; [exact E|]. split; [rewrite Hl, Hro; lia|].
  split; [exact Hw|].
  intros i Hi. split; [|apply length_halves; assumption].
  rewrite Hs, normalize_key_8 by assumption.
  unfold range. rewrite nth_error_map, nth_error_seq.
  destruct (Nat.ltb_spec i (Z.to_nat rounds)); [reflexivity|lia].
Qed.

Lemma key_schedule_subkeys_witness :
  exists e, DES_init Samples.key 64 16 64 None = Ok e
            /\ Z.of_nat (length (subkeys e)) = 16%Z
            /\ Forall (fun K : bitstr => length K = 48%nat) (subkeys e)
            /\ forall i : nat, (Z.of_nat i < 16)%Z ->
                 nth_error (subkeys e) i = Some (Spec.subkey Samples.key i)
                 /\ length (fst (Spec.halves Samples.key i)) = 28%nat
                 /\ length (snd (Spec.halves Samples.key i)) = 28%nat.
Proof.
  apply (key_schedule_subkeys Samples.key 64 16 64 None); [reflexivity|lia].
Defined.

(** C2: for any engine, whatever the key and the round count, and any 8-byte
    block [B], [decrypt_block (encrypt_block B) = B].  Both directions are the
    same computation, the rounds run over the subkey list as it is for
    encryption and over its reverse for decryption, and the output is the
    final right half followed by the final left half. *)
Theorem block_involution (key : bytes) (bs rounds kl : Z) (iv : option bytes)
  (B : bytes) :
  length B = 8%nat ->
  exists e, DES_init key bs rounds kl iv = Ok e
    /\ (exists C, encrypt_block e B = Ok C /\ decrypt_block e C = Ok B)
    /\ (forall (X : bytes) (decrypt_mode : bool), length X = 8%nat ->
          _process_block e X decrypt_mode =
          (st <- Spec.feistel_rounds
                   (if decrypt_mode then rev (subkeys e) else subkeys e)
                   (Spec.block_halves X) ;;
           bit_string_to_bytes (snd st ++ fst st))).
Proof.
  intros HB.
  destruct (DES_init_ok key bs rounds kl iv) as [e [E [Hw _]]].
  exists e. split; [exact E|]. split.
  - destruct (block_roundtrip e B Hw HB) as [C [_ [_ [E1 [_ [E2 _]]]]]].
    exists C. split; assumption.
  - intros X dm HX. apply process_block_rounds; [assumption|apply Hw].
Qed.

Lemma block_involution_witness :
  exists e, DES_init Samples.key 64 16 64 (Some Samples.iv) = Ok e
    /\ (exists C, encrypt_block e Samples.msg = Ok C
                  /\ decrypt_block e C = Ok Samples.msg)
    /\ (forall (X : bytes) (decrypt_mode : bool), length X = 8%nat ->
          _process_block e X decrypt_mode =
          (st <- Spec.feistel_rounds
                   (if decrypt_mode then rev (subkeys e) else subkeys e)
                   (Spec.block_halves X) ;;
           bit_string_to_bytes (snd st ++ fst st))).
Proof.
  apply (block_involution Samples.key 64 16 64 (Some Samples.iv) Samples.msg).
  reflexivity.
Defined.

(** C4 as the code has it: the constructor checks nothing about the round
    count.  For every integer [rounds], inside [8, 32] or not, it returns an
    engine that stores [rounds] as given and carries [max rounds 0] subkeys. *)
Theorem DES_init_accepts_any_rounds (key : bytes) (bs rounds kl : Z)
  (iv : option bytes) :
  exists e, DES_init key bs rounds kl iv = Ok e
            /\ DesCore.rounds e = rounds
            /\ length (subkeys e) = Z.to_nat rounds.
Proof.
  destruct (DES_init_ok key bs rounds kl iv) as [e [E [[Hl _] [_ [Hr _]]]]].
  exists e. split; [exact E|]. split; [exact Hr|]. rewrite Hl, Hr. reflexivity.
Qed.

(** C4 fails as stated: round counts 3 and 33 are outside [8, 32] and the
    constructor returns an engine for both. *)
Lemma DES_init_out_of_range_rounds :
  (exists e, DES_init Samples.key 64 3 64 None = Ok e
             /\ length (subkeys e) = 3%nat)
  /\ (exists e, DES_init Samples.key 64 33 64 None = Ok e
                /\ length (subkeys e) = 33%nat)
  /\ ~ (exists err, DES_init Samples.key 64 3 64 None = Raise err).
Proof.
  split; [|split].
  - eexists. split; [vm_compute; reflexivity|reflexivity].
  - eexists. split; [vm_compute; reflexivity|reflexivity].
  - intros [err H]. vm_compute in H. discriminate H.
Qed.

(** ** Padding *)

Lemma concat_repeat_singleton {A : Type} (b : A) (n : nat) :
  concat (repeat [b] n) = repeat b n.
Proof. induction n as [|n IH]; simpl; [reflexivity|]. rewrite IH. reflexivity. Qed.

Lemma last_app_repeat {A : Type} (l : list A) (b d : A) (n : nat) :
  (1 <= n)%nat -> last (l ++ repeat b n) d = b.
Proof.
  intros Hn. destruct n as [|n]; [lia|].
  cbn [repeat]. rewrite repeat_cons, app_assoc. apply last_last.
Qed.

Lemma byte_of_small (n : Z) : (0 <= n <= 255)%Z ->
  exists b, bytes_of_ints [n] = Ok [b] /\ byte_int b = n.
Proof.
  intros Hn. unfold bytes_of_ints. cbn [mapM].
  destruct (Z.ltb_spec n 0); [lia|].
  destruct (Byte.of_N (Z.to_N n)) as [b|] eqn:E.
  - exists b. split; [reflexivity|]. apply Byte.to_of_N in E.
    unfold byte_int. rewrite E. lia.
  - apply Byte.of_N_None_iff in E. lia.
Qed.

(** [pad] with the block size of the engine. *)
Lemma pad_8 (D : bytes) :
  exists (n : Z) (b : byte),
    n = (8 - Z.of_nat (length D) mod 8)%Z /\ (1 <= n <= 8)%Z
    /\ byte_int b = n
    /\ pad D 8 = Ok (D ++ repeat b (Z.to_nat n)).
Proof.
  set (n := (8 - Z.of_nat (length D) mod 8)%Z).
  assert (Hn : (1 <= n <= 8)%Z)
    by (unfold n; pose proof (Z.mod_pos_bound (Z.of_nat (length D)) 8); lia).
  destruct (byte_of_small n) as [b [Eb Hb]]; [lia|].
  exists n, b. split; [reflexivity|]. split; [exact Hn|]. split; [exact Hb|].
  unfold pad. cbv zeta. fold n.
  change (8 =? 0)%Z with false. cbv iota.
  destruct (Z.eqb_spec n 0); [lia|].
  rewrite Eb. cbn [bind]. do 2 f_equal. apply concat_repeat_singleton.
Qed.

Lemma unpad_strips (data : bytes) :
  data <> [] ->
  (1 <= byte_int (last data x00) <= 8)%Z ->
  (byte_int (last data x00) <= Z.of_nat (length data))%Z ->
  unpad data 8
  = firstn (length data - Z.to_nat (byte_int (last data x00))) data.
Proof.
  intros Hd H1 H2. unfold unpad. destruct data as [|x data]; [congruence|].
  set (n := byte_int (last (x :: data) x00)) in *.
  destruct (Z.ltb_spec n 1); [lia|].
  destruct (Z.ltb_spec 8 n); [lia|].
  destruct (Z.ltb_spec (Z.of_nat (length (x :: data))) n); [lia|].
  reflexivity.
Qed.

Lemma unpad_lenient (data : bytes) :
  (byte_int (last data x00) < 1)%Z \/ (8 < byte_int (last data x00))%Z
  \/ (Z.of_nat (length data) < byte_int (last data x00))%Z ->
  unpad data 8 = data.
Proof.
  intros H. unfold unpad. destruct data as [|x data]; [reflexivity|].
  set (n := byte_int (last (x :: data) x00)) in *.
  destruct (Z.ltb_spec n 1); [reflexivity|].
  destruct (Z.ltb_spec 8 n); [reflexivity|].
  destruct (Z.ltb_spec (Z.of_nat (length (x :: data))) n); [reflexivity|].
  lia.
Qed.

(** What [pad] returns, with its length and its [unpad]. *)
Lemma pad_8_unpad (D : bytes) :
  exists (n : Z) (b : byte) (padded : bytes),
    n = (8 - Z.of_nat (length D) mod 8)%Z
    /\ (1 <= n <= 8)%Z
    /\ byte_int b = n
    /\ pad D 8 = Ok padded
    /\ padded = D ++ repeat b (Z.to_nat n)
    /\ length padded = (length D + Z.to_nat n)%nat
    /\ (length padded mod 8 = 0)%nat
    /\ unpad padded 8 = D.
Proof.
  destruct (pad_8 D) as [n [b [En [Hn [Hb E]]]]].
  exists n, b, (D ++ repeat b (Z.to_nat n)).
  assert (Hlast : last (D ++ repeat b (Z.to_nat n)) x00 = b)
    by (apply last_app_repeat; lia).
  assert (Hlen : length (D ++ repeat b (Z.to_nat n))
                 = (length D + Z.to_nat n)%nat)
    by (rewrite length_app, repeat_length; reflexivity).
  repeat split; try assumption; try lia.
  - rewrite Hlen.
    assert (Hz : ((Z.of_nat (length D) + n) mod 8 = 0)%Z).
    { rewrite En.
      replace (Z.of_nat (length D) + (8 - Z.of_nat (length D) mod 8))%Z
        with (Z.of_nat (length D) - Z.of_nat (length D) mod 8 + 1 * 8)%Z by lia.
      rewrite Z.mod_add by lia.
      rewrite Zminus_mod, Zmod_mod, Z.sub_diag. reflexivity. }
    apply Nat2Z.inj. rewrite Nat2Z.inj_mod, Nat2Z.inj_add, Z2Nat.id by lia.
    exact Hz.
  - rewrite unpad_strips.
    + rewrite Hlast, Hb, Hlen, Nat.add_sub, firstn_app, Nat.sub_diag,
        firstn_all. simpl. apply app_nil_r.
    + destruct (Z.to_nat n) eqn:Hz; [lia|]. destruct D; discriminate.
    + rewrite Hlast, Hb. exact Hn.
    + rewrite Hlast, Hb, Hlen. lia.
Qed.

(** C7: [pad D] appends [n] bytes of value [n], [n = 8 - len D mod 8] (so 8
    when the remainder is 0), and its result is a strictly longer multiple of
    8; [unpad] drops as many bytes as the last byte says when that value is
    in [1, 8] and within the buffer, and returns its argument unchanged
    otherwise, without failing; hence [unpad (pad D) = D]. *)
Theorem pad_unpad_spec (D : bytes) :
  (exists (n : Z) (b : byte) (padded : bytes),
      n = (8 - Z.of_nat (length D) mod 8)%Z
      /\ (Z.of_nat (length D) mod 8 = 0 -> n = 8)%Z
      /\ byte_int b = n
      /\ pad D 8 = Ok padded
      /\ padded = D ++ repeat b (Z.to_nat n)
      /\ (length D < length padded)%nat
      /\ (length padded mod 8 = 0)%nat
      /\ unpad padded 8 = D)
  /\ (let n := byte_int (last D x00) in
      unpad D 8 =
      if ((1 <=? n) && (n <=? 8) && (n <=? Z.of_nat (length D)))%Z
      then firstn (length D - Z.to_nat n) D
      else D).
Proof.
  split.
  - destruct (pad_8_unpad D)
      as [n [b [padded [En [Hn [Hb [E [Ep [Hl [Hm Hu]]]]]]]]]].
    exists n, b, padded.
    repeat split; try assumption; lia.
  - cbv zeta. set (n := byte_int (last D x00)).
    destruct (Z.leb_spec 1 n); cbn [andb].
    + destruct (Z.leb_spec n 8); cbn [andb].
      * destruct (Z.leb_spec n (Z.of_nat (length D))).
        -- apply unpad_strips; try (fold n; lia).
           intros ->. simpl in *. lia.
        -- apply unpad_lenient. fold n. lia.
      * apply unpad_lenient. fold n. lia.
    + apply unpad_lenient. fold n. lia.
Qed.

(** ** Blocks, XOR and counters *)

Lemma bytes_of_ints_ok (l : list Z) :
  Forall (fun z => (0 <= z <= 255)%Z) l ->
  exists bs, bytes_of_ints l = Ok bs /\ length bs = length l
             /\ map byte_int bs = l.
Proof.
  induction l as [|z l IH]; intros H.
  - exists []. repeat split.
  - inversion H as [|? ? Hz Hl]; subst.
    destruct (IH Hl) as [bs [E [Hlen Hmap]]].
    destruct (byte_of_small z Hz) as [b [Eb Hb]].
    exists (b :: bs). unfold bytes_of_ints in *. cbn [mapM] in *.
    destruct (z <? 0)%Z; [discriminate Eb|].
    destruct (Byte.of_N (Z.to_N z)); [|discriminate Eb].
    cbn [bind] in Eb. injection Eb as ->.
    cbn [bind]. rewrite E. cbn [bind].
    split; [reflexivity|].
    split; cbn [map length]; [rewrite Hlen|rewrite Hb, Hmap]; reflexivity.
Qed.

Lemma byte_int_range (b : byte) : (0 <= byte_int b <= 255)%Z.
Proof. unfold byte_int. pose proof (Byte.to_N_bounded b). lia. Qed.

Lemma byte_lxor_range (a b : byte) :
  (0 <= Z.lxor (byte_int a) (byte_int b) <= 255)%Z.
Proof.
  unfold byte_int. rewrite <- N2Z.inj_lxor.
  assert (H : (N.lxor (Byte.to_N a) (Byte.to_N b) < 2 ^ 8)%N).
  { apply lxor_lt.
    - pose proof (Byte.to_N_bounded a). simpl. lia.
    - pose proof (Byte.to_N_bounded b). simpl. lia. }
  simpl in H. lia.
Qed.

(** [xor_bytes] never raises; it cuts to the shorter argument. *)
Lemma xor_bytes_ok (a b : bytes) :
  exists c, xor_bytes a b = Ok c
            /\ length c = Nat.min (length a) (length b)
            /\ map byte_int c
               = map (fun pc => Z.lxor (byte_int (fst pc)) (byte_int (snd pc)))
                     (combine a b).
Proof.
  unfold xor_bytes.
  destruct (bytes_of_ints_ok
              (map (fun pc => Z.lxor (byte_int (fst pc)) (byte_int (snd pc)))
                   (combine a b))) as [c [E [Hl Hm]]].
  - apply Forall_forall. intros z Hz. apply in_map_iff in Hz.
    destruct Hz as [[p q] [<- _]]. apply byte_lxor_range.
  - exists c. split; [exact E|]. split; [|exact Hm].
    rewrite Hl, length_map, length_combine. reflexivity.
Qed.

Lemma byte_int_inj (a b : byte) : byte_int a = byte_int b -> a = b.
Proof.
  unfold byte_int. intros H. apply N2Z.inj in H.
  pose proof (Byte.of_to_N a) as Ha. rewrite H, Byte.of_to_N in Ha.
  congruence.
Qed.

Lemma map_byte_int_inj (a b : bytes) : map byte_int a = map byte_int b -> a = b.
Proof.
  revert b. induction a as [|x a IH]; intros [|y b] H; try discriminate H.
  - reflexivity.
  - simpl in H. injection H as H1 H2. f_equal; [apply byte_int_inj|apply IH]; assumption.
Qed.

(** XOR with the same pad twice gives back the data. *)
Lemma xor_bytes_cancel (a k c : bytes) :
  length a = length k -> xor_bytes a k = Ok c -> xor_bytes c k = Ok a.
Proof.
  intros Hlen E.
  destruct (xor_bytes_ok a k) as [c' [E' [Hl Hm]]].
  rewrite E in E'. injection E' as <-.
  destruct (xor_bytes_ok c k) as [d [Ed [Hld Hmd]]].
  rewrite Ed. f_equal. apply map_byte_int_inj. rewrite Hmd.
  clear E Ed Hl Hld Hmd d.
  revert k c Hlen Hm. induction a as [|x a IH]; intros [|y k] [|z c] Hlen Hm;
    try discriminate Hlen; try discriminate Hm; [reflexivity|].
  simpl in Hm. injection Hm as Hz Hm. simpl in Hlen. injection Hlen as Hlen.
  cbn [combine map fst snd]. rewrite Hz.
  rewrite Z.lxor_assoc, Z.lxor_nilpotent, Z.lxor_0_r.
  f_equal. apply IH; assumption.
Qed.

Lemma slices_blocks (k : nat) : forall data : bytes,
  length data = (8 * k)%nat ->
  Forall (fun b : bytes => length b = 8%nat) (slices 8 data)
  /\ length (slices 8 data) = k
  /\ concat (slices 8 data) = data.
Proof.
  induction k as [|k IH]; intros data H.
  - destruct data; [|simpl in H; lia]. repeat split. constructor.
  - rewrite <- (firstn_skipn 8 data).
    assert (Ha : length (firstn 8 data) = 8%nat) by (rewrite length_firstn; lia).
    assert (Hs : length (skipn 8 data) = (8 * k)%nat) by (rewrite length_skipn; lia).
    destruct (IH _ Hs) as [H1 [H2 H3]].
    rewrite slices_cons by (lia || assumption).
    split; [constructor; assumption|].
    split; [cbn [length]; rewrite H2; reflexivity|].
    cbn [concat]. rewrite H3. reflexivity.
Qed.

Lemma length_concat_blocks (l : list bytes) :
  Forall (fun b : bytes => length b = 8%nat) l ->
  length (concat l) = (8 * length l)%nat.
Proof.
  induction 1 as [|b l Hb Hl IH]; [reflexivity|].
  cbn [concat]. rewrite length_app, Hb, IH. simpl. lia.
Qed.

(** The padded input is a whole number of blocks: one more than [len / 8]. *)
Lemma pad_blocks (D : bytes) :
  exists padded, pad D 8 = Ok padded
    /\ length padded = (8 * (length D / 8 + 1))%nat
    /\ unpad padded 8 = D.
Proof.
  destruct (pad_8_unpad D)
    as [n [b [padded [En [_ [Hb [E [Ep [Hl [_ Hu]]]]]]]]]].
  exists padded. split; [exact E|]. split; [|exact Hu].
  rewrite Hl.
  pose proof (Nat.div_mod_eq (length D) 8) as Hd.
  assert (Hm : (Z.of_nat (length D) mod 8)%Z = Z.of_nat (length D mod 8))
    by (rewrite Nat2Z.inj_mod; reflexivity).
  pose proof (Nat.mod_upper_bound (length D) 8). lia.
Qed.

Lemma be_digits_range (len : nat) : forall n : Z,
  Forall (fun z => (0 <= z <= 255)%Z) (be_digits len n)
  /\ length (be_digits len n) = len.
Proof.
  induction len as [|len IH]; intros n; simpl.
  - split; [constructor|reflexivity].
  - destruct (IH (n / 256)%Z) as [H1 H2]. split.
    + apply Forall_app. split; [exact H1|].
      constructor; [|constructor].
      pose proof (Z.mod_pos_bound n 256). lia.
    + rewrite length_app, H2. simpl. lia.
Qed.

Lemma int_to_bytes_8 (n : Z) :
  (0 <= n < 2 ^ 64)%Z ->
  exists bs, int_to_bytes n 8 = Ok bs /\ length bs = 8%nat.
Proof.
  intros Hn. unfold int_to_bytes.
  change (8 <? 0)%Z with false. cbv iota.
  destruct (Z.ltb_spec n 0); [lia|].
  destruct (Z.leb_spec (256 ^ 8) n) as [H1|H1];
    [change (256 ^ 8)%Z with (2 ^ 64)%Z in H1; lia|].
  destruct (be_digits_range (Z.to_nat 8) n) as [Hr Hl].
  destruct (bytes_of_ints_ok _ Hr) as [bs [E [Hlen _]]].
  exists bs. split; [exact E|]. rewrite Hlen, Hl. reflexivity.
Qed.

Lemma int_to_bytes_overflow (n : Z) :
  (2 ^ 64 <= n)%Z -> int_to_bytes n 8 = Raise OverflowError.
Proof.
  intros Hn. unfold int_to_bytes.
  change (8 <? 0)%Z with false. cbv iota.
  destruct (Z.ltb_spec n 0); [lia|].
  destruct (Z.leb_spec (256 ^ 8) n) as [H1|H1];
    [reflexivity|change (256 ^ 8)%Z with (2 ^ 64)%Z in H1; lia].
Qed.

Lemma int_from_bytes_nonneg (b : bytes) : (0 <= int_from_bytes b)%Z.
Proof.
  unfold int_from_bytes.
  assert (H : forall acc, (0 <= acc)%Z ->
            (0 <= fold_left (fun a x => 256 * a + byte_int x) b acc)%Z).
  { induction b as [|x b IH]; intros acc Hacc; cbn [fold_left]; [assumption|].
    apply IH. pose proof (byte_int_range x). lia. }
  apply H. lia.
Qed.

(** ** CTR: the counter loop against the per-block computation *)

Lemma CTR_loop_direct (d : DES) (iv : bytes) (block_len : Z) :
  forall (blocks : list bytes) (acc : list bytes) (k : nat),
  foldM (CTR_step d block_len) blocks (acc, (int_from_bytes iv + Z.of_nat k)%Z)
  = (out <- mapM (fun ib => ks <- Spec.CTR_keystream d iv block_len (fst ib) ;;
                            xor_bytes (snd ib) ks)
                 (combine (seq k (length blocks)) blocks) ;;
     Ok (acc ++ out,
         (int_from_bytes iv + Z.of_nat k + Z.of_nat (length blocks))%Z)).
Proof.
  induction blocks as [|block blocks IH]; intros acc k.
  - cbn [length seq combine mapM foldM bind].
    rewrite app_nil_r, Z.add_0_r. reflexivity.
  - cbn [length seq combine mapM foldM fst snd].
    unfold CTR_step at 1. unfold Spec.CTR_keystream at 1.
    destruct (int_to_bytes (int_from_bytes iv + Z.of_nat k) block_len)
      as [cb|err]; [|reflexivity].
    cbn [bind].
    destruct (encrypt_block d cb) as [ob|err]; [|reflexivity].
    cbn [bind].
    destruct (xor_bytes block ob) as [cipher|err]; [|reflexivity].
    cbn [bind].
    replace (int_from_bytes iv + Z.of_nat k + 1)%Z
      with (int_from_bytes iv + Z.of_nat (S k))%Z by lia.
    rewrite IH.
    destruct (mapM _ (combine (seq (S k) (length blocks)) blocks))
      as [out|err]; [|reflexivity].
    cbn [bind]. rewrite <- app_assoc. cbn [app].
    do 2 f_equal. lia.
Qed.

(** C8: CTR encryption, which steps one counter through the blocks, returns
    what the per-block computation returns, where keystream block [i] is
    [encrypt_block] of the big-endian encoding of the IV's value plus [i] and
    is obtained without any earlier block; the two agree on every input, in
    the result and in the failure. *)
Theorem CTR_parallel_equivalence (self : Mode) (plaintext : bytes) :
  CTR_encrypt self plaintext = Spec.CTR_encrypt_direct self plaintext.
Proof.
  unfold CTR_encrypt, Spec.CTR_encrypt_direct.
  destruct (des self) as [d|]; [|reflexivity].
  destruct (require_iv self) as [iv|err]; [|reflexivity].
  cbn [bind].
  destruct (pad plaintext (block_size_bytes self)) as [padded|err]; [|reflexivity].
  cbn [bind].
  destruct (_get_blocks self padded) as [blocks|err]; [|reflexivity].
  cbn [bind].
  pose proof (CTR_loop_direct d iv (block_size_bytes self) blocks [] 0) as H.
  rewrite Z.add_0_r in H. rewrite H.
  destruct (mapM _ _) as [out|err]; reflexivity.
Qed.

(** ** Stream modes on a well-formed engine *)

Lemma require_iv_8 (c : kind) (d : option DES) (bs : Z) (v : bytes) :
  length v = 8%nat -> require_iv (mkMode c d bs (Some v)) = Ok v.
Proof. intros H. destruct v; [discriminate H|reflexivity]. Qed.

Lemma get_blocks_8 (c : kind) (d : option DES) (v : option bytes) (data : bytes) :
  _get_blocks (mkMode c d 8 v) data = Ok (slices 8 data).
Proof. reflexivity. Qed.

(** CTR encryption on an engine with an 8-byte IV, block by block. *)
Lemma CTR_encrypt_blocks (e : DES) (v data padded : bytes) :
  length v = 8%nat -> pad data 8 = Ok padded ->
  CTR_encrypt (mkMode CTR (Some e) 8 (Some v)) data =
  (out <- mapM (fun ib => ks <- Spec.CTR_keystream e v 8 (fst ib) ;;
                          xor_bytes (snd ib) ks)
               (combine (seq 0 (length (slices 8 padded))) (slices 8 padded)) ;;
   Ok (concat out)).
Proof.
  intros Hv Ep. unfold CTR_encrypt. cbn [des block_size_bytes].
  rewrite require_iv_8 by assumption. cbn [bind].
  rewrite Ep. cbn [bind]. rewrite get_blocks_8. cbn [bind].
  pose proof (CTR_loop_direct e v 8 (slices 8 padded) [] 0) as H.
  rewrite Z.add_0_r in H. rewrite H.
  destruct (mapM _ _) as [out|err]; reflexivity.
Qed.

Lemma OFB_loop_ok (d : DES) : Spec.well_formed d ->
  forall (blocks : list bytes) (acc : list bytes) (fb : bytes),
  Forall (fun b : bytes => length b = 8%nat) blocks -> length fb = 8%nat ->
  exists outs fb',
    foldM (OFB_step d) blocks (acc, fb) = Ok (acc ++ outs, fb')
    /\ Forall (fun b : bytes => length b = 8%nat) outs
    /\ length outs = length blocks.
Proof.
  intros Hd. induction blocks as [|block blocks IH]; intros acc fb Hb Hfb.
  - exists [], fb. cbn [foldM]. rewrite app_nil_r.
    repeat split. constructor.
  - inversion Hb as [|? ? Hblock Hblocks]; subst.
    destruct (encrypt_block_ok d fb Hd Hfb) as [ob [Eo Ho]].
    destruct (xor_bytes_ok block ob) as [cipher [Ec [Hc _]]].
    rewrite Hblock, Ho in Hc. simpl in Hc.
    destruct (IH (acc ++ [cipher]) ob Hblocks Ho) as [outs [fb' [E [H1 H2]]]].
    exists (cipher :: outs), fb'.
    cbn [foldM]. unfold OFB_step at 1. rewrite Eo. cbn [bind].
    rewrite Ec. cbn [bind]. rewrite E, <- app_assoc.
    split; [reflexivity|]. split; [constructor; assumption|].
    simpl. rewrite H2. reflexivity.
Qed.

Lemma CTR_blocks_ok (d : DES) (iv : bytes) : Spec.well_formed d ->
  forall (blocks : list bytes) (k : nat),
  Forall (fun b : bytes => length b = 8%nat) blocks ->
  (int_from_bytes iv + Z.of_nat k + Z.of_nat (length blocks) <= 2 ^ 64)%Z ->
  exists outs,
    mapM (fun ib => ks <- Spec.CTR_keystream d iv 8 (fst ib) ;;
                    xor_bytes (snd ib) ks)
         (combine (seq k (length blocks)) blocks) = Ok outs
    /\ Forall (fun b : bytes => length b = 8%nat) outs
    /\ length outs = length blocks.
Proof.
  intros Hd. induction blocks as [|block blocks IH]; intros k Hb Hk.
  - exists []. repeat split. constructor.
  - inversion Hb as [|? ? Hblock Hblocks]; subst.
    cbn [length] in Hk. pose proof (int_from_bytes_nonneg iv) as Hv.
    destruct (int_to_bytes_8 (int_from_bytes iv + Z.of_nat k)) as [cb [Ecb Hcb]];
      [lia|].
    destruct (encrypt_block_ok d cb Hd Hcb) as [ob [Eo Ho]].
    destruct (xor_bytes_ok block ob) as [cipher [Ec [Hc _]]].
    rewrite Hblock, Ho in Hc. simpl in Hc.
    destruct (IH (S k) Hblocks) as [outs [E [H1 H2]]]; [lia|].
    exists (cipher :: outs).
    cbn [length seq combine mapM fst snd].
    unfold Spec.CTR_keystream at 1. rewrite Ecb. cbn [bind].
    rewrite Eo. cbn [bind]. rewrite Ec. cbn [bind]. rewrite E. cbn [bind].
    split; [reflexivity|]. split; [constructor; assumption|].
    simpl. rewrite H2. reflexivity.
Qed.

(** The loop fails as soon as a counter no longer fits in eight bytes. *)
Lemma CTR_blocks_overflow (d : DES) (iv : bytes) : Spec.well_formed d ->
  forall (blocks : list bytes) (k : nat),
  Forall (fun b : bytes => length b = 8%nat) blocks ->
  blocks <> [] ->
  (2 ^ 64 <= int_from_bytes iv + Z.of_nat k + Z.of_nat (length blocks) - 1)%Z ->
  mapM (fun ib => ks <- Spec.CTR_keystream d iv 8 (fst ib) ;;
                  xor_bytes (snd ib) ks)
       (combine (seq k (length blocks)) blocks) = Raise OverflowError.
Proof.
  intros Hd. induction blocks as [|block blocks IH]; intros k Hb Hne Hk.
  - congruence.
  - inversion Hb as [|? ? Hblock Hblocks]; subst.
    cbn [length] in Hk. pose proof (int_from_bytes_nonneg iv) as Hv.
    cbn [length seq combine mapM fst snd].
    unfold Spec.CTR_keystream at 1.
    destruct (Z.le_gt_cases (2 ^ 64) (int_from_bytes iv + Z.of_nat k)) as [Ho|Ho].
    + rewrite int_to_bytes_overflow by assumption. reflexivity.
    + destruct (int_to_bytes_8 (int_from_bytes iv + Z.of_nat k))
        as [cb [Ecb Hcb]]; [lia|].
      destruct (encrypt_block_ok d cb Hd Hcb) as [ob [Eo Hob]].
      destruct (xor_bytes_ok block ob) as [cipher [Ec _]].
      rewrite Ecb. cbn [bind]. rewrite Eo. cbn [bind]. rewrite Ec. cbn [bind].
      rewrite IH; [reflexivity|assumption| |lia].
      intros ->. simpl in Hk. lia.
Qed.

Lemma new_mode_shape (key : bytes) (rounds kl : Z) (iv : option bytes) (c : kind) :
  exists e, DES_init key 64 rounds kl iv = Ok e
            /\ Spec.well_formed e
            /\ Mode_init c (Some e) = Ok (mkMode c (Some e) 8 iv).
Proof.
  destruct (DES_init_ok key 64 rounds kl iv) as [e [E [Hw [Hb [_ [Hi _]]]]]].
  exists e. split; [exact E|]. split; [exact Hw|].
  unfold Mode_init. rewrite Hb, Hi. reflexivity.
Qed.

(** OFB and CTR encryption of any input on a well-formed engine: one output
    block per block of the padded input. *)
Lemma stream_encrypt_ok (c : kind) (e : DES) (v : bytes) (X : bytes) :
  Spec.well_formed e -> length v = 8%nat -> c = OFB \/ c = CTR ->
  (c = CTR ->
   (int_from_bytes v + Z.of_nat (length X / 8 + 1) <= 2 ^ 64)%Z) ->
  exists out, Modes.encrypt (mkMode c (Some e) 8 (Some v)) X = Ok out
              /\ length out = (8 * (length X / 8 + 1))%nat.
Proof.
  intros He Hv Hc Hbound.
  destruct (pad_blocks X) as [padded [Ep [Hp _]]].
  destruct (slices_blocks _ padded Hp) as [Hs1 [Hs2 _]].
  unfold Modes.encrypt. cbn [cls].
  destruct Hc as [-> | ->].
  - unfold OFB_encrypt. cbn [des block_size_bytes].
    rewrite require_iv_8 by assumption. cbn [bind].
    rewrite Ep. cbn [bind]. rewrite get_blocks_8. cbn [bind].
    destruct (OFB_loop_ok e He (slices 8 padded) [] v Hs1 Hv)
      as [outs [fb' [E [H1 H2]]]].
    rewrite E. cbn [bind fst app].
    eexists. split; [reflexivity|].
    rewrite length_concat_blocks by assumption. rewrite H2, Hs2. reflexivity.
  - rewrite (CTR_encrypt_blocks e v X padded Hv Ep).
    destruct (CTR_blocks_ok e v He (slices 8 padded) 0 Hs1)
      as [outs [E [H1 H2]]].
    { rewrite Hs2. specialize (Hbound eq_refl). lia. }
    rewrite E. cbn [bind].
    eexists. split; [reflexivity|].
    rewrite length_concat_blocks by assumption. rewrite H2, Hs2. reflexivity.
Qed.

Lemma stream_decrypt_is_encrypt (m : Mode) (data : bytes) :
  cls m = OFB \/ cls m = CTR -> Modes.decrypt m data = Modes.encrypt m data.
Proof.
  intros H. unfold Modes.decrypt, Modes.encrypt.
  destruct H as [-> | ->]; reflexivity.
Qed.

(** C3 on the code: for OFB and CTR, [decrypt] is [encrypt].  Given a
    ciphertext of whole blocks it pads it like a plaintext and strips
    nothing, so what it returns is one block longer than what it was given. *)
Theorem stream_decrypt_pads_its_input (key : bytes) (rounds kl : Z)
  (v ciphertext : bytes) (c : kind) :
  length v = 8%nat -> c = OFB \/ c = CTR ->
  (length ciphertext mod 8 = 0)%nat ->
  (c = CTR ->
   (int_from_bytes v + Z.of_nat (length ciphertext / 8 + 1) <= 2 ^ 64)%Z) ->
  exists e m out,
    DES_init key 64 rounds kl (Some v) = Ok e
    /\ Mode_init c (Some e) = Ok m
    /\ Modes.decrypt m ciphertext = Modes.encrypt m ciphertext
    /\ Modes.decrypt m ciphertext = Ok out
    /\ length out = (length ciphertext + 8)%nat.
Proof.
  intros Hv Hc Hlen Hbound.
  destruct (new_mode_shape key rounds kl (Some v) c) as [e [E [He Em]]].
  destruct (stream_encrypt_ok c e v ciphertext He Hv Hc Hbound) as [out [Eo Ho]].
  exists e, (mkMode c (Some e) 8 (Some v)), out.
  split; [exact E|]. split; [exact Em|].
  rewrite stream_decrypt_is_encrypt by exact Hc.
  split; [reflexivity|]. split; [exact Eo|].
  rewrite Ho. pose proof (Nat.div_mod_eq (length ciphertext) 8). lia.
Qed.

Lemma stream_decrypt_pads_its_input_witness :
  exists e m out,
    DES_init Samples.key 64 16 64 (Some Samples.iv) = Ok e
    /\ Mode_init CTR (Some e) = Ok m
    /\ Modes.decrypt m Samples.msg = Modes.encrypt m Samples.msg
    /\ Modes.decrypt m Samples.msg = Ok out
    /\ length out = (length Samples.msg + 8)%nat.
Proof.
  apply (stream_decrypt_pads_its_input Samples.key 16 64 Samples.iv
           Samples.msg CTR).
  - reflexivity.
  - right. reflexivity.
  - reflexivity.
  - intros _. vm_compute. discriminate.
Defined.

(** C1 on the code: in OFB and in CTR, decrypting the encryption of [P] does
    not return [P].  The ciphertext is the padded length of [P]; [decrypt]
    pads it once more and removes nothing, so the result is a block longer
    than the ciphertext and cannot be [P]. *)
Theorem stream_roundtrip_fails (key : bytes) (rounds kl : Z) (v P : bytes)
  (c : kind) :
  length v = 8%nat -> c = OFB \/ c = CTR ->
  (c = CTR -> (int_from_bytes v + Z.of_nat (length P / 8 + 2) <= 2 ^ 64)%Z) ->
  exists e m ct out,
    DES_init key 64 rounds kl (Some v) = Ok e
    /\ Mode_init c (Some e) = Ok m
    /\ Modes.encrypt m P = Ok ct
    /\ Modes.decrypt m ct = Ok out
    /\ length out = (length ct + 8)%nat
    /\ (length P < length ct)%nat
    /\ out <> P.
Proof.
  intros Hv Hc Hbound.
  destruct (new_mode_shape key rounds kl (Some v) c) as [e [E [He Em]]].
  destruct (stream_encrypt_ok c e v P He Hv Hc) as [ct [Ect Hct]].
  { intros Hctr. specialize (Hbound Hctr). lia. }
  assert (Hdiv : (length ct / 8 = length P / 8 + 1)%nat).
  { rewrite Hct, Nat.mul_comm, Nat.div_mul by lia. reflexivity. }
  destruct (stream_encrypt_ok c e v ct He Hv Hc) as [out [Eo Ho]].
  { intros Hctr. specialize (Hbound Hctr). rewrite Hdiv. lia. }
  exists e, (mkMode c (Some e) 8 (Some v)), ct, out.
  pose proof (Nat.div_mod_eq (length P) 8) as Hd.
  pose proof (Nat.mod_upper_bound (length P) 8) as Hm.
  split; [exact E|]. split; [exact Em|]. split; [exact Ect|].
  rewrite stream_decrypt_is_encrypt by exact Hc.
  split; [exact Eo|]. split; [rewrite Ho, Hdiv, Hct; lia|].
  split; [rewrite Hct; lia|].
  intros ->. rewrite Hdiv in Ho. lia.
Qed.

Lemma stream_roundtrip_fails_witness :
  exists e m ct out,
    DES_init Samples.key 64 16 64 (Some Samples.iv) = Ok e
    /\ Mode_init OFB (Some e) = Ok m
    /\ Modes.encrypt m Samples.msg = Ok ct
    /\ Modes.decrypt m ct = Ok out
    /\ length out = (length ct + 8)%nat
    /\ (length Samples.msg < length ct)%nat
    /\ out <> Samples.msg.
Proof.
  apply (stream_roundtrip_fails Samples.key 16 64 Samples.iv Samples.msg OFB).
  - reflexivity.
  - left. reflexivity.
  - intros H. discriminate H.
Defined.

(** C10: in CTR mode over an 8-byte IV of value [v], if [v + k] reaches
    [2 ^ 64] for the index [k] of some block of the padded input, the call
    raises [OverflowError]: the counter is encoded into eight bytes as it
    is, without wrapping.  [decrypt], being [encrypt], raises the same. *)
Theorem CTR_counter_overflow (key : bytes) (rounds kl : Z) (v data : bytes)
  (k : nat) :
  length v = 8%nat ->
  (k < length data / 8 + 1)%nat ->
  (2 ^ 64 <= int_from_bytes v + Z.of_nat k)%Z ->
  exists e m padded blocks,
    DES_init key 64 rounds kl (Some v) = Ok e
    /\ Mode_init CTR (Some e) = Ok m
    /\ pad data (block_size_bytes m) = Ok padded
    /\ _get_blocks m padded = Ok blocks
    /\ length blocks = (length data / 8 + 1)%nat
    /\ Modes.encrypt m data = Raise OverflowError
    /\ Modes.decrypt m data = Raise OverflowError.
Proof.
  intros Hv Hk Ho.
  destruct (new_mode_shape key rounds kl (Some v) CTR) as [e [E [He Em]]].
  destruct (pad_blocks data) as [padded [Ep [Hp _]]].
  destruct (slices_blocks _ padded Hp) as [Hs1 [Hs2 _]].
  exists e, (mkMode CTR (Some e) 8 (Some v)), padded, (slices 8 padded).
  split; [exact E|]. split; [exact Em|]. split; [exact Ep|].
  split; [reflexivity|]. split; [exact Hs2|].
  assert (Henc : Modes.encrypt (mkMode CTR (Some e) 8 (Some v)) data
                 = Raise OverflowError).
  { unfold Modes.encrypt. cbn [cls].
    rewrite (CTR_encrypt_blocks e v data padded Hv Ep).
    rewrite (CTR_blocks_overflow e v He (slices 8 padded) 0 Hs1).
    - reflexivity.
    - intros Hnil. rewrite Hnil in Hs2. simpl in Hs2. lia.
    - rewrite Hs2. lia. }
  split; [exact Henc|].
  rewrite stream_decrypt_is_encrypt by (right; reflexivity). exact Henc.
Qed.

Lemma CTR_counter_overflow_witness :
  exists e m padded blocks,
    DES_init Samples.key 64 16 64 (Some Samples.iv_max) = Ok e
    /\ Mode_init CTR (Some e) = Ok m
    /\ pad Samples.msg (block_size_bytes m) = Ok padded
    /\ _get_blocks m padded = Ok blocks
    /\ length blocks = (length Samples.msg / 8 + 1)%nat
    /\ Modes.encrypt m Samples.msg = Raise OverflowError
    /\ Modes.decrypt m Samples.msg = Raise OverflowError.
Proof.
  apply (CTR_counter_overflow Samples.key 16 64 Samples.iv_max Samples.msg 1).
  - reflexivity.
  - vm_compute. lia.
  - vm_compute. discriminate.
Defined.

(** ** A mode without an IV *)

(** C5 as the code has it: constructing a mode never fails, in any of the
    five classes, with or without an IV (and with or without an engine).  A
    CBC, CFB, OFB or CTR instance whose IV is missing ([None] or empty)
    raises [ValueError] later, from every [encrypt] and [decrypt] call. *)
Theorem missing_iv_raises_at_use (key : bytes) (bs rounds kl : Z)
  (v : option bytes) (c : kind) (data : bytes) :
  (forall d : option DES, exists m, Mode_init c d = Ok m)
  /\ exists e m,
       DES_init key bs rounds kl v = Ok e
       /\ Mode_init c (Some e) = Ok m
       /\ Modes.iv m = v
       /\ (c <> ECB -> v = None \/ v = Some [] ->
           Modes.encrypt m data = Raise ValueError
           /\ Modes.decrypt m data = Raise ValueError).
Proof.
  split.
  { intros [d|]; eexists; reflexivity. }
  destruct (DES_init_ok key bs rounds kl v) as [e [E [_ [_ [_ [Hi _]]]]]].
  exists e, (mkMode c (Some e) (DesCore.block_size e / 8) v).
  split; [exact E|]. split; [unfold Mode_init; rewrite Hi; reflexivity|].
  split; [reflexivity|].
  intros Hc Hv.
  unfold Modes.encrypt, Modes.decrypt. cbn [cls].
  destruct c; try congruence;
    unfold CBC_encrypt, CBC_decrypt, CFB_encrypt, CFB_decrypt,
      OFB_decrypt, OFB_encrypt, CTR_decrypt, CTR_encrypt;
    cbn [des]; unfold require_iv; cbn [Modes.iv];
    destruct Hv as [-> | ->]; split; reflexivity.
Qed.

Lemma missing_iv_raises_at_use_witness :
  (forall d : option DES, exists m, Mode_init CBC d = Ok m)
  /\ exists e m,
       DES_init Samples.key 64 16 64 None = Ok e
       /\ Mode_init CBC (Some e) = Ok m
       /\ Modes.iv m = None
       /\ Modes.encrypt m Samples.msg = Raise ValueError
       /\ Modes.decrypt m Samples.msg = Raise ValueError.
Proof.
  destruct (missing_iv_raises_at_use Samples.key 64 16 64 None CBC Samples.msg)
    as [Hc [e [m [E [Em [Hi H]]]]]].
  split; [exact Hc|].
  exists e, m. split; [exact E|]. split; [exact Em|]. split; [exact Hi|].
  apply H.
  - discriminate.
  - left. reflexivity.
Defined.

(** C5 fails as stated: a CBC mode over an engine without IV is constructed
    without error; the failure only comes with the first [encrypt]. *)
Lemma mode_without_iv_is_constructed :
  exists m, Samples.new_mode CBC 16 None = Ok m
            /\ Modes.iv m = None
            /\ Modes.encrypt m Samples.msg = Raise ValueError.
Proof.
  eexists. split; [vm_compute; reflexivity|]. split; reflexivity.
Qed.

(** ** The engine's own [encrypt] and [decrypt] *)

Lemma b2a_a2b (i : N) : (i < 64)%N ->
  Base64.a2b (Base64.b2a i) = Some i
  /\ Byte.eqb (Base64.b2a i) Base64.PAD = false.
Proof.
  intros Hi.
  assert (H : forall n : nat, (n < 64)%nat ->
            Base64.a2b (Base64.b2a (N.of_nat n)) = Some (N.of_nat n)
            /\ Byte.eqb (Base64.b2a (N.of_nat n)) Base64.PAD = false).
  { intros n Hn.
    do 64 (destruct n as [|n]; [split; reflexivity|]). lia. }
  rewrite <- (N2Nat.id i). apply H. lia.
Qed.

(** One decoder step on a character of the alphabet. *)
Lemma a2b_loop_sextet (i : N) (data : bytes) (q l p : N) (out : bytes) :
  (i < 64)%N ->
  Base64.a2b_loop (Base64.b2a i :: data) q l p out =
  match q with
  | 0%N => Base64.a2b_loop data 1 i 0 out
  | 1%N => Base64.a2b_loop data 2 (i mod 16) 0
             (out ++ [Base64.octet (l * 4 + i / 16)])
  | 2%N => Base64.a2b_loop data 3 (i mod 4) 0
             (out ++ [Base64.octet (l * 16 + i / 4)])
  | _ => Base64.a2b_loop data 0 0 0 (out ++ [Base64.octet (l * 64 + i)])
  end.
Proof.
  intros Hi. destruct (b2a_a2b i Hi) as [E1 E2].
  cbn [Base64.a2b_loop]. rewrite E2, E1. reflexivity.
Qed.

Lemma octet_to_N (n : N) (b : byte) : n = Byte.to_N b -> Base64.octet n = b.
Proof.
  intros ->. unfold Base64.octet.
  pose proof (Byte.to_N_bounded b).
  rewrite N.mod_small by lia. rewrite Byte.of_to_N. reflexivity.
Qed.

Lemma sextets_of_octets (a b c : N) :
  (a <= 255 -> b <= 255 -> c <= 255 ->
   a / 4 < 64 /\ a mod 4 * 16 + b / 16 < 64
   /\ b mod 16 * 4 + c / 64 < 64 /\ c mod 64 < 64
   /\ a mod 4 * 16 < 64 /\ b mod 16 * 4 < 64
   /\ a / 4 * 4 + (a mod 4 * 16 + b / 16) / 16 = a
   /\ (a mod 4 * 16 + b / 16) mod 16 * 16 + (b mod 16 * 4 + c / 64) / 4 = b
   /\ (b mod 16 * 4 + c / 64) mod 4 * 64 + c mod 64 = c
   /\ a / 4 * 4 + (a mod 4 * 16) / 16 = a
   /\ (a mod 4 * 16 + b / 16) mod 16 * 16 + (b mod 16 * 4) / 4 = b)%N.
Proof.
  intros Ha Hb Hc.
  repeat split; zify; Z.to_euclidean_division_equations; lia.
Qed.

(** Decoding an encoding appends the encoded bytes to the output. *)
Lemma a2b_loop_b64encode (n : nat) : forall (s out : bytes),
  (length s <= n)%nat ->
  Base64.a2b_loop (Base64.b64encode s) 0 0 0 out = Ok (out ++ s).
Proof.
  induction n as [|n IH]; intros s out Hs.
  - destruct s; [|simpl in Hs; lia]. simpl. rewrite app_nil_r. reflexivity.
  - destruct s as [|a [|b [|c rest]]].
    + simpl. rewrite app_nil_r. reflexivity.
    + pose proof (Byte.to_N_bounded a) as Ha.
      destruct (sextets_of_octets (Byte.to_N a) 0 0 Ha)
        as [H1 [_ [_ [_ [H5 [_ [_ [_ [_ [H10 _]]]]]]]]]]; try lia.
      cbn [Base64.b64encode].
      rewrite !a2b_loop_sextet by assumption.
      rewrite (octet_to_N _ a H10). reflexivity.
    + pose proof (Byte.to_N_bounded a) as Ha.
      pose proof (Byte.to_N_bounded b) as Hb.
      destruct (sextets_of_octets (Byte.to_N a) (Byte.to_N b) 0 Ha Hb)
        as [H1 [H2 [_ [_ [_ [H6 [H7 [_ [_ [_ H11]]]]]]]]]]; try lia.
      cbn [Base64.b64encode].
      rewrite !a2b_loop_sextet by assumption.
      rewrite (octet_to_N _ a H7), (octet_to_N _ b H11).
      rewrite <- app_assoc. reflexivity.
    + pose proof (Byte.to_N_bounded a) as Ha.
      pose proof (Byte.to_N_bounded b) as Hb.
      pose proof (Byte.to_N_bounded c) as Hc.
      destruct (sextets_of_octets (Byte.to_N a) (Byte.to_N b) (Byte.to_N c)
                  Ha Hb Hc)
        as [H1 [H2 [H3 [H4 [_ [_ [H7 [H8 [H9 _]]]]]]]]].
      cbn [Base64.b64encode app].
      rewrite !a2b_loop_sextet by assumption.
      rewrite (octet_to_N _ a H7), (octet_to_N _ b H8), (octet_to_N _ c H9).
      rewrite IH by (simpl in Hs; lia).
      rewrite <- !app_assoc. reflexivity.
Qed.

Lemma b64decode_b64encode (s : bytes) :
  Base64.b64decode (Base64.b64encode s) = Ok s.
Proof.
  unfold Base64.b64decode.
  rewrite (a2b_loop_b64encode (length s)) by lia. reflexivity.
Qed.

(** C9: the engine's [encrypt] is the base64 encoding of the reversed input
    and [decrypt] undoes it; neither reads the key, the subkeys or the round
    count, so any two engines agree on every input. *)
Theorem engine_encrypt_ignores_key (e1 e2 : DES) (P : bytes) :
  DesCore.encrypt e1 P = Base64.b64encode (rev P)
  /\ DesCore.decrypt e1 (DesCore.encrypt e1 P) = Ok P
  /\ DesCore.encrypt e1 P = DesCore.encrypt e2 P
  /\ DesCore.decrypt e1 P = DesCore.decrypt e2 P.
Proof.
  split; [reflexivity|]. split; [|split; reflexivity].
  unfold DesCore.decrypt, DesCore.encrypt.
  rewrite b64decode_b64encode. cbn [bind]. rewrite rev_involutive. reflexivity.
Qed.

(** ** The block modes that do unpad: ECB, CBC and CFB *)

Lemma slices_concat (l : list bytes) :
  Forall (fun b : bytes => length b = 8%nat) l -> slices 8 (concat l) = l.
Proof.
  induction 1 as [|b l Hb Hl IH]; [reflexivity|].
  cbn [concat]. rewrite slices_cons by (lia || assumption).
  rewrite IH. reflexivity.
Qed.

Lemma ECB_blocks_roundtrip (d : DES) : Spec.well_formed d ->
  forall blocks : list bytes,
  Forall (fun b : bytes => length b = 8%nat) blocks ->
  exists cs, mapM (encrypt_block d) blocks = Ok cs
             /\ Forall (fun b : bytes => length b = 8%nat) cs
             /\ mapM (decrypt_block d) cs = Ok blocks.
Proof.
  intros Hd. induction 1 as [|b blocks Hb Hblocks [cs [E [H1 H2]]]].
  - exists []. repeat split. constructor.
  - destruct (block_roundtrip d b Hd Hb) as [c [_ [_ [Ec [Hc [Dc _]]]]]].
    exists (c :: cs). cbn [mapM]. rewrite Ec, E, Dc, H2. cbn [bind].
    repeat split. constructor; assumption.
Qed.

Lemma CBC_blocks_roundtrip (d : DES) : Spec.well_formed d ->
  forall (blocks acc : list bytes) (prev : bytes),
  Forall (fun b : bytes => length b = 8%nat) blocks -> length prev = 8%nat ->
  exists cs last,
    foldM (CBC_encrypt_step d) blocks (acc, prev) = Ok (acc ++ cs, last)
    /\ Forall (fun b : bytes => length b = 8%nat) cs
    /\ forall acc', exists last',
         foldM (CBC_decrypt_step d) cs (acc', prev) = Ok (acc' ++ blocks, last').
Proof.
  intros Hd. induction blocks as [|b blocks IH]; intros acc prev Hb Hprev.
  - exists [], prev. cbn [foldM]. rewrite app_nil_r. repeat split; [constructor|].
    intros acc'. exists prev. rewrite app_nil_r. reflexivity.
  - inversion Hb as [|? ? Hblock Hblocks]; subst.
    destruct (xor_bytes_ok b prev) as [x [Ex [Hx _]]].
    rewrite Hblock, Hprev in Hx. simpl in Hx.
    destruct (block_roundtrip d x Hd Hx) as [c [_ [_ [Ec [Hc [Dc _]]]]]].
    destruct (IH (acc ++ [c]) c Hblocks Hc) as [cs [last [E [H1 H2]]]].
    exists (c :: cs), last. cbn [foldM]. unfold CBC_encrypt_step at 1.
    rewrite Ex. cbn [bind]. rewrite Ec. cbn [bind]. rewrite E, <- app_assoc.
    split; [reflexivity|]. split; [constructor; assumption|].
    intros acc'. destruct (H2 (acc' ++ [b])) as [last' E'].
    exists last'. cbn [foldM]. unfold CBC_decrypt_step at 1.
    rewrite Dc. cbn [bind].
    rewrite (xor_bytes_cancel b prev x) by (congruence || assumption).
    cbn [bind]. rewrite E', <- app_assoc. reflexivity.
Qed.

Lemma CFB_blocks_roundtrip (d : DES) : Spec.well_formed d ->
  forall (blocks acc : list bytes) (prev : bytes),
  Forall (fun b : bytes => length b = 8%nat) blocks -> length prev = 8%nat ->
  exists cs last,
    foldM (CFB_encrypt_step d) blocks (acc, prev) = Ok (acc ++ cs, last)
    /\ Forall (fun b : bytes => length b = 8%nat) cs
    /\ forall acc', exists last',
         foldM (CFB_decrypt_step d) cs (acc', prev) = Ok (acc' ++ blocks, last').
Proof.
  intros Hd. induction blocks as [|b blocks IH]; intros acc prev Hb Hprev.
  - exists [], prev. cbn [foldM]. rewrite app_nil_r. repeat split; [constructor|].
    intros acc'. exists prev. rewrite app_nil_r. reflexivity.
  - inversion Hb as [|? ? Hblock Hblocks]; subst.
    destruct (encrypt_block_ok d prev Hd Hprev) as [ks [Ek Hk]].
    destruct (xor_bytes_ok b ks) as [c [Ec [Hc _]]].
    rewrite Hblock, Hk in Hc. simpl in Hc.
    destruct (IH (acc ++ [c]) c Hblocks Hc) as [cs [last [E [H1 H2]]]].
    exists (c :: cs), last. cbn [foldM]. unfold CFB_encrypt_step at 1.
    rewrite Ek. cbn [bind]. rewrite Ec. cbn [bind]. rewrite E, <- app_assoc.
    split; [reflexivity|]. split; [constructor; assumption|].
    intros acc'. destruct (H2 (acc' ++ [b])) as [last' E'].
    exists last'. cbn [foldM]. unfold CFB_decrypt_step at 1.
    rewrite Ek. cbn [bind].
    rewrite (xor_bytes_cancel b ks c) by (congruence || assumption).
    cbn [bind]. rewrite E', <- app_assoc. reflexivity.
Qed.

(** ECB, CBC and CFB do what OFB and CTR miss: their [decrypt] unpads, and
    decrypting an encryption returns the plaintext. *)
Lemma block_modes_roundtrip (key : bytes) (rounds kl : Z) (v P : bytes)
  (c : kind) :
  length v = 8%nat -> c = ECB \/ c = CBC \/ c = CFB ->
  exists e m ct,
    DES_init key 64 rounds kl (Some v) = Ok e
    /\ Mode_init c (Some e) = Ok m
    /\ Modes.encrypt m P = Ok ct
    /\ Modes.decrypt m ct = Ok P.
Proof.
  intros Hv Hc.
  destruct (new_mode_shape key rounds kl (Some v) c) as [e [E [He Em]]].
  destruct (pad_blocks P) as [padded [Ep [Hp Hu]]].
  destruct (slices_blocks _ padded Hp) as [Hs1 [Hs2 Hs3]].
  exists e, (mkMode c (Some e) 8 (Some v)).
  unfold Modes.encrypt, Modes.decrypt. cbn [cls].
  destruct Hc as [-> | [-> | ->]].
  - destruct (ECB_blocks_roundtrip e He _ Hs1) as [cs [E1 [H1 E2]]].
    exists (concat cs). split; [exact E|]. split; [exact Em|].
    unfold ECB_encrypt, ECB_decrypt. cbn [des block_size_bytes].
    rewrite Ep. cbn [bind]. rewrite !get_blocks_8. cbn [bind].
    rewrite E1. cbn [bind]. split; [reflexivity|].
    rewrite slices_concat by assumption. rewrite E2. cbn [bind].
    rewrite Hs3, Hu. reflexivity.
  - destruct (CBC_blocks_roundtrip e He _ [] v Hs1 Hv) as [cs [last [E1 [H1 E2]]]].
    destruct (E2 []) as [last' E3].
    exists (concat cs). split; [exact E|]. split; [exact Em|].
    unfold CBC_encrypt, CBC_decrypt. cbn [des block_size_bytes].
    rewrite !require_iv_8 by assumption. cbn [bind].
    rewrite Ep. cbn [bind]. rewrite !get_blocks_8. cbn [bind].
    rewrite E1. cbn [bind fst app]. split; [reflexivity|].
    rewrite slices_concat by assumption. rewrite E3. cbn [bind fst app].
    rewrite Hs3, Hu. reflexivity.
  - destruct (CFB_blocks_roundtrip e He _ [] v Hs1 Hv) as [cs [last [E1 [H1 E2]]]].
    destruct (E2 []) as [last' E3].
    exists (concat cs). split; [exact E|]. split; [exact Em|].
    unfold CFB_encrypt, CFB_decrypt. cbn [des block_size_bytes].
    rewrite !require_iv_8 by assumption. cbn [bind].
    rewrite Ep. cbn [bind]. rewrite !get_blocks_8. cbn [bind].
    rewrite E1. cbn [bind fst app]. split; [reflexivity|].
    rewrite slices_concat by assumption. rewrite E3. cbn [bind fst app].
    rewrite Hs3, Hu. reflexivity.
Qed.

(** The counter block of block 0 is the IV itself: [to_bytes] undoes
    [from_bytes] on eight bytes. *)
Lemma int_from_bytes_snoc (b : bytes) (x : byte) :
  int_from_bytes (b ++ [x]) = (256 * int_from_bytes b + byte_int x)%Z.
Proof. unfold int_from_bytes. rewrite fold_left_app. reflexivity. Qed.

Lemma be_digits_from_bytes (b : bytes) :
  be_digits (length b) (int_from_bytes b) = map byte_int b
  /\ (int_from_bytes b < 256 ^ Z.of_nat (length b))%Z.
Proof.
  induction b as [|x b [IH1 IH2]] using rev_ind.
  - split; reflexivity.
  - rewrite int_from_bytes_snoc, length_app, map_app. cbn [length map].
    rewrite Nat.add_1_r. cbn [be_digits].
    pose proof (byte_int_range x) as Hx.
    pose proof (int_from_bytes_nonneg b) as Hb.
    replace ((256 * int_from_bytes b + byte_int x) / 256)%Z
      with (int_from_bytes b)
      by (zify; Z.to_euclidean_division_equations; lia).
    replace ((256 * int_from_bytes b + byte_int x) mod 256)%Z
      with (byte_int x)
      by (zify; Z.to_euclidean_division_equations; lia).
    rewrite IH1. split; [reflexivity|].
    rewrite Nat2Z.inj_succ, Z.pow_succ_r by lia. lia.
Qed.

Lemma int_to_bytes_from_bytes (v : bytes) :
  length v = 8%nat -> int_to_bytes (int_from_bytes v) 8 = Ok v.
Proof.
  intros Hv. destruct (be_digits_from_bytes v) as [E Hlt].
  rewrite Hv in E, Hlt. unfold int_to_bytes.
  change (8 <? 0)%Z with false. cbv iota.
  pose proof (int_from_bytes_nonneg v).
  destruct (Z.ltb_spec (int_from_bytes v) 0); [lia|].
  change (Z.of_nat 8) with 8%Z in Hlt.
  destruct (Z.leb_spec (256 ^ 8) (int_from_bytes v)); [lia|].
  change (Z.to_nat 8) with 8%nat. rewrite E. apply bytes_of_ints_bytes.
Qed.

(** ** The failing inputs, evaluated *)

(** OFB on [b"HELLOALI"]: what [decrypt] returns for the ciphertext is the
    plaintext, its padding block, and eight more bytes. *)
Example OFB_roundtrip_sample :
  (m <- Samples.new_mode OFB 16 (Some Samples.iv) ;;
   ct <- Modes.encrypt m Samples.msg ;;
   Modes.decrypt m ct)
  = Ok (Samples.msg ++ [x08; x08; x08; x08; x08; x08; x08; x08]
          ++ [x76; xc0; x7b; x45; x7c; x3b; x49; x93]).
Proof. vm_compute. reflexivity. Qed.

(** CTR on the empty plaintext: the 8-byte ciphertext decrypts to 16 bytes
    that start with the padding block. *)
Example CTR_roundtrip_sample :
  (m <- Samples.new_mode CTR 16 (Some Samples.iv) ;;
   ct <- Modes.encrypt m [] ;;
   out <- Modes.decrypt m ct ;;
   Ok (length ct, firstn 8 out, length out))
  = Ok (8%nat, [x08; x08; x08; x08; x08; x08; x08; x08], 16%nat).
Proof. vm_compute. reflexivity. Qed.

(** CBC on [b"HELLOALI"] does come back. *)
Example CBC_roundtrip_sample :
  (m <- Samples.new_mode CBC 16 (Some Samples.iv) ;;
   ct <- Modes.encrypt m Samples.msg ;;
   Modes.decrypt m ct)
  = Ok Samples.msg.
Proof. vm_compute. reflexivity. Qed.

(** CTR with the largest seed fails on the second block. *)
Example CTR_overflow_sample :
  (m <- Samples.new_mode CTR 16 (Some Samples.iv_max) ;;
   Modes.encrypt m Samples.msg)
  = Raise OverflowError.
Proof. vm_compute. reflexivity. Qed.

(** * Further properties of the code *)

(** ** Bit strings and bytes *)

(** [bit_string_to_bytes] and [bytes_to_bit_string] are inverse to each
    other: bytes survive the trip through their bit string, and a bit string
    of whole octets survives the trip through its bytes. *)
Theorem bits_bytes_roundtrip (data : bytes) (s : bitstr) :
  (length s mod 8 = 0)%nat ->
  bit_string_to_bytes (bytes_to_bit_string data) = Ok data
  /\ length (bytes_to_bit_string data) = (8 * length data)%nat
  /\ exists c, bit_string_to_bytes s = Ok c
               /\ bytes_to_bit_string c = s
               /\ length c = (length s / 8)%nat.
Proof.
  intros Hs. split; [apply bit_string_to_bytes_of_bytes|].
  split; [apply length_bytes_to_bit_string|].
  apply bit_string_to_bytes_octets.
  pose proof (Nat.div_mod_eq (length s) 8). lia.
Qed.

Lemma bits_bytes_roundtrip_witness :
  bit_string_to_bytes (bytes_to_bit_string Samples.msg) = Ok Samples.msg
  /\ length (bytes_to_bit_string Samples.msg) = (8 * length Samples.msg)%nat
  /\ exists c, bit_string_to_bytes (bytes_to_bit_string Samples.key) = Ok c
               /\ bytes_to_bit_string c = bytes_to_bit_string Samples.key
               /\ length c = (length (bytes_to_bit_string Samples.key) / 8)%nat.
Proof.
  apply (bits_bytes_roundtrip Samples.msg (bytes_to_bit_string Samples.key)).
  reflexivity.
Defined.

(** [bit_string_to_bytes] never raises: a bit string that is not a whole
    number of octets is filled with zeros on the right up to the next
    octet, and the bytes returned are the bytes of the filled string. *)
Theorem bit_string_to_bytes_total (s : bitstr) :
  exists c, bit_string_to_bytes s = Ok c
            /\ length c = ((length s + 7) / 8)%nat
            /\ bytes_to_bit_string c
               = s ++ repeat false ((length s + 7) / 8 * 8 - length s).
Proof.
  set (k := ((length s + 7) / 8)%nat).
  set (s' := s ++ repeat false (k * 8 - length s)).
  pose proof (Nat.div_mod_eq (length s + 7) 8) as Hd.
  pose proof (Nat.mod_upper_bound (length s + 7) 8) as Hm.
  pose proof (Nat.div_mod_eq (length s) 8) as Hd'.
  pose proof (Nat.mod_upper_bound (length s) 8) as Hm'.
  assert (Hlen : length s' = (8 * k)%nat).
  { unfold s'. rewrite length_app, repeat_length. fold k in Hd. lia. }
  destruct (bit_string_to_bytes_octets k s' Hlen) as [c [E [Hc Hk]]].
  exists c. split; [|split; assumption].
  rewrite <- E. unfold bit_string_to_bytes at 2.
  replace (length s' mod 8)%nat with O
    by (rewrite Hlen, Nat.mul_comm, Nat.Div0.mod_mul; reflexivity).
  cbn [Nat.eqb negb]. unfold bit_string_to_bytes.
  destruct (Nat.eqb_spec (length s mod 8) 0) as [H0|H0]; cbn [negb].
  - replace s' with s; [reflexivity|].
    unfold s'. replace (k * 8 - length s)%nat with O; [|fold k in Hd; lia].
    simpl. rewrite app_nil_r. reflexivity.
  - reflexivity.
Qed.

(** ** [rotate_left] *)

Lemma rotl_rotl (s : bitstr) (a b : nat) :
  (a < length s)%nat -> (b < length s)%nat ->
  Spec.rotl a (Spec.rotl b s) = Spec.rotl ((b + a) mod length s) s.
Proof.
  intros Ha Hb. unfold Spec.rotl.
  destruct (Nat.le_gt_cases (b + a) (length s)) as [Hle|Hgt].
  - rewrite skipn_app, firstn_app. rewrite !length_skipn.
    replace (a - (length s - b))%nat with O by lia.
    cbn [skipn firstn]. rewrite app_nil_r, skipn_skipn.
    replace (a + b)%nat with (b + a)%nat by lia.
    rewrite <- app_assoc.
    destruct (Nat.eq_dec (b + a) (length s)) as [E|N].
    + rewrite E, Nat.Div0.mod_same. cbn [skipn firstn].
      rewrite skipn_all. cbn [app]. rewrite app_nil_r.
      rewrite <- (firstn_skipn b s) at 3. f_equal.
      rewrite firstn_all2 by (rewrite length_skipn; lia). reflexivity.
    + rewrite Nat.mod_small by lia. f_equal.
      rewrite <- (firstn_skipn b (firstn (b + a) s)).
      rewrite firstn_firstn, Nat.min_l by lia. f_equal.
      rewrite skipn_firstn_comm. f_equal. lia.
  - assert (Hmod : ((b + a) mod length s = b + a - length s)%nat).
    { replace (b + a)%nat with ((b + a - length s) + 1 * length s)%nat at 1 by lia.
      rewrite Nat.Div0.mod_add. apply Nat.mod_small. lia. }
    rewrite Hmod. set (c := (b + a - length s)%nat).
    rewrite skipn_app, firstn_app. rewrite !length_skipn.
    replace (a - (length s - b))%nat with c by (unfold c; lia).
    rewrite (skipn_all2 (skipn b s)) by (rewrite length_skipn; lia).
    rewrite (firstn_all2 (skipn b s)) by (rewrite length_skipn; lia).
    rewrite firstn_firstn, Nat.min_l by (unfold c; lia).
    cbn [app]. rewrite app_assoc. f_equal.
    rewrite <- (firstn_skipn b s) at 3.
    rewrite skipn_app, length_firstn, Nat.min_l by lia.
    replace (c - b)%nat with O by (unfold c; lia). reflexivity.
Qed.

(** [rotate_left] raises [ZeroDivisionError] on the empty string and nothing
    else; on a non-empty string it keeps the length, a rotation by the
    length changes nothing, and two rotations in a row are the rotation by
    the sum of the amounts. *)
Theorem rotate_left_compose (s : bitstr) (n m : nat) :
  s <> [] ->
  rotate_left [] n = Raise ZeroDivisionError
  /\ (exists t, rotate_left s n = Ok t /\ length t = length s)
  /\ rotate_left s (length s) = Ok s
  /\ (t <- rotate_left s n ;; rotate_left t m) = rotate_left s (n + m).
Proof.
  intros Hs. split; [reflexivity|].
  assert (Hlen : (0 < length s)%nat) by (destruct s; [congruence|simpl; lia]).
  assert (Hrot : forall (t : bitstr) (k : nat), (0 < length t)%nat ->
            rotate_left t k = Ok (Spec.rotl (k mod length t) t)).
  { intros t k Ht. unfold rotate_left, Spec.rotl.
    destruct (length t) eqn:E; [lia|reflexivity]. }
  split; [|split].
  - exists (Spec.rotl (n mod length s) s).
    split; [apply Hrot; assumption|apply length_rotl].
  - rewrite Hrot, Nat.Div0.mod_same by assumption.
    unfold Spec.rotl. cbn [skipn firstn]. rewrite app_nil_r. reflexivity.
  - rewrite !Hrot by assumption. cbn [bind].
    rewrite Hrot by (rewrite length_rotl; assumption).
    rewrite length_rotl. f_equal.
    rewrite rotl_rotl by (apply Nat.mod_upper_bound; lia).
    rewrite <- Nat.Div0.add_mod. reflexivity.
Qed.

Lemma rotate_left_compose_witness :
  rotate_left [] 1 = Raise ZeroDivisionError
  /\ (exists t, rotate_left [true; false; false] 1 = Ok t
                /\ length t = length [true; false; false])
  /\ rotate_left [true; false; false] (length [true; false; false])
     = Ok [true; false; false]
  /\ (t <- rotate_left [true; false; false] 1 ;; rotate_left t 5)
     = rotate_left [true; false; false] (1 + 5).
Proof.
  apply (rotate_left_compose [true; false; false] 1 5). discriminate.
Defined.

(** ** [_permute] *)

Lemma index_spec (s : bitstr) (k : Z) :
  index s k =
  if ((- Z.of_nat (length s) <=? k) && (k <? Z.of_nat (length s)))%Z
  then Ok (nth (Z.to_nat (if (k <? 0)%Z then k + Z.of_nat (length s) else k))
               s false)
  else Raise IndexError.
Proof.
  unfold index.
  destruct (Z.ltb_spec k 0) as [Hk|Hk].
  - destruct (Z.ltb_spec (k + Z.of_nat (length s)) 0) as [H1|H1].
    + destruct (Z.leb_spec (- Z.of_nat (length s)) k); [lia|reflexivity].
    + destruct (Z.leb_spec (- Z.of_nat (length s)) k); [|lia].
      destruct (Z.ltb_spec k (Z.of_nat (length s))); [|lia]. cbn [andb].
      rewrite nth_error_nth' with (d := false) by lia. reflexivity.
  - destruct (Z.ltb_spec k 0) as [H1|H1]; [lia|].
    destruct (Z.leb_spec (- Z.of_nat (length s)) k); [|lia]. cbn [andb].
    destruct (Z.ltb_spec k (Z.of_nat (length s))) as [H2|H2].
    + rewrite nth_error_nth' with (d := false) by lia. reflexivity.
    + destruct (nth_error s (Z.to_nat k)) eqn:E; [|reflexivity].
      assert (nth_error s (Z.to_nat k) <> None) as Hn by congruence.
      apply nth_error_Some in Hn. lia.
Qed.

(** [_permute] picks, for every table entry [i], the character at Python
    index [i - 1]: entries from 1 to the length count from the left,
    entries from 0 down to [1 - length] count from the right, and any other
    entry makes the whole call raise [IndexError].  A successful call returns
    as many characters as the table has entries. *)
Theorem permute_spec (s : bitstr) (table : list Z) :
  _permute s table =
  if forallb (fun i => (1 - Z.of_nat (length s) <=? i)%Z
                       && (i <=? Z.of_nat (length s))%Z) table
  then Ok (map (fun i => nth (Z.to_nat (if (i <? 1)%Z
                                        then i - 1 + Z.of_nat (length s)
                                        else i - 1)%Z) s false) table)
  else Raise IndexError.
Proof.
  unfold _permute. induction table as [|i table IH]; [reflexivity|].
  cbn [mapM forallb map]. rewrite index_spec.
  replace (- Z.of_nat (length s) <=? i - 1)%Z
    with (1 - Z.of_nat (length s) <=? i)%Z
    by (destruct (Z.leb_spec (1 - Z.of_nat (length s)) i),
                 (Z.leb_spec (- Z.of_nat (length s)) (i - 1)); lia || reflexivity).
  replace (i - 1 <? Z.of_nat (length s))%Z with (i <=? Z.of_nat (length s))%Z
    by (destruct (Z.leb_spec i (Z.of_nat (length s))),
                 (Z.ltb_spec (i - 1) (Z.of_nat (length s))); lia || reflexivity).
  replace (i - 1 <? 0)%Z with (i <? 1)%Z
    by (destruct (Z.ltb_spec i 1), (Z.ltb_spec (i - 1) 0); lia || reflexivity).
  destruct ((1 - Z.of_nat (length s) <=? i)%Z && (i <=? Z.of_nat (length s))%Z);
    [|reflexivity].
  cbn [bind andb]. rewrite IH.
  destruct (forallb _ table); reflexivity.
Qed.

(** ** [_feistel_function] *)

(** On a 32-bit half and a 48-bit subkey the round function returns 32 bits:
    none of its three [ValueError] guards can fire, and no table lookup is
    out of range.  A half shorter than 32 bits raises [IndexError] from the
    expansion, and an empty subkey raises [ValueError]. *)
Theorem feistel_function_sizes (R K short : bitstr) :
  length R = 32%nat -> length K = 48%nat -> (length short < 32)%nat ->
  (exists f, _feistel_function R K = Ok f /\ length f = 32%nat)
  /\ _feistel_function short K = Raise IndexError
  /\ _feistel_function R [] = Raise ValueError.
Proof.
  intros HR HK Hs. split; [apply feistel_function_ok; assumption|]. split.
  - unfold _feistel_function, _permute, E_BOX. cbn [mapM].
    rewrite index_spec.
    destruct (Z.ltb_spec (32 - 1) (Z.of_nat (length short))); [lia|].
    rewrite andb_false_r. reflexivity.
  - unfold _feistel_function.
    rewrite (permute_fixed 32 E_BOX R E_BOX_range) by (rewrite HR; reflexivity).
    cbn [bind]. rewrite int2_ok by (rewrite length_select; simpl; lia).
    reflexivity.
Qed.

Lemma feistel_function_sizes_witness :
  (exists f, _feistel_function (repeat true 32) (repeat false 48) = Ok f
             /\ length f = 32%nat)
  /\ _feistel_function [true] (repeat false 48) = Raise IndexError
  /\ _feistel_function (repeat true 32) [] = Raise ValueError.
Proof.
  apply (feistel_function_sizes (repeat true 32) (repeat false 48) [true]).
  - reflexivity.
  - reflexivity.
  - simpl. lia.
Defined.

(** ** The block primitive as a permutation of the 8-byte blocks *)

Lemma decrypt_block_roundtrip (e : DES) (C : bytes) :
  Spec.well_formed e -> length C = 8%nat ->
  exists B, decrypt_block e C = Ok B /\ length B = 8%nat
            /\ encrypt_block e B = Ok C.
Proof.
  intros [Hl Hk] HC.
  set (e' := mkDES (DesCore.block_size e) (DesCore.rounds e) (keylen e)
                   (DesCore.iv e) (key e) (rev (subkeys e))).
  assert (He' : Spec.well_formed e').
  { split; cbn [subkeys DesCore.rounds e'].
    - rewrite length_rev. exact Hl.
    - apply Forall_rev. exact Hk. }
  assert (Hd : forall X, decrypt_block e X = encrypt_block e' X) by reflexivity.
  assert (Hen : forall X, encrypt_block e X = decrypt_block e' X).
  { intros X. unfold encrypt_block, decrypt_block, _process_block.
    cbn [subkeys DesCore.rounds e']. rewrite rev_involutive. reflexivity. }
  destruct (block_roundtrip e' C He' HC) as [B [_ [_ [E1 [HB [E2 _]]]]]].
  exists B. rewrite Hd, Hen. repeat split; assumption.
Qed.

(** For every engine the constructor builds, [encrypt_block] is a
    permutation of the 8-byte blocks: it is injective, every 8-byte block is
    the encryption of the block [decrypt_block] returns for it, and
    [decrypt_block] is injective too. *)
Theorem block_cipher_bijection (key : bytes) (bs rounds kl : Z)
  (iv : option bytes) :
  exists e, DES_init key bs rounds kl iv = Ok e
    /\ (forall C : bytes, length C = 8%nat ->
          exists B, decrypt_block e C = Ok B /\ length B = 8%nat
                    /\ encrypt_block e B = Ok C)
    /\ (forall B1 B2 : bytes, length B1 = 8%nat -> length B2 = 8%nat ->
          encrypt_block e B1 = encrypt_block e B2 -> B1 = B2)
    /\ (forall C1 C2 : bytes, length C1 = 8%nat -> length C2 = 8%nat ->
          decrypt_block e C1 = decrypt_block e C2 -> C1 = C2).
Proof.
  destruct (DES_init_ok key bs rounds kl iv) as [e [E [Hw _]]].
  exists e. split; [exact E|]. split; [|split].
  - intros C HC. apply decrypt_block_roundtrip; assumption.
  - intros B1 B2 H1 H2 Heq.
    destruct (block_roundtrip e B1 Hw H1) as [C1 [_ [_ [E1 [_ [D1 _]]]]]].
    destruct (block_roundtrip e B2 Hw H2) as [C2 [_ [_ [E2 [_ [D2 _]]]]]].
    rewrite E1, E2 in Heq. injection Heq as ->. congruence.
  - intros C1 C2 H1 H2 Heq.
    destruct (decrypt_block_roundtrip e C1 Hw H1) as [B1 [D1 [_ E1]]].
    destruct (decrypt_block_roundtrip e C2 Hw H2) as [B2 [D2 [_ E2]]].
    rewrite D1, D2 in Heq. injection Heq as ->. congruence.
Qed.

(** ** [pad] and [unpad] for any block size *)

Lemma unpad_strips_bs (data : bytes) (bs : Z) :
  data <> [] ->
  (1 <= byte_int (last data x00) <= bs)%Z ->
  (byte_int (last data x00) <= Z.of_nat (length data))%Z ->
  unpad data bs
  = firstn (length data - Z.to_nat (byte_int (last data x00))) data.
Proof.
  intros Hd H1 H2. unfold unpad. destruct data as [|x data]; [congruence|].
  set (n := byte_int (last (x :: data) x00)) in *.
  destruct (Z.ltb_spec n 1); [lia|].
  destruct (Z.ltb_spec bs n); [lia|].
  destruct (Z.ltb_spec (Z.of_nat (length (x :: data))) n); [lia|].
  reflexivity.
Qed.

Lemma pad_value (D : bytes) (bs : Z) :
  (0 < bs)%Z -> (bs - Z.of_nat (length D) mod bs <= 255)%Z ->
  exists b : byte,
    byte_int b = (bs - Z.of_nat (length D) mod bs)%Z
    /\ pad D bs
       = Ok (D ++ repeat b (Z.to_nat (bs - Z.of_nat (length D) mod bs))).
Proof.
  intros Hbs Hn.
  set (n := (bs - Z.of_nat (length D) mod bs)%Z) in *.
  pose proof (Z.mod_pos_bound (Z.of_nat (length D)) bs Hbs) as Hm.
  destruct (byte_of_small n) as [b [Eb Hb]]; [unfold n; lia|].
  exists b. split; [exact Hb|].
  unfold pad. cbv zeta. fold n.
  destruct (Z.eqb_spec bs 0); [lia|].
  destruct (Z.eqb_spec n 0); [unfold n in *; lia|].
  rewrite Eb. cbn [bind]. do 2 f_equal. apply concat_repeat_singleton.
Qed.

(** For every block size from 1 to 255 that leaves a pad length of at most
    255, [pad] succeeds, appends [n = bs - len mod bs] bytes of value [n],
    returns a whole number of blocks, and [unpad] with the same block size
    gives the data back. *)
Theorem pad_unpad_any_block_size (D : bytes) (bs : Z) :
  (0 < bs)%Z -> (bs - Z.of_nat (length D) mod bs <= 255)%Z ->
  exists (b : byte) (padded : bytes),
    byte_int b = (bs - Z.of_nat (length D) mod bs)%Z
    /\ pad D bs = Ok padded
    /\ padded = D ++ repeat b (Z.to_nat (bs - Z.of_nat (length D) mod bs))
    /\ (Z.of_nat (length padded) mod bs = 0)%Z
    /\ (Z.of_nat (length D) < Z.of_nat (length padded)
        <= Z.of_nat (length D) + bs)%Z
    /\ unpad padded bs = D.
Proof.
  intros Hbs Hn.
  set (n := (bs - Z.of_nat (length D) mod bs)%Z) in *.
  pose proof (Z.mod_pos_bound (Z.of_nat (length D)) bs Hbs) as Hm.
  assert (Hn1 : (1 <= n <= bs)%Z) by (unfold n; lia).
  destruct (pad_value D bs Hbs Hn) as [b [Hb Eb]]. fold n in Hb, Eb.
  exists b, (D ++ repeat b (Z.to_nat n)).
  assert (Hlast : last (D ++ repeat b (Z.to_nat n)) x00 = b)
    by (apply last_app_repeat; lia).
  assert (Hlen : length (D ++ repeat b (Z.to_nat n))
                 = (length D + Z.to_nat n)%nat)
    by (rewrite length_app, repeat_length; reflexivity).
  split; [exact Hb|]. split; [exact Eb|].
  split; [reflexivity|]. split; [|split].
  - rewrite Hlen, Nat2Z.inj_add, Z2Nat.id by lia. unfold n.
    replace (Z.of_nat (length D) + (bs - Z.of_nat (length D) mod bs))%Z
      with (Z.of_nat (length D) - Z.of_nat (length D) mod bs + 1 * bs)%Z by lia.
    rewrite Z.mod_add by lia.
    rewrite Zminus_mod, Zmod_mod, Z.sub_diag. apply Zmod_0_l.
  - rewrite Hlen, Nat2Z.inj_add, Z2Nat.id by lia. lia.
  - rewrite unpad_strips_bs.
    + rewrite Hlast, Hb, Hlen, Nat.add_sub, firstn_app, Nat.sub_diag,
        firstn_all. simpl. apply app_nil_r.
    + destruct (Z.to_nat n) eqn:Hz; [lia|]. destruct D; discriminate.
    + rewrite Hlast, Hb. exact Hn1.
    + rewrite Hlast, Hb, Hlen. lia.
Qed.

Lemma pad_unpad_any_block_size_witness :
  exists (b : byte) (padded : bytes),
    byte_int b = (16 - Z.of_nat (length Samples.msg) mod 16)%Z
    /\ pad Samples.msg 16 = Ok padded
    /\ padded = Samples.msg
                  ++ repeat b (Z.to_nat (16 - Z.of_nat (length Samples.msg) mod 16))
    /\ (Z.of_nat (length padded) mod 16 = 0)%Z
    /\ (Z.of_nat (length Samples.msg) < Z.of_nat (length padded)
        <= Z.of_nat (length Samples.msg) + 16)%Z
    /\ unpad padded 16 = Samples.msg.
Proof.
  apply (pad_unpad_any_block_size Samples.msg 16); [lia|vm_compute; discriminate].
Defined.

Lemma pad_raises (D : bytes) (bs : Z) :
  (bs <= 0)%Z \/ (255 < bs - Z.of_nat (length D) mod bs)%Z ->
  pad D bs = Raise (if (bs =? 0)%Z then ZeroDivisionError else ValueError).
Proof.
  intros H. unfold pad. cbv zeta.
  destruct (Z.eqb_spec bs 0) as [E|N]; [reflexivity|].
  set (n := (bs - Z.of_nat (length D) mod bs)%Z) in *.
  assert (Hn : (n < 0)%Z \/ (255 < n)%Z).
  { destruct H as [H|H]; [left|right; exact H].
    pose proof (Z.mod_neg_bound (Z.of_nat (length D)) bs).
    unfold n. lia. }
  destruct (Z.eqb_spec n 0); [lia|].
  unfold bytes_of_ints. cbn [mapM].
  destruct (Z.ltb_spec n 0); [reflexivity|].
  destruct (Byte.of_N (Z.to_N n)) eqn:E; [|reflexivity].
  apply Byte.to_of_N in E. pose proof (Byte.to_N_bounded b). lia.
Qed.


(** [pad] fails in exactly three ways: a block size of 0 raises
    [ZeroDivisionError]; a negative block size, or a pad length above 255
    (possible only for a block size above 255), raises [ValueError].  In
    every other case it returns the data followed by the pad. *)
Theorem pad_outcome (D : bytes) (bs : Z) :
  match pad D bs with
  | Ok padded =>
      (0 < bs)%Z /\ (bs - Z.of_nat (length D) mod bs <= 255)%Z
      /\ firstn (length D) padded = D
      /\ Z.of_nat (length padded)
         = (Z.of_nat (length D) + (bs - Z.of_nat (length D) mod bs))%Z
  | Raise err =>
      err = (if (bs =? 0)%Z then ZeroDivisionError else ValueError)
      /\ ((bs <= 0)%Z \/ (255 < bs - Z.of_nat (length D) mod bs)%Z)
  end.
Proof.
  destruct (Z_le_gt_dec bs 0) as [H|H].
  - rewrite pad_raises by (left; exact H). split; [reflexivity|left; exact H].
  - destruct (Z_le_gt_dec (bs - Z.of_nat (length D) mod bs) 255) as [Hn|Hn].
    + destruct (pad_value D bs) as [b [Hb E]]; [lia|exact Hn|].
      rewrite E. split; [lia|]. split; [exact Hn|].
      pose proof (Z.mod_pos_bound (Z.of_nat (length D)) bs).
      split.
      * rewrite firstn_app, Nat.sub_diag, firstn_all. apply app_nil_r.
      * rewrite length_app, repeat_length, Nat2Z.inj_add, Z2Nat.id by lia.
        reflexivity.
    + rewrite pad_raises by (right; lia). split; [reflexivity|right; lia].
Qed.

(** [unpad] returns a prefix of its argument and drops at most [block_size]
    bytes (none when the block size is not positive); it never raises. *)
Theorem unpad_prefix (data : bytes) (bs : Z) :
  exists suffix, data = unpad data bs ++ suffix
                 /\ (Z.of_nat (length suffix) <= Z.max bs 0)%Z.
Proof.
  unfold unpad. destruct data as [|x data]; [exists []; split; [reflexivity|simpl; lia]|].
  set (d := x :: data). set (n := byte_int (last d x00)).
  destruct (Z.ltb_spec n 1); cbn [orb];
    [exists []; rewrite app_nil_r; split; [reflexivity|simpl; lia]|].
  destruct (Z.ltb_spec bs n); cbn [orb];
    [exists []; rewrite app_nil_r; split; [reflexivity|simpl; lia]|].
  destruct (Z.ltb_spec (Z.of_nat (length d)) n);
    [exists []; rewrite app_nil_r; split; [reflexivity|simpl; lia]|].
  exists (skipn (length d - Z.to_nat n) d).
  split; [symmetry; apply firstn_skipn|].
  rewrite length_skipn. lia.
Qed.

(** [unpad] looks at the last byte only: when that byte is [n] in [1, 8],
    the last [n] bytes go, whatever the [n - 1] bytes before it are. *)
Theorem unpad_ignores_padding_bytes (D junk : bytes) (b : byte) :
  (1 <= byte_int b <= 8)%Z -> Z.of_nat (length junk) = (byte_int b - 1)%Z ->
  unpad (D ++ junk ++ [b]) 8 = D.
Proof.
  intros Hb Hj.
  assert (Hlast : last (D ++ junk ++ [b]) x00 = b)
    by (rewrite app_assoc; apply last_last).
  rewrite unpad_strips_bs.
  - rewrite Hlast, !length_app. cbn [length].
    replace (length D + (length junk + 1) - Z.to_nat (byte_int b))%nat
      with (length D + 0)%nat by lia.
    rewrite firstn_app_2. cbn [firstn]. apply app_nil_r.
  - destruct D; [destruct junk|]; discriminate.
  - rewrite Hlast. exact Hb.
  - rewrite Hlast, !length_app. cbn [length]. lia.
Qed.

Lemma unpad_ignores_padding_bytes_witness :
  unpad (Samples.msg ++ [x41; x42] ++ [x03]) 8 = Samples.msg.
Proof.
  apply (unpad_ignores_padding_bytes Samples.msg [x41; x42] x03);
    vm_compute; try split; congruence.
Defined.

(** ** Splitting into blocks *)

Lemma slices_short (n : nat) (a : bytes) :
  (0 < length a <= n)%nat -> slices n a = [a].
Proof.
  intros H. unfold slices.
  replace ((length a + n - 1) / n)%nat with 1%nat.
  2:{ symmetry. replace (length a + n - 1)%nat with (1 * n + (length a - 1))%nat by lia.
      rewrite Nat.div_add_l by lia. rewrite Nat.div_small; lia. }
  simpl. rewrite firstn_all2 by lia. reflexivity.
Qed.

Lemma slices_step (n : nat) (s : bytes) :
  (0 < n)%nat -> (n <= length s)%nat ->
  slices n s = firstn n s :: slices n (skipn n s).
Proof.
  intros Hn Hs. rewrite <- (firstn_skipn n s) at 1.
  apply slices_cons; [assumption|]. rewrite length_firstn. lia.
Qed.

Lemma slices_spec (n : nat) : (0 < n)%nat ->
  forall (k : nat) (s : bytes), (length s <= k)%nat ->
  concat (slices n s) = s
  /\ Forall (fun b : bytes => (0 < length b <= n)%nat) (slices n s)
  /\ Forall (fun b : bytes => length b = n) (removelast (slices n s)).
Proof.
  intros Hn. induction k as [|k IH]; intros s Hs.
  - destruct s; [|simpl in Hs; lia]. rewrite slices_nil by assumption.
    repeat split; constructor.
  - destruct (Nat.le_gt_cases (length s) n) as [Hle|Hgt].
    + destruct s as [|x s]; [rewrite slices_nil by assumption; repeat split; constructor|].
      rewrite slices_short by (simpl in *; lia).
      cbn [concat removelast]. rewrite app_nil_r.
      split; [reflexivity|]. split; constructor; [simpl in *; lia|constructor].
    + rewrite slices_step by lia.
      destruct (IH (skipn n s)) as [H1 [H2 H3]]; [rewrite length_skipn; lia|].
      cbn [concat]. rewrite H1, firstn_skipn.
      split; [reflexivity|]. split.
      * constructor; [rewrite length_firstn; lia|exact H2].
      * assert (Hne : slices n (skipn n s) <> []).
        { intros E. rewrite E in H1. simpl in H1.
          assert (length (skipn n s) = 0%nat) by (rewrite <- H1; reflexivity).
          rewrite length_skipn in H. lia. }
        destruct (slices n (skipn n s)) as [|y l] eqn:E; [congruence|].
        cbn [removelast]. constructor; [rewrite length_firstn; lia|exact H3].
Qed.

(** With a positive block size [_get_blocks] loses nothing: the blocks
    concatenate to the data, there are [ceil (len / bs)] of them, none is
    empty, and all but the last hold exactly [bs] bytes. *)
Theorem get_blocks_split_join (self : Mode) (data : bytes) :
  (0 < block_size_bytes self)%Z ->
  exists blocks,
    _get_blocks self data = Ok blocks
    /\ concat blocks = data
    /\ Z.of_nat (length blocks)
       = ((Z.of_nat (length data) + block_size_bytes self - 1)
          / block_size_bytes self)%Z
    /\ Forall (fun b : bytes =>
                 (0 < Z.of_nat (length b) <= block_size_bytes self)%Z) blocks
    /\ Forall (fun b : bytes => Z.of_nat (length b) = block_size_bytes self)
              (removelast blocks).
Proof.
  intros Hbs. set (n := Z.to_nat (block_size_bytes self)).
  assert (Hn : (0 < n)%nat) by (unfold n; lia).
  destruct (slices_spec n Hn (length data) data (Nat.le_refl _)) as [H1 [H2 H3]].
  exists (slices n data). unfold _get_blocks.
  destruct (Z.eqb_spec (block_size_bytes self) 0); [lia|].
  destruct (Z.ltb_spec (block_size_bytes self) 0); [lia|].
  fold n. split; [reflexivity|]. split; [exact H1|]. split; [|split].
  - unfold slices. rewrite length_map, length_seq.
    rewrite Nat2Z.inj_div.
    replace (Z.of_nat (length data + n - 1))
      with (Z.of_nat (length data) + block_size_bytes self - 1)%Z by (unfold n; lia).
    unfold n. rewrite Z2Nat.id by lia. reflexivity.
  - eapply Forall_impl; [|exact H2]. intros b Hb. cbv beta in Hb. unfold n in Hb. lia.
  - eapply Forall_impl; [|exact H3]. intros b Hb. cbv beta in Hb. unfold n in Hb. lia.
Qed.

Lemma get_blocks_split_join_witness :
  exists blocks,
    _get_blocks (mkMode ECB None 3 None) Samples.msg = Ok blocks
    /\ concat blocks = Samples.msg
    /\ Z.of_nat (length blocks)
       = ((Z.of_nat (length Samples.msg)
           + block_size_bytes (mkMode ECB None 3 None) - 1)
          / block_size_bytes (mkMode ECB None 3 None))%Z
    /\ Forall (fun b : bytes =>
                 (0 < Z.of_nat (length b)
                  <= block_size_bytes (mkMode ECB None 3 None))%Z) blocks
    /\ Forall (fun b : bytes =>
                 Z.of_nat (length b) = block_size_bytes (mkMode ECB None 3 None))
              (removelast blocks).
Proof.
  apply (get_blocks_split_join (mkMode ECB None 3 None) Samples.msg).
  simpl. lia.
Defined.

(** ** Modes and the engine's block size *)

Lemma pad_length (D padded : bytes) (bs : Z) :
  pad D bs = Ok padded ->
  (0 < bs)%Z
  /\ Z.of_nat (length padded)
     = (Z.of_nat (length D) + (bs - Z.of_nat (length D) mod bs))%Z.
Proof.
  intros E.
  destruct (Z_le_gt_dec bs 0) as [H|H];
    [rewrite pad_raises in E by (left; exact H); discriminate E|].
  destruct (Z_le_gt_dec (bs - Z.of_nat (length D) mod bs) 255) as [Hn|Hn];
    [|rewrite pad_raises in E by (right; lia); discriminate E].
  destruct (pad_value D bs) as [b [Hb E']]; [lia|exact Hn|].
  rewrite E' in E. injection E as <-. split; [lia|].
  pose proof (Z.mod_pos_bound (Z.of_nat (length D)) bs).
  rewrite length_app, repeat_length, Nat2Z.inj_add, Z2Nat.id by lia.
  reflexivity.
Qed.

(** The engine accepts any [block_size], but ECB encryption works only when
    [block_size // 8] is 8: with any other value every call fails, with
    [ZeroDivisionError] from [pad] when the quotient is 0 and with
    [ValueError] otherwise (from [pad] or from the 8-byte check of the block
    primitive on the first block). *)
Theorem ECB_needs_block_size_64 (key : bytes) (bs rounds kl : Z)
  (iv : option bytes) (P : bytes) :
  (bs / 8 <> 8)%Z ->
  exists e m,
    DES_init key bs rounds kl iv = Ok e
    /\ Mode_init ECB (Some e) = Ok m
    /\ Modes.encrypt m P
       = Raise (if (bs / 8 =? 0)%Z then ZeroDivisionError else ValueError).
Proof.
  intros Hbs.
  destruct (DES_init_ok key bs rounds kl iv) as [e [E [_ [Hb [_ [Hi _]]]]]].
  exists e, (mkMode ECB (Some e) (bs / 8) iv).
  split; [exact E|]. split; [unfold Mode_init; rewrite Hb, Hi; reflexivity|].
  unfold Modes.encrypt. cbn [cls]. unfold ECB_encrypt. cbn [des block_size_bytes].
  set (b := (bs / 8)%Z) in *.
  destruct (pad P b) as [padded|err] eqn:Ep.
  - destruct (pad_length P padded b Ep) as [Hpos Hlen].
    pose proof (Z.mod_pos_bound (Z.of_nat (length P)) b Hpos) as Hm.
    pose proof (Z.mod_le (Z.of_nat (length P)) b (Nat2Z.is_nonneg _) Hpos) as Hle.
    cbn [bind]. unfold _get_blocks. cbn [block_size_bytes].
    destruct (Z.eqb_spec b 0); [lia|].
    destruct (Z.ltb_spec b 0); [lia|]. cbn [bind].
    rewrite slices_step by lia. cbn [mapM].
    unfold encrypt_block at 1. unfold _process_block.
    rewrite length_firstn, Nat.min_l by lia.
    destruct (Nat.eqb_spec (Z.to_nat b) 8); [lia|]. reflexivity.
  - destruct (Z_le_gt_dec b 0) as [H|H].
    + rewrite pad_raises in Ep by (left; exact H). injection Ep as <-.
      reflexivity.
    + destruct (Z_le_gt_dec (b - Z.of_nat (length P) mod b) 255) as [Hn|Hn].
      * destruct (pad_value P b) as [x [_ E']]; [lia|exact Hn|]. congruence.
      * rewrite pad_raises in Ep by (right; lia). injection Ep as <-.
        reflexivity.
Qed.

Lemma ECB_needs_block_size_64_witness :
  exists e m,
    DES_init Samples.key 128 16 64 None = Ok e
    /\ Mode_init ECB (Some e) = Ok m
    /\ Modes.encrypt m Samples.msg
       = Raise (if (128 / 8 =? 0)%Z then ZeroDivisionError else ValueError).
Proof.
  apply (ECB_needs_block_size_64 Samples.key 128 16 64 None Samples.msg).
  vm_compute. discriminate.
Defined.

(** A mode built without an engine fails with [ValueError] on every
    [encrypt], [decrypt] and block split, in all five classes; binding an
    engine to it afterwards with [set_des_engine] gives the same instance as
    constructing the mode with that engine, whatever was bound before. *)
Theorem mode_without_engine (c : kind) (d d' : DES) (data : bytes) :
  exists m,
    Mode_init c None = Ok m
    /\ Modes.encrypt m data = Raise ValueError
    /\ Modes.decrypt m data = Raise ValueError
    /\ _get_blocks m data = Raise ValueError
    /\ Mode_init c (Some d) = Ok (set_des_engine m d)
    /\ set_des_engine (set_des_engine m d') d = set_des_engine m d.
Proof.
  exists (mkMode c None 0 None). split; [reflexivity|].
  destruct c; repeat split; reflexivity.
Qed.

(** ** Which keys give the same engine *)

(** The constructor never rejects a key: bytes after the eighth are
    dropped and a short key is filled with zero bytes, so a key and the same
    key followed by anything (when it has 8 bytes or more), or by zero bytes
    up to 8 (when it is shorter), give the same engine. *)
Theorem key_tail_ignored (key tail : bytes) (bs rounds kl : Z)
  (iv : option bytes) :
  (8 <= length key)%nat
  \/ (tail = repeat x00 (length tail) /\ (length key + length tail <= 8)%nat) ->
  DES_init (key ++ tail) bs rounds kl iv = DES_init key bs rounds kl iv
  /\ exists e, DES_init key bs rounds kl iv = Ok e
               /\ length (DesCore.key e) = 8%nat.
Proof.
  intros H. split.
  - unfold DES_init. replace (normalize_key (key ++ tail)) with (normalize_key key);
      [reflexivity|].
    unfold normalize_key. rewrite length_app.
    destruct H as [H|[Ht H]].
    + destruct (Nat.ltb_spec (length key) 8); [lia|].
      destruct (Nat.ltb_spec (length key + length tail) 8); [lia|].
      destruct (Nat.ltb_spec 8 (length key)) as [H8|H8].
      * destruct (Nat.ltb_spec 8 (length key + length tail)); [|lia].
        rewrite firstn_app. replace (8 - length key)%nat with O by lia.
        change (firstn 0 tail) with (@nil byte).
        rewrite app_nil_r. reflexivity.
      * assert (E8 : length key = 8%nat) by lia.
        destruct (Nat.ltb_spec 8 (length key + length tail)).
        -- rewrite firstn_app, E8, Nat.sub_diag.
           change (firstn 0 tail) with (@nil byte).
           rewrite app_nil_r. symmetry. apply firstn_all2. lia.
        -- destruct tail; [rewrite app_nil_r; reflexivity|simpl in *; lia].
    + remember (length tail) as n eqn:Hn. clear Hn. subst tail.
      destruct (Nat.ltb_spec (length key + n) 8) as [H1|H1].
      * destruct (Nat.ltb_spec (length key) 8); [|lia].
        rewrite <- app_assoc, <- repeat_app. do 2 f_equal. lia.
      * destruct (Nat.ltb_spec 8 (length key + n)); [lia|].
        destruct (Nat.ltb_spec (length key) 8).
        -- do 2 f_equal. lia.
        -- destruct (Nat.ltb_spec 8 (length key)); [lia|].
           replace n with O by lia. cbn [repeat]. rewrite app_nil_r. reflexivity.
  - destruct (DES_init_ok key bs rounds kl iv) as [e [E _]].
    exists e. split; [exact E|].
    unfold DES_init in E. rewrite generate_subkeys_spec in E
      by apply length_normalize_key.
    cbn [bind] in E. injection E as <-. apply length_normalize_key.
Qed.

Lemma key_tail_ignored_witness :
  DES_init (Samples.key ++ Samples.iv) 64 16 64 None
  = DES_init Samples.key 64 16 64 None
  /\ exists e, DES_init Samples.key 64 16 64 None = Ok e
               /\ length (DesCore.key e) = 8%nat.
Proof.
  apply (key_tail_ignored Samples.key Samples.iv 64 16 64 None).
  left. simpl. lia.
Defined.

Lemma nth_bytes_to_bit_string (k : bytes) : forall p : nat,
  (p < 8 * length k)%nat ->
  nth p (bytes_to_bit_string k) false
  = nth (p mod 8) (format_b 8 (Byte.to_N (nth (p / 8) k x00))) false.
Proof.
  unfold bytes_to_bit_string.
  induction k as [|b k IH]; intros p Hp; [simpl in Hp; lia|].
  cbn [flat_map]. destruct (Nat.lt_ge_cases p 8) as [H|H].
  - rewrite app_nth1 by (rewrite length_byte_bits; exact H).
    rewrite Nat.mod_small, Nat.div_small by exact H. reflexivity.
  - rewrite app_nth2 by (rewrite length_byte_bits; exact H).
    rewrite length_byte_bits, IH by (simpl in Hp; lia).
    replace p with ((p - 8) + 1 * 8)%nat at 3 4 by lia.
    rewrite Nat.Div0.mod_add, Nat.div_add by lia.
    rewrite Nat.add_1_r. reflexivity.
Qed.

Lemma byte_bits_high (b : byte) (r : nat) : (r < 7)%nat ->
  nth r (format_b 8 (Byte.to_N b)) false
  = nth r (format_b 7 (N.div2 (Byte.to_N b))) false.
Proof.
  intros Hr. pose proof (Byte.to_N_bounded b) as Hb.
  rewrite (N.div2_odd (Byte.to_N b)) at 1.
  rewrite format_b_snoc by lia.
  apply app_nth1. rewrite length_format_b; [exact Hr|lia|].
  rewrite N.div2_div. change (2 ^ N.of_nat 7)%N with 128%N.
  apply N.Div0.div_lt_upper_bound. lia.
Qed.

Lemma PC_1_skips_parity :
  Forall (fun i => (1 <= i <= 64)%Z /\ (i mod 8 <> 0)%Z) PC_1.
Proof.
  unfold PC_1. repeat (constructor; [split; [lia|discriminate]|]). constructor.
Qed.

(** The lowest bit of every key byte is a parity position that PC-1 never
    selects: two 8-byte keys that agree on the upper seven bits of each byte
    have the same subkeys and encrypt and decrypt every block alike.  The
    effective key is 56 bits. *)
Theorem key_parity_bits_ignored (k1 k2 : bytes) (bs rounds kl : Z)
  (iv : option bytes) :
  length k1 = 8%nat -> length k2 = 8%nat ->
  map (fun b => N.div2 (Byte.to_N b)) k1 = map (fun b => N.div2 (Byte.to_N b)) k2 ->
  exists e1 e2,
    DES_init k1 bs rounds kl iv = Ok e1
    /\ DES_init k2 bs rounds kl iv = Ok e2
    /\ subkeys e1 = subkeys e2
    /\ forall B, encrypt_block e1 B = encrypt_block e2 B
                 /\ decrypt_block e1 B = decrypt_block e2 B.
Proof.
  intros H1 H2 Hk.
  assert (Hsel : Spec.select PC_1 (bytes_to_bit_string k1)
                 = Spec.select PC_1 (bytes_to_bit_string k2)).
  { unfold Spec.select. apply map_ext_in. intros i Hi.
    pose proof PC_1_skips_parity as HP. rewrite Forall_forall in HP.
    destruct (HP i Hi) as [Hr Hm].
    set (p := Z.to_nat (i - 1)).
    assert (Hp : (p < 64)%nat) by (unfold p; lia).
    assert (Hp7 : (p mod 8 < 7)%nat).
    { pose proof (Nat.mod_upper_bound p 8).
      assert (p mod 8 <> 7)%nat; [|lia]. intros E. apply Hm.
      replace i with (Z.of_nat p + 1)%Z by (unfold p; lia).
      pose proof (Nat.div_mod_eq p 8) as Hd.
      replace (Z.of_nat p + 1)%Z with (0 + Z.of_nat (p / 8 + 1) * 8)%Z by lia.
      rewrite Z.mod_add by lia. reflexivity. }
    rewrite !nth_bytes_to_bit_string by lia.
    rewrite !byte_bits_high by exact Hp7. do 2 f_equal.
    rewrite <- (map_nth (fun b => N.div2 (Byte.to_N b)) k1 x00 (p / 8)).
    rewrite <- (map_nth (fun b => N.div2 (Byte.to_N b)) k2 x00 (p / 8)).
    rewrite Hk. reflexivity. }
  assert (Hh : forall n, Spec.halves k1 n = Spec.halves k2 n).
  { induction n as [|n IH]; cbn [Spec.halves]; [rewrite Hsel|rewrite IH]; reflexivity. }
  assert (Hs : forall i, Spec.subkey k1 i = Spec.subkey k2 i)
    by (intros i; unfold Spec.subkey; rewrite Hh; reflexivity).
  destruct (DES_init_ok k1 bs rounds kl iv) as [e1 [E1 [_ [_ [R1 [_ S1]]]]]].
  destruct (DES_init_ok k2 bs rounds kl iv) as [e2 [E2 [_ [_ [R2 [_ S2]]]]]].
  rewrite normalize_key_8 in S1, S2 by assumption.
  assert (Hsub : subkeys e1 = subkeys e2).
  { rewrite S1, S2. apply map_ext. exact Hs. }
  exists e1, e2. split; [exact E1|]. split; [exact E2|]. split; [exact Hsub|].
  intros B. unfold encrypt_block, decrypt_block, _process_block.
  rewrite Hsub, R1, R2. split; reflexivity.
Qed.

Lemma key_parity_bits_ignored_witness :
  exists e1 e2,
    DES_init Samples.key 64 16 64 None = Ok e1
    /\ DES_init [x4c; x58; x52; x44; x42; x53; x44; x55] 64 16 64 None = Ok e2
    /\ subkeys e1 = subkeys e2
    /\ forall B, encrypt_block e1 B = encrypt_block e2 B
                 /\ decrypt_block e1 B = decrypt_block e2 B.
Proof.
  apply (key_parity_bits_ignored Samples.key
           [x4c; x58; x52; x44; x42; x53; x44; x55] 64 16 64 None);
    reflexivity.
Defined.

(** ** How ECB and CBC treat a leading block *)

Lemma pad_app_block (A P : bytes) :
  length A = 8%nat ->
  exists padded, pad P 8 = Ok padded
                 /\ length padded = (8 * (length P / 8 + 1))%nat
                 /\ pad (A ++ P) 8 = Ok (A ++ padded).
Proof.
  intros HA.
  destruct (pad_8 P) as [n [b [En [Hn [Hb E]]]]].
  destruct (pad_8 (A ++ P)) as [n' [b' [En' [Hn' [Hb' E']]]]].
  destruct (pad_blocks P) as [padded [Ep [Hl _]]].
  exists padded. split; [exact Ep|]. split; [exact Hl|].
  assert (Hnn : n' = n).
  { rewrite En, En', length_app, HA, Nat2Z.inj_add.
    replace (Z.of_nat 8 + Z.of_nat (length P))%Z
      with (Z.of_nat (length P) + 1 * 8)%Z by lia.
    rewrite Z.mod_add by lia. reflexivity. }
  assert (Hbb : b' = b) by (apply byte_int_inj; congruence).
  rewrite E', Hnn, Hbb, <- app_assoc. rewrite E in Ep. injection Ep as <-.
  reflexivity.
Qed.

Lemma engines_same_schedule (e1 e2 : DES) (B : bytes) :
  subkeys e1 = subkeys e2 -> DesCore.rounds e1 = DesCore.rounds e2 ->
  encrypt_block e1 B = encrypt_block e2 B
  /\ decrypt_block e1 B = decrypt_block e2 B.
Proof.
  intros Hs Hr. unfold encrypt_block, decrypt_block, _process_block.
  rewrite Hs, Hr. split; reflexivity.
Qed.

(** ECB treats every block on its own: the encryption of an 8-byte block
    [A] followed by [P] is the encryption of [A] followed by the ECB
    encryption of [P], so equal plaintext blocks always give equal ciphertext
    blocks. *)
Theorem ECB_blockwise (key : bytes) (rounds kl : Z) (iv : option bytes)
  (A P : bytes) :
  length A = 8%nat ->
  exists e m c rest,
    DES_init key 64 rounds kl iv = Ok e
    /\ Mode_init ECB (Some e) = Ok m
    /\ encrypt_block e A = Ok c
    /\ Modes.encrypt m P = Ok rest
    /\ Modes.encrypt m (A ++ P) = Ok (c ++ rest)
    /\ Modes.encrypt m (A ++ A ++ P) = Ok (c ++ c ++ rest).
Proof.
  intros HA.
  destruct (new_mode_shape key rounds kl iv ECB) as [e [E [He Em]]].
  destruct (pad_app_block A P HA) as [padded [Ep [Hl Eap]]].
  destruct (pad_app_block A (A ++ P) HA) as [padded' [Ep' [_ Eaap]]].
  rewrite Eap in Ep'. injection Ep' as <-.
  destruct (slices_blocks _ padded Hl) as [Hs _].
  destruct (ECB_blocks_roundtrip e He _ Hs) as [cs [Ecs _]].
  destruct (encrypt_block_ok e A He HA) as [c [Ec _]].
  exists e, (mkMode ECB (Some e) 8 iv), c, (concat cs).
  split; [exact E|]. split; [exact Em|]. split; [exact Ec|].
  unfold Modes.encrypt. cbn [cls]. unfold ECB_encrypt. cbn [des block_size_bytes].
  rewrite Ep, Eap, Eaap. cbn [bind]. rewrite !get_blocks_8. cbn [bind].
  rewrite !slices_cons by (lia || assumption). cbn [mapM].
  rewrite Ec, Ecs. cbn [bind concat]. repeat split; reflexivity.
Qed.

Lemma ECB_blockwise_witness :
  exists e m c rest,
    DES_init Samples.key 64 16 64 None = Ok e
    /\ Mode_init ECB (Some e) = Ok m
    /\ encrypt_block e Samples.msg = Ok c
    /\ Modes.encrypt m Samples.iv = Ok rest
    /\ Modes.encrypt m (Samples.msg ++ Samples.iv) = Ok (c ++ rest)
    /\ Modes.encrypt m (Samples.msg ++ Samples.msg ++ Samples.iv)
       = Ok (c ++ c ++ rest).
Proof.
  apply (ECB_blockwise Samples.key 16 64 None Samples.msg Samples.iv).
  reflexivity.
Defined.

Lemma CBC_encrypt_acc (d : DES) : forall (blocks acc : list bytes) (prev : bytes),
  foldM (CBC_encrypt_step d) blocks (acc, prev)
  = (st <- foldM (CBC_encrypt_step d) blocks ([], prev) ;;
     Ok (acc ++ fst st, snd st)).
Proof.
  induction blocks as [|b blocks IH]; intros acc prev.
  - cbn [foldM bind fst snd]. rewrite app_nil_r. reflexivity.
  - cbn [foldM]. unfold CBC_encrypt_step at 1 3.
    destruct (xor_bytes b prev) as [x|err]; [|reflexivity]. cbn [bind].
    destruct (encrypt_block d x) as [c|err]; [|reflexivity]. cbn [bind app].
    rewrite (IH (acc ++ [c])), (IH [c]).
    destruct (foldM (CBC_encrypt_step d) blocks ([], c)) as [[out last]|err];
      [|reflexivity].
    cbn [bind fst snd]. rewrite <- app_assoc. reflexivity.
Qed.

(** CBC chains through the ciphertext: encrypting an 8-byte block [A]
    followed by [P] under IV [v] gives [c = encrypt_block (A xor v)] followed
    by the CBC encryption of [P] under the IV [c]. *)
Theorem CBC_chaining (key : bytes) (rounds kl : Z) (v A P : bytes) :
  length v = 8%nat -> length A = 8%nat ->
  exists e m x c e' m' rest,
    DES_init key 64 rounds kl (Some v) = Ok e
    /\ Mode_init CBC (Some e) = Ok m
    /\ xor_bytes A v = Ok x
    /\ encrypt_block e x = Ok c
    /\ DES_init key 64 rounds kl (Some c) = Ok e'
    /\ Mode_init CBC (Some e') = Ok m'
    /\ Modes.encrypt m' P = Ok rest
    /\ Modes.encrypt m (A ++ P) = Ok (c ++ rest).
Proof.
  intros Hv HA.
  destruct (DES_init_ok key 64 rounds kl (Some v)) as [e [E [He [Hb [Hr [Hi Hs]]]]]].
  destruct (xor_bytes_ok A v) as [x [Ex [Hx _]]].
  rewrite HA, Hv in Hx. simpl in Hx.
  destruct (encrypt_block_ok e x He Hx) as [c [Ec Hc]].
  destruct (DES_init_ok key 64 rounds kl (Some c)) as [e' [E' [He' [Hb' [Hr' [Hi' Hs']]]]]].
  assert (Hsame : forall B, encrypt_block e' B = encrypt_block e B).
  { intros B. apply engines_same_schedule; congruence. }
  destruct (pad_app_block A P HA) as [padded [Ep [Hl Eap]]].
  destruct (slices_blocks _ padded Hl) as [Hsl _].
  destruct (CBC_blocks_roundtrip e He (slices 8 padded) [] c Hsl Hc)
    as [cs [last [Ecs _]]].
  cbn [app] in Ecs.
  assert (Hstep : forall bl st,
            foldM (CBC_encrypt_step e') bl st = foldM (CBC_encrypt_step e) bl st).
  { induction bl as [|b bl IH]; intros [acc prev]; [reflexivity|].
    cbn [foldM]. unfold CBC_encrypt_step at 1 3.
    destruct (xor_bytes b prev); [|reflexivity]. cbn [bind].
    rewrite Hsame. destruct (encrypt_block e a); [|reflexivity].
    cbn [bind]. apply IH. }
  exists e, (mkMode CBC (Some e) 8 (Some v)), x, c,
         e', (mkMode CBC (Some e') 8 (Some c)), (concat cs).
  split; [exact E|].
  split; [unfold Mode_init; rewrite Hb, Hi; reflexivity|].
  split; [exact Ex|]. split; [exact Ec|]. split; [exact E'|].
  split; [unfold Mode_init; rewrite Hb', Hi'; reflexivity|].
  unfold Modes.encrypt. cbn [cls]. unfold CBC_encrypt. cbn [des block_size_bytes].
  rewrite !require_iv_8 by assumption. cbn [bind].
  rewrite Ep, Eap. cbn [bind]. rewrite !get_blocks_8. cbn [bind].
  rewrite Hstep, Ecs. cbn [bind fst]. split; [reflexivity|].
  rewrite slices_cons by (lia || assumption). cbn [foldM].
  unfold CBC_encrypt_step at 1. rewrite Ex. cbn [bind]. rewrite Ec. cbn [bind app].
  rewrite CBC_encrypt_acc, Ecs. cbn [bind fst snd app concat]. reflexivity.
Qed.

Lemma CBC_chaining_witness :
  exists e m x c e' m' rest,
    DES_init Samples.key 64 16 64 (Some Samples.iv) = Ok e
    /\ Mode_init CBC (Some e) = Ok m
    /\ xor_bytes Samples.msg Samples.iv = Ok x
    /\ encrypt_block e x = Ok c
    /\ DES_init Samples.key 64 16 64 (Some c) = Ok e'
    /\ Mode_init CBC (Some e') = Ok m'
    /\ Modes.encrypt m' [] = Ok rest
    /\ Modes.encrypt m (Samples.msg ++ []) = Ok (c ++ rest).
Proof.
  apply (CBC_chaining Samples.key 16 64 Samples.iv Samples.msg []); reflexivity.
Defined.

(** ** What OFB and CTR [decrypt] return for a ciphertext *)

Lemma mapM_snoc {A B : Type} (f : A -> result B) (l : list A) (x : A) :
  mapM f (l ++ [x])
  = (ys <- mapM f l ;; y <- f x ;; Ok (ys ++ [y])).
Proof.
  induction l as [|a l IH]; cbn [app mapM].
  - destruct (f x); reflexivity.
  - destruct (f a); [|reflexivity]. cbn [bind]. rewrite IH.
    destruct (mapM f l); [|reflexivity]. cbn [bind].
    destruct (f x); reflexivity.
Qed.

Lemma combine_seq_snoc {A : Type} (l : list A) (x : A) (k : nat) :
  combine (seq k (length (l ++ [x]))) (l ++ [x])
  = combine (seq k (length l)) l ++ [((k + length l)%nat, x)].
Proof.
  revert k. induction l as [|a l IH]; intros k.
  - cbn. rewrite Nat.add_0_r. reflexivity.
  - cbn [app length seq combine]. rewrite IH. cbn [app].
    replace (S k + length l)%nat with (k + S (length l))%nat by lia.
    reflexivity.
Qed.

Lemma pad_whole_blocks (ct : bytes) :
  (length ct mod 8 = 0)%nat ->
  exists b, byte_int b = 8%Z /\ pad ct 8 = Ok (ct ++ repeat b 8).
Proof.
  intros H. destruct (pad_8 ct) as [n [b [En [_ [Hb E]]]]].
  assert (Hn : n = 8%Z).
  { rewrite En. replace (Z.of_nat (length ct) mod 8)%Z with 0%Z; [reflexivity|].
    change 8%Z with (Z.of_nat 8). rewrite <- Nat2Z.inj_mod, H. reflexivity. }
  exists b. rewrite Hn in Hb, E. split; [exact Hb|exact E].
Qed.

Lemma slices_concat_snoc (cs : list bytes) (pb : bytes) :
  Forall (fun b : bytes => length b = 8%nat) cs -> length pb = 8%nat ->
  slices 8 (concat cs ++ pb) = cs ++ [pb].
Proof.
  intros Hcs Hpb.
  replace (concat cs ++ pb) with (concat (cs ++ [pb]))
    by (rewrite concat_app; cbn [concat]; rewrite app_nil_r; reflexivity).
  apply slices_concat. apply Forall_app. split; [exact Hcs|].
  constructor; [exact Hpb|constructor].
Qed.

Lemma OFB_blocks_involution (d : DES) : Spec.well_formed d ->
  forall (blocks acc : list bytes) (fb : bytes),
  Forall (fun b : bytes => length b = 8%nat) blocks -> length fb = 8%nat ->
  exists cs fb',
    foldM (OFB_step d) blocks (acc, fb) = Ok (acc ++ cs, fb')
    /\ Forall (fun b : bytes => length b = 8%nat) cs
    /\ length cs = length blocks
    /\ length fb' = 8%nat
    /\ forall acc', foldM (OFB_step d) cs (acc', fb) = Ok (acc' ++ blocks, fb').
Proof.
  intros Hd. induction blocks as [|b blocks IH]; intros acc fb Hb Hfb.
  - exists [], fb. cbn [foldM]. rewrite app_nil_r.
    repeat split; [constructor|assumption|].
    intros acc'. rewrite app_nil_r. reflexivity.
  - inversion Hb as [|? ? Hblock Hblocks]; subst.
    destruct (encrypt_block_ok d fb Hd Hfb) as [ks [Ek Hk]].
    destruct (xor_bytes_ok b ks) as [c [Ec [Hc _]]].
    rewrite Hblock, Hk in Hc. simpl in Hc.
    destruct (IH (acc ++ [c]) ks Hblocks Hk) as [cs [fb' [E [H1 [Hn [H2 H3]]]]]].
    exists (c :: cs), fb'. cbn [foldM]. unfold OFB_step at 1.
    rewrite Ek. cbn [bind]. rewrite Ec. cbn [bind]. rewrite E, <- app_assoc.
    split; [reflexivity|]. split; [constructor; assumption|].
    split; [cbn [length]; rewrite Hn; reflexivity|].
    split; [exact H2|].
    intros acc'. cbn [foldM]. unfold OFB_step at 1.
    rewrite Ek. cbn [bind].
    rewrite (xor_bytes_cancel b ks c) by (congruence || assumption).
    cbn [bind]. rewrite H3, <- app_assoc. reflexivity.
Qed.

Lemma CTR_blocks_involution (d : DES) (iv : bytes) : Spec.well_formed d ->
  forall (blocks : list bytes) (k : nat),
  Forall (fun b : bytes => length b = 8%nat) blocks ->
  (int_from_bytes iv + Z.of_nat k + Z.of_nat (length blocks) <= 2 ^ 64)%Z ->
  exists cs,
    mapM (fun ib => ks <- Spec.CTR_keystream d iv 8 (fst ib) ;;
                    xor_bytes (snd ib) ks)
         (combine (seq k (length blocks)) blocks) = Ok cs
    /\ Forall (fun b : bytes => length b = 8%nat) cs
    /\ length cs = length blocks
    /\ mapM (fun ib => ks <- Spec.CTR_keystream d iv 8 (fst ib) ;;
                       xor_bytes (snd ib) ks)
            (combine (seq k (length cs)) cs) = Ok blocks.
Proof.
  intros Hd. induction blocks as [|block blocks IH]; intros k Hb Hk.
  - exists []. repeat split. constructor.
  - inversion Hb as [|? ? Hblock Hblocks]; subst.
    cbn [length] in Hk. pose proof (int_from_bytes_nonneg iv) as Hv.
    destruct (int_to_bytes_8 (int_from_bytes iv + Z.of_nat k)) as [cb [Ecb Hcb]];
      [lia|].
    destruct (encrypt_block_ok d cb Hd Hcb) as [ob [Eo Ho]].
    destruct (xor_bytes_ok block ob) as [c [Ec [Hc _]]].
    rewrite Hblock, Ho in Hc. simpl in Hc.
    destruct (IH (S k) Hblocks) as [cs [E [H1 [H2 H3]]]]; [lia|].
    exists (c :: cs).
    cbn [length seq combine mapM fst snd].
    unfold Spec.CTR_keystream at 1 3. rewrite Ecb. cbn [bind].
    rewrite Eo. cbn [bind]. rewrite Ec. cbn [bind]. rewrite E. cbn [bind].
    split; [reflexivity|]. split; [constructor; assumption|].
    split; [rewrite H2; reflexivity|].
    rewrite (xor_bytes_cancel block ob c) by (congruence || assumption).
    cbn [bind]. rewrite H3. reflexivity.
Qed.

(** What the missing [unpad] of OFB and CTR leaves behind: decrypting the
    encryption of [P] returns the padded [P] followed by exactly one more
    block, so the plaintext is still there, as the [unpad] of the result cut
    to the length of the ciphertext. *)
Theorem stream_decrypt_returns_padded_plaintext (key : bytes) (rounds kl : Z)
  (v P : bytes) (c : kind) :
  length v = 8%nat -> c = OFB \/ c = CTR ->
  (c = CTR -> (int_from_bytes v + Z.of_nat (length P / 8 + 2) <= 2 ^ 64)%Z) ->
  exists e m ct padded tail,
    DES_init key 64 rounds kl (Some v) = Ok e
    /\ Mode_init c (Some e) = Ok m
    /\ Modes.encrypt m P = Ok ct
    /\ pad P 8 = Ok padded
    /\ length ct = length padded
    /\ Modes.decrypt m ct = Ok (padded ++ tail)
    /\ length tail = 8%nat
    /\ unpad (firstn (length ct) (padded ++ tail)) 8 = P.
Proof.
  intros Hv Hc Hbound.
  destruct (new_mode_shape key rounds kl (Some v) c) as [e [E [He Em]]].
  destruct (pad_blocks P) as [padded [Ep [Hp Hu]]].
  destruct (slices_blocks _ padded Hp) as [Hs1 [Hs2 Hs3]].
  exists e, (mkMode c (Some e) 8 (Some v)).
  assert (Hfin : forall ct tail : bytes, length ct = length padded ->
            unpad (firstn (length ct) (padded ++ tail)) 8 = P).
  { intros ct tail Hl. rewrite Hl, firstn_app, Nat.sub_diag, firstn_all.
    cbn [firstn]. rewrite app_nil_r. exact Hu. }
  assert (Hdec : forall x, Modes.decrypt (mkMode c (Some e) 8 (Some v)) x
                           = Modes.encrypt (mkMode c (Some e) 8 (Some v)) x)
    by (intros x; apply stream_decrypt_is_encrypt; exact Hc).
  destruct Hc as [-> | ->].
  - destruct (OFB_blocks_involution e He (slices 8 padded) [] v Hs1 Hv)
      as [cs [fb' [E1 [H1 [Hn [H2 E2]]]]]].
    cbn [app] in E1.
    assert (Hct : length (concat cs) = length padded)
      by (rewrite length_concat_blocks, Hn, Hs2, Hp by assumption; reflexivity).
    destruct (pad_whole_blocks (concat cs)) as [b [Hb Epc]].
    { rewrite length_concat_blocks by assumption.
      rewrite Nat.mul_comm. apply Nat.Div0.mod_mul. }
    assert (Hpb : length (repeat b 8) = 8%nat) by apply repeat_length.
    destruct (encrypt_block_ok e fb' He H2) as [ks [Ek Hk]].
    destruct (xor_bytes_ok (repeat b 8) ks) as [t [Et [Ht _]]].
    rewrite Hpb, Hk in Ht. simpl in Ht.
    exists (concat cs), padded, t.
    split; [exact E|]. split; [exact Em|].
    rewrite Hdec. unfold Modes.encrypt. cbn [cls].
    unfold OFB_encrypt. cbn [des block_size_bytes].
    rewrite !require_iv_8 by assumption. cbn [bind].
    rewrite Ep, Epc. cbn [bind]. rewrite !get_blocks_8. cbn [bind].
    rewrite E1. cbn [bind fst].
    split; [reflexivity|]. split; [reflexivity|]. split; [exact Hct|].
    split; [|split; [exact Ht|apply Hfin; exact Hct]].
    rewrite slices_concat_snoc by assumption.
    rewrite foldM_app, (E2 []). cbn [bind foldM app].
    unfold OFB_step. rewrite Ek. cbn [bind]. rewrite Et. cbn [bind fst].
    rewrite concat_app, Hs3. cbn [concat]. rewrite app_nil_r. reflexivity.
  - specialize (Hbound eq_refl). pose proof (int_from_bytes_nonneg v) as Hv0.
    destruct (CTR_blocks_involution e v He (slices 8 padded) 0 Hs1)
      as [cs [E1 [H1 [H2 E2]]]]; [rewrite Hs2; lia|].
    assert (Hct : length (concat cs) = length padded)
      by (rewrite length_concat_blocks, H2, Hs2, Hp by assumption; reflexivity).
    destruct (pad_whole_blocks (concat cs)) as [b [Hb Epc]].
    { rewrite length_concat_blocks by assumption.
      rewrite Nat.mul_comm. apply Nat.Div0.mod_mul. }
    assert (Hpb : length (repeat b 8) = 8%nat) by apply repeat_length.
    destruct (int_to_bytes_8 (int_from_bytes v + Z.of_nat (0 + length cs)))
      as [cb [Ecb Hcb]]; [rewrite H2, Hs2; lia|].
    destruct (encrypt_block_ok e cb He Hcb) as [ks [Ek Hk]].
    destruct (xor_bytes_ok (repeat b 8) ks) as [t [Et [Ht _]]].
    rewrite Hpb, Hk in Ht. simpl in Ht.
    exists (concat cs), padded, t.
    split; [exact E|]. split; [exact Em|].
    rewrite Hdec. unfold Modes.encrypt. cbn [cls].
    rewrite (CTR_encrypt_blocks e v P padded Hv Ep).
    rewrite (CTR_encrypt_blocks e v (concat cs) _ Hv Epc).
    rewrite E1. cbn [bind].
    split; [reflexivity|]. split; [exact Ep|]. split; [exact Hct|].
    split; [|split; [exact Ht|apply Hfin; exact Hct]].
    rewrite slices_concat_snoc by assumption.
    rewrite combine_seq_snoc, mapM_snoc, E2. cbn [bind fst snd].
    unfold Spec.CTR_keystream. rewrite Ecb. cbn [bind]. rewrite Ek. cbn [bind].
    rewrite Et. cbn [bind].
    rewrite concat_app, Hs3. cbn [concat]. rewrite app_nil_r. reflexivity.
Qed.

Lemma stream_decrypt_returns_padded_plaintext_witness :
  exists e m ct padded tail,
    DES_init Samples.key 64 16 64 (Some Samples.iv) = Ok e
    /\ Mode_init CTR (Some e) = Ok m
    /\ Modes.encrypt m Samples.msg = Ok ct
    /\ pad Samples.msg 8 = Ok padded
    /\ length ct = length padded
    /\ Modes.decrypt m ct = Ok (padded ++ tail)
    /\ length tail = 8%nat
    /\ unpad (firstn (length ct) (padded ++ tail)) 8 = Samples.msg.
Proof.
  apply (stream_decrypt_returns_padded_plaintext Samples.key 16 64 Samples.iv
           Samples.msg CTR).
  - reflexivity.
  - right. reflexivity.
  - intros _. vm_compute. discriminate.
Defined.

(** ** The IV a mode is given *)

Lemma foldM_ext {S A : Type} (f g : S -> A -> result S) :
  (forall s x, f s x = g s x) ->
  forall l s, foldM f l s = foldM g l s.
Proof.
  intros H. induction l as [|x l IH]; intros s; [reflexivity|].
  cbn [foldM]. rewrite H. destruct (g s x); [apply IH|reflexivity].
Qed.

Lemma encrypt_block_bad_length (e : DES) (B : bytes) :
  length B <> 8%nat -> encrypt_block e B = Raise ValueError.
Proof.
  intros H. unfold encrypt_block, _process_block.
  destruct (Nat.eqb_spec (length B) 8); [contradiction|reflexivity].
Qed.

Lemma padded_first_block (P : bytes) :
  exists padded b0 rest,
    pad P 8 = Ok padded /\ slices 8 padded = b0 :: rest
    /\ length b0 = 8%nat
    /\ Forall (fun b : bytes => length b = 8%nat) rest.
Proof.
  destruct (pad_blocks P) as [padded [Ep [Hp _]]].
  destruct (slices_blocks _ padded Hp) as [Hs1 [Hs2 _]].
  destruct (slices 8 padded) as [|b0 rest] eqn:Es; [simpl in Hs2; lia|].
  inversion Hs1; subst.
  exists padded, b0, rest. repeat split; assumption.
Qed.

(** A plaintext shorter than one block encrypts to the same 8 bytes in CFB,
    OFB and CTR: all three XOR the padded block with [encrypt_block] of the
    IV. *)
Theorem short_message_same_in_stream_modes (key : bytes) (rounds kl : Z)
  (v P : bytes) :
  length v = 8%nat -> (length P < 8)%nat ->
  exists e m1 m2 m3 padded ks ct,
    DES_init key 64 rounds kl (Some v) = Ok e
    /\ Mode_init CFB (Some e) = Ok m1
    /\ Mode_init OFB (Some e) = Ok m2
    /\ Mode_init CTR (Some e) = Ok m3
    /\ pad P 8 = Ok padded
    /\ encrypt_block e v = Ok ks
    /\ xor_bytes padded ks = Ok ct
    /\ Modes.encrypt m1 P = Ok ct
    /\ Modes.encrypt m2 P = Ok ct
    /\ Modes.encrypt m3 P = Ok ct.
Proof.
  intros Hv HP.
  destruct (DES_init_ok key 64 rounds kl (Some v)) as [e [E [He [Hb [_ [Hi _]]]]]].
  destruct (pad_blocks P) as [padded [Ep [Hp _]]].
  rewrite Nat.div_small in Hp by exact HP. simpl in Hp.
  destruct (encrypt_block_ok e v He Hv) as [ks [Ek Hk]].
  destruct (xor_bytes_ok padded ks) as [ct [Ec _]].
  assert (Em : forall c, Mode_init c (Some e) = Ok (mkMode c (Some e) 8 (Some v)))
    by (intros c; unfold Mode_init; rewrite Hb, Hi; reflexivity).
  assert (Hs : slices 8 padded = [padded]) by (apply slices_short; lia).
  exists e, (mkMode CFB (Some e) 8 (Some v)), (mkMode OFB (Some e) 8 (Some v)),
         (mkMode CTR (Some e) 8 (Some v)), padded, ks, ct.
  split; [exact E|]. do 3 (split; [apply Em|]).
  split; [exact Ep|]. split; [exact Ek|]. split; [exact Ec|].
  unfold Modes.encrypt. cbn [cls].
  unfold CFB_encrypt, OFB_encrypt, CTR_encrypt. cbn [des block_size_bytes].
  rewrite !require_iv_8 by assumption. cbn [bind].
  rewrite Ep. cbn [bind]. rewrite !get_blocks_8. cbn [bind]. rewrite Hs.
  cbn [foldM]. unfold CFB_encrypt_step, OFB_step, CTR_step.
  rewrite int_to_bytes_from_bytes by assumption. cbn [bind].
  rewrite Ek. cbn [bind]. rewrite Ec. cbn [bind fst app concat].
  rewrite app_nil_r. repeat split; reflexivity.
Qed.

Lemma short_message_same_in_stream_modes_witness :
  exists e m1 m2 m3 padded ks ct,
    DES_init Samples.key 64 16 64 (Some Samples.iv) = Ok e
    /\ Mode_init CFB (Some e) = Ok m1
    /\ Mode_init OFB (Some e) = Ok m2
    /\ Mode_init CTR (Some e) = Ok m3
    /\ pad [x41] 8 = Ok padded
    /\ encrypt_block e Samples.iv = Ok ks
    /\ xor_bytes padded ks = Ok ct
    /\ Modes.encrypt m1 [x41] = Ok ct
    /\ Modes.encrypt m2 [x41] = Ok ct
    /\ Modes.encrypt m3 [x41] = Ok ct.
Proof.
  apply (short_message_same_in_stream_modes Samples.key 16 64 Samples.iv [x41]).
  - reflexivity.
  - simpl. lia.
Defined.

(** The IV's length is never checked as such.  In CFB and OFB a non-empty
    IV of any length other than 8 makes every [encrypt] raise [ValueError]
    (from the block primitive), and so does a non-empty IV shorter than 8 in
    CBC. *)
Theorem wrong_length_iv_rejected (key : bytes) (rounds kl : Z) (v P : bytes)
  (c : kind) :
  v <> [] -> length v <> 8%nat ->
  c = CFB \/ c = OFB \/ (c = CBC /\ (length v < 8)%nat) ->
  exists e m,
    DES_init key 64 rounds kl (Some v) = Ok e
    /\ Mode_init c (Some e) = Ok m
    /\ Modes.encrypt m P = Raise ValueError.
Proof.
  intros Hne Hv Hc.
  destruct (DES_init_ok key 64 rounds kl (Some v)) as [e [E [He [Hb [_ [Hi _]]]]]].
  destruct (padded_first_block P) as [padded [b0 [rest [Ep [Es [H0 _]]]]]].
  exists e, (mkMode c (Some e) 8 (Some v)).
  split; [exact E|].
  split; [unfold Mode_init; rewrite Hb, Hi; reflexivity|].
  assert (Hreq : forall k, require_iv (mkMode k (Some e) 8 (Some v)) = Ok v)
    by (intros k; destruct v; [congruence|reflexivity]).
  unfold Modes.encrypt. cbn [cls].
  destruct Hc as [-> | [-> | [-> Hlt]]].
  - unfold CFB_encrypt. cbn [des block_size_bytes]. rewrite Hreq. cbn [bind].
    rewrite Ep. cbn [bind]. rewrite get_blocks_8, Es. cbn [bind foldM].
    unfold CFB_encrypt_step at 1.
    rewrite encrypt_block_bad_length by exact Hv. reflexivity.
  - unfold OFB_encrypt. cbn [des block_size_bytes]. rewrite Hreq. cbn [bind].
    rewrite Ep. cbn [bind]. rewrite get_blocks_8, Es. cbn [bind foldM].
    unfold OFB_step at 1.
    rewrite encrypt_block_bad_length by exact Hv. reflexivity.
  - unfold CBC_encrypt. cbn [des block_size_bytes]. rewrite Hreq. cbn [bind].
    rewrite Ep. cbn [bind]. rewrite get_blocks_8, Es. cbn [bind foldM].
    unfold CBC_encrypt_step at 1.
    destruct (xor_bytes_ok b0 v) as [x [Ex [Hx _]]].
    rewrite Ex. cbn [bind].
    rewrite encrypt_block_bad_length by (rewrite Hx, H0; lia). reflexivity.
Qed.

Lemma wrong_length_iv_rejected_witness :
  exists e m,
    DES_init Samples.key 64 16 64 (Some [x31; x32; x33; x34]) = Ok e
    /\ Mode_init CBC (Some e) = Ok m
    /\ Modes.encrypt m Samples.msg = Raise ValueError.
Proof.
  apply (wrong_length_iv_rejected Samples.key 16 64 [x31; x32; x33; x34]
           Samples.msg CBC).
  - discriminate.
  - simpl. lia.
  - right. right. split; [reflexivity|simpl; lia].
Defined.

Lemma xor_bytes_tail_ignored (a v extra : bytes) :
  (length a <= length v)%nat -> xor_bytes a (v ++ extra) = xor_bytes a v.
Proof.
  intros H. unfold xor_bytes. f_equal. f_equal.
  revert v H. induction a as [|x a IH]; intros v H; [reflexivity|].
  destruct v as [|y v]; [simpl in H; lia|].
  cbn [app combine]. f_equal. apply IH. simpl in H. lia.
Qed.

Lemma length_slices_le (n : nat) (s : bytes) :
  Forall (fun b : bytes => (length b <= n)%nat) (slices n s).
Proof.
  unfold slices. apply Forall_forall. intros b Hb.
  apply in_map_iff in Hb. destruct Hb as [k [<- _]].
  rewrite length_firstn. lia.
Qed.

(** CBC reads only the first 8 bytes of its IV: an IV of 8 bytes followed
    by anything encrypts and decrypts every input exactly as the 8-byte IV
    does. *)
Theorem CBC_iv_tail_ignored (key : bytes) (rounds kl : Z)
  (v extra data : bytes) :
  length v = 8%nat ->
  exists e m e' m',
    DES_init key 64 rounds kl (Some v) = Ok e
    /\ Mode_init CBC (Some e) = Ok m
    /\ DES_init key 64 rounds kl (Some (v ++ extra)) = Ok e'
    /\ Mode_init CBC (Some e') = Ok m'
    /\ Modes.encrypt m' data = Modes.encrypt m data
    /\ Modes.decrypt m' data = Modes.decrypt m data.
Proof.
  intros Hv.
  destruct (DES_init_ok key 64 rounds kl (Some v))
    as [e [E [He [Hb [Hr [Hi Hs]]]]]].
  destruct (DES_init_ok key 64 rounds kl (Some (v ++ extra)))
    as [e' [E' [He' [Hb' [Hr' [Hi' Hs']]]]]].
  assert (Hsame : forall B, encrypt_block e' B = encrypt_block e B
                            /\ decrypt_block e' B = decrypt_block e B)
    by (intros B; apply engines_same_schedule; congruence).
  exists e, (mkMode CBC (Some e) 8 (Some v)),
         e', (mkMode CBC (Some e') 8 (Some (v ++ extra))).
  split; [exact E|].
  split; [unfold Mode_init; rewrite Hb, Hi; reflexivity|].
  split; [exact E'|].
  split; [unfold Mode_init; rewrite Hb', Hi'; reflexivity|].
  assert (Hreq : require_iv (mkMode CBC (Some e') 8 (Some (v ++ extra)))
                 = Ok (v ++ extra))
    by (destruct v; [discriminate Hv|reflexivity]).
  assert (Henc : forall bl st,
            foldM (CBC_encrypt_step e') bl st = foldM (CBC_encrypt_step e) bl st).
  { intros bl st. apply foldM_ext. intros [acc prev] b.
    unfold CBC_encrypt_step. destruct (xor_bytes b prev); [|reflexivity].
    cbn [bind]. rewrite (proj1 (Hsame _)). reflexivity. }
  assert (Hdec : forall bl st,
            foldM (CBC_decrypt_step e') bl st = foldM (CBC_decrypt_step e) bl st).
  { intros bl st. apply foldM_ext. intros [acc prev] b.
    unfold CBC_decrypt_step. rewrite (proj2 (Hsame _)). reflexivity. }
  unfold Modes.encrypt, Modes.decrypt. cbn [cls].
  unfold CBC_encrypt, CBC_decrypt. cbn [des block_size_bytes].
  rewrite Hreq, require_iv_8 by assumption. cbn [bind]. split.
  - destruct (pad data 8) as [padded|err]; [|reflexivity]. cbn [bind].
    rewrite !get_blocks_8. cbn [bind]. rewrite Henc.
    pose proof (length_slices_le 8 padded) as Hle.
    destruct (slices 8 padded) as [|b0 rest]; [reflexivity|].
    inversion Hle; subst. cbn [foldM]. unfold CBC_encrypt_step at 1 3.
    rewrite xor_bytes_tail_ignored by lia. reflexivity.
  - rewrite !get_blocks_8. cbn [bind]. rewrite Hdec.
    destruct (slices 8 data) as [|b0 rest]; [reflexivity|].
    cbn [foldM]. unfold CBC_decrypt_step at 1 3.
    destruct (Nat.eq_dec (length b0) 8) as [H8|H8].
    + destruct (decrypt_block_roundtrip e b0 He H8) as [x [Ex [Hx _]]].
      rewrite Ex. cbn [bind].
      rewrite xor_bytes_tail_ignored by lia. reflexivity.
    + unfold decrypt_block, _process_block.
      destruct (Nat.eqb_spec (length b0) 8); [contradiction|reflexivity].
Qed.

Lemma CBC_iv_tail_ignored_witness :
  exists e m e' m',
    DES_init Samples.key 64 16 64 (Some Samples.iv) = Ok e
    /\ Mode_init CBC (Some e) = Ok m
    /\ DES_init Samples.key 64 16 64 (Some (Samples.iv ++ Samples.msg)) = Ok e'
    /\ Mode_init CBC (Some e') = Ok m'
    /\ Modes.encrypt m' Samples.msg = Modes.encrypt m Samples.msg
    /\ Modes.decrypt m' Samples.msg = Modes.decrypt m Samples.msg.
Proof.
  apply (CBC_iv_tail_ignored Samples.key 16 64 Samples.iv Samples.msg Samples.msg).
  reflexivity.
Defined.

(** CTR uses its IV only as a number: two non-empty IVs with the same
    big-endian value (an IV and the same IV behind zero bytes, say) give the
    same result on every input, whatever their lengths. *)
Theorem CTR_iv_by_value (key : bytes) (rounds kl : Z) (v1 v2 data : bytes) :
  v1 <> [] -> v2 <> [] -> int_from_bytes v1 = int_from_bytes v2 ->
  exists e1 m1 e2 m2,
    DES_init key 64 rounds kl (Some v1) = Ok e1
    /\ Mode_init CTR (Some e1) = Ok m1
    /\ DES_init key 64 rounds kl (Some v2) = Ok e2
    /\ Mode_init CTR (Some e2) = Ok m2
    /\ Modes.encrypt m1 data = Modes.encrypt m2 data
    /\ Modes.decrypt m1 data = Modes.decrypt m2 data.
Proof.
  intros H1 H2 Hval.
  destruct (DES_init_ok key 64 rounds kl (Some v1))
    as [e1 [E1 [_ [Hb1 [Hr1 [Hi1 Hs1]]]]]].
  destruct (DES_init_ok key 64 rounds kl (Some v2))
    as [e2 [E2 [_ [Hb2 [Hr2 [Hi2 Hs2]]]]]].
  assert (Hsame : forall B, encrypt_block e1 B = encrypt_block e2 B)
    by (intros B; apply engines_same_schedule; congruence).
  exists e1, (mkMode CTR (Some e1) 8 (Some v1)),
         e2, (mkMode CTR (Some e2) 8 (Some v2)).
  split; [exact E1|].
  split; [unfold Mode_init; rewrite Hb1, Hi1; reflexivity|].
  split; [exact E2|].
  split; [unfold Mode_init; rewrite Hb2, Hi2; reflexivity|].
  assert (Henc : Modes.encrypt (mkMode CTR (Some e1) 8 (Some v1)) data
                 = Modes.encrypt (mkMode CTR (Some e2) 8 (Some v2)) data).
  { unfold Modes.encrypt. cbn [cls]. unfold CTR_encrypt.
    cbn [des block_size_bytes].
    replace (require_iv (mkMode CTR (Some e1) 8 (Some v1))) with (Ok v1)
      by (destruct v1; [congruence|reflexivity]).
    replace (require_iv (mkMode CTR (Some e2) 8 (Some v2))) with (Ok v2)
      by (destruct v2; [congruence|reflexivity]).
    cbn [bind]. rewrite Hval.
    destruct (pad data 8) as [padded|err]; [|reflexivity]. cbn [bind].
    rewrite !get_blocks_8. cbn [bind].
    rewrite (foldM_ext (CTR_step e1 8) (CTR_step e2 8)); [reflexivity|].
    intros [acc ctr] b. unfold CTR_step.
    destruct (int_to_bytes ctr 8); [|reflexivity]. cbn [bind].
    rewrite Hsame. reflexivity. }
  split; [exact Henc|].
  rewrite !stream_decrypt_is_encrypt by (right; reflexivity). exact Henc.
Qed.

Lemma CTR_iv_by_value_witness :
  exists e1 m1 e2 m2,
    DES_init Samples.key 64 16 64 (Some [x00; x01]) = Ok e1
    /\ Mode_init CTR (Some e1) = Ok m1
    /\ DES_init Samples.key 64 16 64 (Some [x01]) = Ok e2
    /\ Mode_init CTR (Some e2) = Ok m2
    /\ Modes.encrypt m1 Samples.msg = Modes.encrypt m2 Samples.msg
    /\ Modes.decrypt m1 Samples.msg = Modes.decrypt m2 Samples.msg.
Proof.
  apply (CTR_iv_by_value Samples.key 16 64 [x00; x01] [x01] Samples.msg).
  - discriminate.
  - discriminate.
  - reflexivity.
Defined.

(** ** A ciphertext that is not a whole number of blocks *)

Lemma slices_partial (k : nat) : forall data : bytes,
  (8 * k < length data < 8 * k + 8)%nat ->
  exists ws p, slices 8 data = ws ++ [p]
               /\ Forall (fun b : bytes => length b = 8%nat) ws
               /\ (0 < length p < 8)%nat.
Proof.
  induction k as [|k IH]; intros data H.
  - exists [], data. split; [apply slices_short; lia|].
    split; [constructor|lia].
  - destruct (IH (skipn 8 data)) as [ws [p [E [Hw Hp]]]];
      [rewrite length_skipn; lia|].
    exists (firstn 8 data :: ws), p.
    rewrite slices_step by lia. rewrite E.
    split; [reflexivity|]. split; [|exact Hp].
    constructor; [rewrite length_firstn; lia|exact Hw].
Qed.

Lemma decrypt_block_bad_length (e : DES) (B : bytes) :
  length B <> 8%nat -> decrypt_block e B = Raise ValueError.
Proof.
  intros H. unfold decrypt_block, _process_block.
  destruct (Nat.eqb_spec (length B) 8); [contradiction|reflexivity].
Qed.

Lemma ECB_decrypt_blocks_ok (d : DES) : Spec.well_formed d ->
  forall ws : list bytes, Forall (fun b : bytes => length b = 8%nat) ws ->
  exists out, mapM (decrypt_block d) ws = Ok out.
Proof.
  intros Hd. induction 1 as [|b ws Hb Hws [out E]].
  - exists []. reflexivity.
  - destruct (decrypt_block_roundtrip d b Hd Hb) as [x [Ex _]].
    exists (x :: out). cbn [mapM]. rewrite Ex, E. reflexivity.
Qed.

Lemma CBC_decrypt_blocks_ok (d : DES) : Spec.well_formed d ->
  forall (ws acc : list bytes) (prev : bytes),
  Forall (fun b : bytes => length b = 8%nat) ws ->
  exists st, foldM (CBC_decrypt_step d) ws (acc, prev) = Ok st.
Proof.
  intros Hd. induction ws as [|b ws IH]; intros acc prev Hws.
  - exists (acc, prev). reflexivity.
  - inversion Hws as [|? ? Hb Hws']; subst.
    destruct (decrypt_block_roundtrip d b Hd Hb) as [x [Ex _]].
    destruct (xor_bytes_ok x prev) as [p [Ep _]].
    destruct (IH (acc ++ [p]) b Hws') as [st E].
    exists st. cbn [foldM]. unfold CBC_decrypt_step at 1.
    rewrite Ex. cbn [bind]. rewrite Ep. cbn [bind]. exact E.
Qed.

Lemma CFB_decrypt_blocks_ok (d : DES) : Spec.well_formed d ->
  forall (ws acc : list bytes) (prev : bytes),
  Forall (fun b : bytes => length b = 8%nat) ws -> length prev = 8%nat ->
  exists out last, foldM (CFB_decrypt_step d) ws (acc, prev) = Ok (out, last)
                   /\ length last = 8%nat.
Proof.
  intros Hd. induction ws as [|b ws IH]; intros acc prev Hws Hprev.
  - exists acc, prev. split; [reflexivity|exact Hprev].
  - inversion Hws as [|? ? Hb Hws']; subst.
    destruct (encrypt_block_ok d prev Hd Hprev) as [ks [Ek _]].
    destruct (xor_bytes_ok b ks) as [p [Ep _]].
    destruct (IH (acc ++ [p]) b Hws' Hb) as [out [last [E Hl]]].
    exists out, last. cbn [foldM]. unfold CFB_decrypt_step at 1.
    rewrite Ek. cbn [bind]. rewrite Ep. cbn [bind]. split; [exact E|exact Hl].
Qed.

(** A ciphertext whose length is not a multiple of 8 makes ECB and CBC
    [decrypt] raise [ValueError] (the last, short block reaches the block
    primitive), while CFB [decrypt] accepts it: CFB only ever feeds whole
    blocks to the primitive and XORs the short block with a keystream cut to
    its length. *)
Theorem partial_final_block (key : bytes) (rounds kl : Z) (v ct : bytes) :
  length v = 8%nat -> (length ct mod 8 <> 0)%nat ->
  exists e m1 m2 m3,
    DES_init key 64 rounds kl (Some v) = Ok e
    /\ Mode_init ECB (Some e) = Ok m1
    /\ Mode_init CBC (Some e) = Ok m2
    /\ Mode_init CFB (Some e) = Ok m3
    /\ Modes.decrypt m1 ct = Raise ValueError
    /\ Modes.decrypt m2 ct = Raise ValueError
    /\ exists out, Modes.decrypt m3 ct = Ok out.
Proof.
  intros Hv Hct.
  destruct (DES_init_ok key 64 rounds kl (Some v)) as [e [E [He [Hb [_ [Hi _]]]]]].
  assert (Em : forall c, Mode_init c (Some e) = Ok (mkMode c (Some e) 8 (Some v)))
    by (intros c; unfold Mode_init; rewrite Hb, Hi; reflexivity).
  destruct (slices_partial (length ct / 8) ct) as [ws [p [Es [Hw Hp]]]].
  { pose proof (Nat.div_mod_eq (length ct) 8).
    pose proof (Nat.mod_upper_bound (length ct) 8). lia. }
  exists e, (mkMode ECB (Some e) 8 (Some v)), (mkMode CBC (Some e) 8 (Some v)),
         (mkMode CFB (Some e) 8 (Some v)).
  split; [exact E|]. do 3 (split; [apply Em|]).
  unfold Modes.decrypt. cbn [cls].
  unfold ECB_decrypt, CBC_decrypt, CFB_decrypt. cbn [des block_size_bytes].
  rewrite !require_iv_8 by assumption. cbn [bind].
  rewrite !get_blocks_8, Es. cbn [bind]. split; [|split].
  - destruct (ECB_decrypt_blocks_ok e He ws Hw) as [out Eo].
    rewrite mapM_snoc, Eo. cbn [bind].
    rewrite decrypt_block_bad_length by lia. reflexivity.
  - destruct (CBC_decrypt_blocks_ok e He ws [] v Hw) as [[acc prev] Eo].
    rewrite foldM_app, Eo. cbn [bind foldM]. unfold CBC_decrypt_step.
    rewrite decrypt_block_bad_length by lia. reflexivity.
  - destruct (CFB_decrypt_blocks_ok e He ws [] v Hw Hv) as [acc [prev [Eo Hl]]].
    rewrite foldM_app, Eo. cbn [bind foldM]. unfold CFB_decrypt_step.
    destruct (encrypt_block_ok e prev He Hl) as [ks [Ek _]].
    rewrite Ek. cbn [bind].
    destruct (xor_bytes_ok p ks) as [x [Ex _]]. rewrite Ex. cbn [bind fst].
    eexists. reflexivity.
Qed.

Lemma partial_final_block_witness :
  exists e m1 m2 m3,
    DES_init Samples.key 64 16 64 (Some Samples.iv) = Ok e
    /\ Mode_init ECB (Some e) = Ok m1
    /\ Mode_init CBC (Some e) = Ok m2
    /\ Mode_init CFB (Some e) = Ok m3
    /\ Modes.decrypt m1 [x41; x42; x43] = Raise ValueError
    /\ Modes.decrypt m2 [x41; x42; x43] = Raise ValueError
    /\ exists out, Modes.decrypt m3 [x41; x42; x43] = Ok out.
Proof.
  apply (partial_final_block Samples.key 16 64 Samples.iv [x41; x42; x43]).
  - reflexivity.
  - simpl. lia.
Defined.

(** ** Reusing an IV in OFB and CTR *)

Lemma mapM_app {A B : Type} (f : A -> result B) (l1 l2 : list A) :
  mapM f (l1 ++ l2)
  = (y1 <- mapM f l1 ;; y2 <- mapM f l2 ;; Ok (y1 ++ y2)).
Proof.
  induction l1 as [|x l1 IH]; cbn [app mapM].
  - cbn [bind]. destruct (mapM f l2); reflexivity.
  - destruct (f x); [|reflexivity]. cbn [bind]. rewrite IH.
    destruct (mapM f l1); [|reflexivity]. cbn [bind].
    destruct (mapM f l2); reflexivity.
Qed.

Lemma xor_bytes_app (a b x y : bytes) :
  length a = length b ->
  xor_bytes (a ++ x) (b ++ y)
  = (r1 <- xor_bytes a b ;; r2 <- xor_bytes x y ;; Ok (r1 ++ r2)).
Proof.
  intros H. unfold xor_bytes, bytes_of_ints.
  assert (Hc : combine (a ++ x) (b ++ y) = combine a b ++ combine x y).
  { revert b H. induction a as [|p a IH]; intros [|q b] H; try discriminate H.
    - reflexivity.
    - cbn [app combine]. f_equal. apply IH. simpl in H. lia. }
  rewrite Hc, map_app. apply mapM_app.
Qed.

Lemma xor_bytes_same_pad (b1 b2 k c1 c2 : bytes) :
  length b1 = length k -> length b2 = length k ->
  xor_bytes b1 k = Ok c1 -> xor_bytes b2 k = Ok c2 ->
  xor_bytes c1 c2 = xor_bytes b1 b2.
Proof.
  intros H1 H2 E1 E2.
  destruct (xor_bytes_ok b1 k) as [c1' [E1' [_ M1]]].
  destruct (xor_bytes_ok b2 k) as [c2' [E2' [_ M2]]].
  rewrite E1 in E1'. injection E1' as <-.
  rewrite E2 in E2'. injection E2' as <-.
  unfold xor_bytes. f_equal. clear E1 E2.
  revert b1 b2 c1 c2 H1 H2 M1 M2.
  induction k as [|z k IH]; intros [|x1 b1] [|x2 b2] [|y1 c1] [|y2 c2] H1 H2 M1 M2;
    try discriminate; [reflexivity|].
  cbn [combine map fst snd] in *.
  injection M1 as M1h M1t. injection M2 as M2h M2t.
  rewrite M1h, M2h. f_equal.
  - rewrite Z.lxor_assoc, (Z.lxor_comm (byte_int z)), Z.lxor_assoc,
      Z.lxor_nilpotent, Z.lxor_0_r. reflexivity.
  - apply IH; simpl in H1, H2; (lia || assumption).
Qed.

Lemma OFB_two_messages (d : DES) : Spec.well_formed d ->
  forall (bl1 bl2 acc1 acc2 : list bytes) (fb : bytes),
  Forall (fun b : bytes => length b = 8%nat) bl1 ->
  Forall (fun b : bytes => length b = 8%nat) bl2 ->
  length bl1 = length bl2 -> length fb = 8%nat ->
  exists cs1 cs2 fb',
    foldM (OFB_step d) bl1 (acc1, fb) = Ok (acc1 ++ cs1, fb')
    /\ foldM (OFB_step d) bl2 (acc2, fb) = Ok (acc2 ++ cs2, fb')
    /\ xor_bytes (concat cs1) (concat cs2) = xor_bytes (concat bl1) (concat bl2).
Proof.
  intros Hd. induction bl1 as [|b1 bl1 IH]; intros [|b2 bl2] acc1 acc2 fb F1 F2 Hl Hfb;
    try discriminate Hl.
  - exists [], [], fb. cbn [foldM]. rewrite !app_nil_r. repeat split.
  - inversion F1 as [|? ? Hb1 F1']; inversion F2 as [|? ? Hb2 F2']; subst.
    destruct (encrypt_block_ok d fb Hd Hfb) as [ks [Ek Hk]].
    destruct (xor_bytes_ok b1 ks) as [c1 [E1 [Hc1 _]]].
    destruct (xor_bytes_ok b2 ks) as [c2 [E2 [Hc2 _]]].
    rewrite Hb1, Hk in Hc1. rewrite Hb2, Hk in Hc2. simpl in Hc1, Hc2.
    destruct (IH bl2 (acc1 ++ [c1]) (acc2 ++ [c2]) ks F1' F2')
      as [cs1 [cs2 [fb' [R1 [R2 X]]]]]; [simpl in Hl; lia|exact Hk|].
    exists (c1 :: cs1), (c2 :: cs2), fb'. cbn [foldM]. unfold OFB_step at 1 3.
    rewrite Ek. cbn [bind]. rewrite E1, E2. cbn [bind].
    rewrite R1, R2, <- !app_assoc.
    split; [reflexivity|]. split; [reflexivity|].
    cbn [concat]. rewrite !xor_bytes_app by congruence.
    rewrite X, (xor_bytes_same_pad b1 b2 ks c1 c2) by congruence.
    reflexivity.
Qed.

Lemma CTR_two_messages (d : DES) (iv : bytes) : Spec.well_formed d ->
  forall (bl1 bl2 : list bytes) (k : nat),
  Forall (fun b : bytes => length b = 8%nat) bl1 ->
  Forall (fun b : bytes => length b = 8%nat) bl2 ->
  length bl1 = length bl2 ->
  (int_from_bytes iv + Z.of_nat k + Z.of_nat (length bl1) <= 2 ^ 64)%Z ->
  exists cs1 cs2,
    mapM (fun ib => ks <- Spec.CTR_keystream d iv 8 (fst ib) ;;
                    xor_bytes (snd ib) ks)
         (combine (seq k (length bl1)) bl1) = Ok cs1
    /\ mapM (fun ib => ks <- Spec.CTR_keystream d iv 8 (fst ib) ;;
                       xor_bytes (snd ib) ks)
            (combine (seq k (length bl2)) bl2) = Ok cs2
    /\ xor_bytes (concat cs1) (concat cs2) = xor_bytes (concat bl1) (concat bl2).
Proof.
  intros Hd. induction bl1 as [|b1 bl1 IH]; intros [|b2 bl2] k F1 F2 Hl Hk;
    try discriminate Hl.
  - exists [], []. repeat split.
  - inversion F1 as [|? ? Hb1 F1']; inversion F2 as [|? ? Hb2 F2']; subst.
    cbn [length] in Hk. pose proof (int_from_bytes_nonneg iv) as Hv.
    destruct (int_to_bytes_8 (int_from_bytes iv + Z.of_nat k)) as [cb [Ecb Hcb]];
      [lia|].
    destruct (encrypt_block_ok d cb Hd Hcb) as [ks [Ek Hks]].
    destruct (xor_bytes_ok b1 ks) as [c1 [E1 [Hc1 _]]].
    destruct (xor_bytes_ok b2 ks) as [c2 [E2 [Hc2 _]]].
    rewrite Hb1, Hks in Hc1. rewrite Hb2, Hks in Hc2. simpl in Hc1, Hc2.
    destruct (IH bl2 (S k) F1' F2') as [cs1 [cs2 [R1 [R2 X]]]];
      [simpl in Hl; lia|lia|].
    exists (c1 :: cs1), (c2 :: cs2).
    cbn [length seq combine mapM fst snd].
    unfold Spec.CTR_keystream at 1 3. rewrite Ecb. cbn [bind].
    rewrite Ek. cbn [bind]. rewrite E1, E2. cbn [bind].
    rewrite R1, R2. cbn [bind].
    split; [reflexivity|]. split; [reflexivity|].
    cbn [concat]. rewrite !xor_bytes_app by congruence.
    rewrite X, (xor_bytes_same_pad b1 b2 ks c1 c2) by congruence.
    reflexivity.
Qed.

(** In OFB and CTR the keystream depends on the key and the IV only: for two
    plaintexts with the same number of blocks encrypted by the same mode
    instance, the XOR of the two ciphertexts is the XOR of the two padded
    plaintexts. *)
Theorem stream_keystream_reuse (key : bytes) (rounds kl : Z) (v P1 P2 : bytes)
  (c : kind) :
  length v = 8%nat -> c = OFB \/ c = CTR ->
  (length P1 / 8 = length P2 / 8)%nat ->
  (c = CTR -> (int_from_bytes v + Z.of_nat (length P1 / 8 + 1) <= 2 ^ 64)%Z) ->
  exists e m ct1 ct2 padded1 padded2,
    DES_init key 64 rounds kl (Some v) = Ok e
    /\ Mode_init c (Some e) = Ok m
    /\ Modes.encrypt m P1 = Ok ct1
    /\ Modes.encrypt m P2 = Ok ct2
    /\ pad P1 8 = Ok padded1
    /\ pad P2 8 = Ok padded2
    /\ xor_bytes ct1 ct2 = xor_bytes padded1 padded2.
Proof.
  intros Hv Hc Hlen Hbound.
  destruct (new_mode_shape key rounds kl (Some v) c) as [e [E [He Em]]].
  destruct (pad_blocks P1) as [pd1 [Ep1 [Hp1 _]]].
  destruct (pad_blocks P2) as [pd2 [Ep2 [Hp2 _]]].
  destruct (slices_blocks _ pd1 Hp1) as [F1 [L1 C1]].
  destruct (slices_blocks _ pd2 Hp2) as [F2 [L2 C2]].
  assert (Hl : length (slices 8 pd1) = length (slices 8 pd2)) by congruence.
  exists e, (mkMode c (Some e) 8 (Some v)).
  unfold Modes.encrypt. cbn [cls].
  destruct Hc as [-> | ->].
  - destruct (OFB_two_messages e He _ _ [] [] v F1 F2 Hl Hv)
      as [cs1 [cs2 [fb' [R1 [R2 X]]]]].
    cbn [app] in R1, R2.
    exists (concat cs1), (concat cs2), pd1, pd2.
    split; [exact E|]. split; [exact Em|].
    unfold OFB_encrypt. cbn [des block_size_bytes].
    rewrite !require_iv_8 by assumption. cbn [bind].
    rewrite Ep1, Ep2. cbn [bind]. rewrite !get_blocks_8. cbn [bind].
    rewrite R1, R2. cbn [bind fst].
    repeat split. rewrite X, C1, C2. reflexivity.
  - specialize (Hbound eq_refl).
    destruct (CTR_two_messages e v He _ _ 0 F1 F2 Hl)
      as [cs1 [cs2 [R1 [R2 X]]]]; [rewrite L1; lia|].
    exists (concat cs1), (concat cs2), pd1, pd2.
    split; [exact E|]. split; [exact Em|].
    rewrite (CTR_encrypt_blocks e v P1 pd1 Hv Ep1).
    rewrite (CTR_encrypt_blocks e v P2 pd2 Hv Ep2).
    rewrite R1, R2. cbn [bind].
    split; [reflexivity|]. split; [reflexivity|].
    split; [exact Ep1|]. split; [exact Ep2|].
    rewrite X, C1, C2. reflexivity.
Qed.

Lemma stream_keystream_reuse_witness :
  exists e m ct1 ct2 padded1 padded2,
    DES_init Samples.key 64 16 64 (Some Samples.iv) = Ok e
    /\ Mode_init OFB (Some e) = Ok m
    /\ Modes.encrypt m Samples.msg = Ok ct1
    /\ Modes.encrypt m Samples.key = Ok ct2
    /\ pad Samples.msg 8 = Ok padded1
    /\ pad Samples.key 8 = Ok padded2
    /\ xor_bytes ct1 ct2 = xor_bytes padded1 padded2.
Proof.
  apply (stream_keystream_reuse Samples.key 16 64 Samples.iv Samples.msg
           Samples.key OFB).
  - reflexivity.
  - left. reflexivity.
  - reflexivity.
  - intros H. discriminate H.
Defined.

(** ** An engine without rounds *)

Lemma bits_firstn_skipn (n : nat) : forall B : bytes,
  firstn (8 * n) (bytes_to_bit_string B) = bytes_to_bit_string (firstn n B)
  /\ skipn (8 * n) (bytes_to_bit_string B) = bytes_to_bit_string (skipn n B).
Proof.
  unfold bytes_to_bit_string.
  induction n as [|n IH]; intros B; [split; reflexivity|].
  destruct B as [|b B]; [split; [apply firstn_nil|apply skipn_nil]|].
  destruct (IH B) as [H1 H2].
  replace (8 * S n)%nat with (length (format_b 8 (Byte.to_N b)) + 8 * n)%nat
    by (rewrite length_byte_bits; lia).
  cbn [flat_map firstn skipn]. split.
  - rewrite firstn_app_2, H1. reflexivity.
  - rewrite skipn_app, skipn_all2 by lia.
    replace (length (format_b 8 (Byte.to_N b)) + 8 * n
             - length (format_b 8 (Byte.to_N b)))%nat with (8 * n)%nat by lia.
    rewrite H2. reflexivity.
Qed.

(** The constructor accepts a round count of 0 or less.  Such an engine has
    no subkeys and applies no key at all: [encrypt_block] and
    [decrypt_block] both return the block with its two 4-byte halves
    swapped. *)
Theorem no_rounds_swaps_halves (key : bytes) (bs rounds kl : Z)
  (iv : option bytes) (B : bytes) :
  (rounds <= 0)%Z -> length B = 8%nat ->
  exists e, DES_init key bs rounds kl iv = Ok e
            /\ subkeys e = []
            /\ encrypt_block e B = Ok (skipn 4 B ++ firstn 4 B)
            /\ decrypt_block e B = Ok (skipn 4 B ++ firstn 4 B).
Proof.
  intros Hr HB.
  destruct (DES_init_ok key bs rounds kl iv) as [e [E [_ [_ [Hro [_ Hs]]]]]].
  assert (Hrange : range rounds = []).
  { unfold range. replace (Z.to_nat rounds) with O by lia. reflexivity. }
  rewrite Hrange in Hs. cbn [map] in Hs.
  exists e. split; [exact E|]. split; [exact Hs|].
  destruct (bits_firstn_skipn 4 B) as [H1 H2].
  change (8 * 4)%nat with 32%nat in H1, H2.
  assert (Hp : forall dm, _process_block e B dm = Ok (skipn 4 B ++ firstn 4 B)).
  { intros dm. unfold _process_block. rewrite HB. cbn [Nat.eqb negb].
    rewrite Hro, Hrange. cbn [foldM bind]. rewrite H1, H2.
    replace (bytes_to_bit_string (skipn 4 B) ++ bytes_to_bit_string (firstn 4 B))
      with (bytes_to_bit_string (skipn 4 B ++ firstn 4 B))
      by (unfold bytes_to_bit_string; apply flat_map_app).
    apply bit_string_to_bytes_of_bytes. }
  split; apply Hp.
Qed.

Lemma no_rounds_swaps_halves_witness :
  exists e, DES_init Samples.key 64 0 64 None = Ok e
            /\ subkeys e = []
            /\ encrypt_block e Samples.msg
               = Ok (skipn 4 Samples.msg ++ firstn 4 Samples.msg)
            /\ decrypt_block e Samples.msg
               = Ok (skipn 4 Samples.msg ++ firstn 4 Samples.msg).
Proof.
  apply (no_rounds_swaps_halves Samples.key 64 0 64 None Samples.msg);
    [lia|reflexivity].
Defined.

(** ** Complementing the key and the block *)

Lemma lxor_double (a o : N) (x y : bool) :
  N.lxor (2 * a + N.b2n x) (2 * o + N.b2n y)
  = (2 * N.lxor a o + N.b2n (xorb x y))%N.
Proof.
  apply N.bits_inj. intros i.
  destruct i as [|i] using N.peano_ind.
  - rewrite N.lxor_spec, !N.testbit_0_r. reflexivity.
  - rewrite N.lxor_spec, !N.testbit_succ_r, N.lxor_spec. reflexivity.
Qed.

Lemma ones_succ (n : nat) :
  N.ones (N.of_nat (S n)) = (2 * N.ones (N.of_nat n) + N.b2n true)%N.
Proof.
  rewrite !N.ones_equiv, Nat2N.inj_succ, N.pow_succ_r'.
  assert (0 < 2 ^ N.of_nat n)%N
    by (apply N.neq_0_lt_0, N.pow_nonzero; discriminate).
  simpl N.b2n. lia.
Qed.

Lemma int2val_negb (s : bitstr) :
  int2val (map negb s) = N.lxor (int2val s) (N.ones (N.of_nat (length s))).
Proof.
  induction s as [|b s IH] using rev_ind; [reflexivity|].
  rewrite map_app, length_app. cbn [map length].
  rewrite !int2val_snoc, IH, Nat.add_1_r, ones_succ, lxor_double.
  destruct b; reflexivity.
Qed.

Lemma lxor_complements (a b : bitstr) :
  length a = length b ->
  N.lxor (int2val (map negb a)) (int2val (map negb b))
  = N.lxor (int2val a) (int2val b).
Proof.
  intros H. rewrite !int2val_negb, H.
  set (o := N.ones (N.of_nat (length b))).
  rewrite N.lxor_assoc, (N.lxor_comm o), N.lxor_assoc, N.lxor_nilpotent,
    N.lxor_0_r. reflexivity.
Qed.

Lemma format_b_lxor_negb (w : nat) (l f : bitstr) :
  (1 <= w)%nat -> length l = w -> length f = w ->
  format_b w (N.lxor (int2val (map negb l)) (int2val f))
  = map negb (format_b w (N.lxor (int2val l) (int2val f))).
Proof.
  intros Hw Hl Hf.
  set (s := format_b w (N.lxor (int2val l) (int2val f))).
  assert (Hs : length s = w) by (apply length_format_b_lxor; assumption).
  assert (Hv : int2val s = N.lxor (int2val l) (int2val f))
    by apply int2val_format_b.
  rewrite <- (format_b_int2val (map negb s)) by (rewrite length_map; lia).
  rewrite length_map, Hs. f_equal.
  rewrite !int2val_negb, Hv, Hl, Hs.
  rewrite !N.lxor_assoc. f_equal. apply N.lxor_comm.
Qed.

Lemma select_negb (table : list Z) (s : bitstr) :
  Forall (fun i => (1 <= i <= Z.of_nat (length s))%Z) table ->
  Spec.select table (map negb s) = map negb (Spec.select table s).
Proof.
  intros H. unfold Spec.select. rewrite map_map. apply map_ext_in.
  intros i Hi. rewrite Forall_forall in H. specialize (H i Hi).
  rewrite (nth_indep (map negb s) false (negb true))
    by (rewrite length_map; lia).
  rewrite map_nth. f_equal. apply nth_indep. lia.
Qed.

Lemma rotl_negb (n : nat) (s : bitstr) :
  Spec.rotl n (map negb s) = map negb (Spec.rotl n s).
Proof.
  unfold Spec.rotl. rewrite map_app, skipn_map, firstn_map. reflexivity.
Qed.

Lemma halves_negb (k k' : bytes) :
  length k = 8%nat ->
  bytes_to_bit_string k' = map negb (bytes_to_bit_string k) ->
  forall n, Spec.halves k' n
            = (map negb (fst (Spec.halves k n)), map negb (snd (Spec.halves k n))).
Proof.
  intros Hk Hb. induction n as [|n IH].
  - cbn [Spec.halves fst snd]. rewrite Hb, select_negb.
    + rewrite firstn_map, skipn_map. reflexivity.
    + rewrite length_bytes_to_bit_string, Hk. exact PC_1_range.
  - cbn [Spec.halves]. rewrite IH.
    destruct (Spec.halves k n) as [C D]. cbn [fst snd].
    rewrite !rotl_negb. reflexivity.
Qed.

Lemma subkey_negb (k k' : bytes) (i : nat) :
  length k = 8%nat ->
  bytes_to_bit_string k' = map negb (bytes_to_bit_string k) ->
  Spec.subkey k' i = map negb (Spec.subkey k i).
Proof.
  intros Hk Hb. unfold Spec.subkey.
  rewrite (halves_negb k k' Hk Hb).
  destruct (length_halves k (S i) Hk) as [H1 H2].
  destruct (Spec.halves k (S i)) as [C D]. cbn [fst snd] in *.
  rewrite <- map_app. apply select_negb.
  rewrite length_app, H1, H2. exact PC_2_range.
Qed.

Lemma feistel_function_negb (R K : bitstr) :
  length R = 32%nat -> length K = 48%nat ->
  _feistel_function (map negb R) (map negb K) = _feistel_function R K.
Proof.
  intros HR HK. unfold _feistel_function.
  rewrite (permute_fixed 32 E_BOX R E_BOX_range) by (rewrite HR; reflexivity).
  rewrite (permute_fixed 32 E_BOX (map negb R) E_BOX_range)
    by (rewrite length_map, HR; reflexivity).
  cbn [bind].
  rewrite select_negb by (rewrite HR; exact E_BOX_range).
  assert (HE : length (Spec.select E_BOX R) = 48%nat)
    by (rewrite length_select; reflexivity).
  rewrite !int2_ok by (rewrite ?length_map; lia). cbn [bind].
  rewrite lxor_complements by congruence. reflexivity.
Qed.

Lemma feistel_rounds_negb (ks : list bitstr) :
  Forall (fun K : bitstr => length K = 48%nat) ks ->
  forall L R L' R' : bitstr, length L = 32%nat -> length R = 32%nat ->
  Spec.feistel_rounds ks (L, R) = Ok (L', R') ->
  Spec.feistel_rounds (map (map negb) ks) (map negb L, map negb R)
  = Ok (map negb L', map negb R').
Proof.
  unfold Spec.feistel_rounds.
  induction ks as [|K ks IH]; intros Hks L R L' R' HL HR E.
  - cbn [foldM] in E. injection E as <- <-. reflexivity.
  - inversion Hks as [|? ? HK Hks']; subst.
    cbn [map foldM] in *.
    destruct (feistel_function_ok R K HR HK) as [f [Ef Hf]].
    unfold Spec.feistel_round at 1 in E. rewrite Ef in E. cbn [bind] in E.
    rewrite !int2_ok in E by lia. cbn [bind] in E.
    unfold Spec.feistel_round at 1.
    rewrite feistel_function_negb, Ef by assumption. cbn [bind].
    rewrite !int2_ok by (rewrite ?length_map; lia). cbn [bind].
    rewrite (format_b_lxor_negb 32 L f) by (lia || assumption).
    apply IH; try assumption.
    apply length_format_b_lxor; (lia || assumption).
Qed.

Lemma byte_complement_bits (b : byte) :
  exists b', Byte.of_N (N.lxor (Byte.to_N b) 255) = Some b'
             /\ format_b 8 (Byte.to_N b') = map negb (format_b 8 (Byte.to_N b)).
Proof. destruct b; eexists; split; reflexivity. Qed.

Lemma complement_bits (B : bytes) :
  exists B', xor_bytes B (repeat xff (length B)) = Ok B'
             /\ length B' = length B
             /\ bytes_to_bit_string B' = map negb (bytes_to_bit_string B).
Proof.
  unfold xor_bytes, bytes_of_ints, bytes_to_bit_string.
  induction B as [|b B [B' [E [Hl Hb]]]]; [exists []; repeat split|].
  destruct (byte_complement_bits b) as [b' [Eb Hb']].
  exists (b' :: B'). cbn [length repeat combine map mapM fst snd flat_map].
  assert (Hx : Z.lxor (byte_int b) (byte_int xff)
               = Z.of_N (N.lxor (Byte.to_N b) 255))
    by (unfold byte_int; rewrite N2Z.inj_lxor; reflexivity).
  rewrite Hx, N2Z.id, Eb.
  destruct (Z.ltb_spec (Z.of_N (N.lxor (Byte.to_N b) 255)) 0); [lia|].
  cbn [bind]. rewrite E. cbn [bind].
  split; [reflexivity|]. split; [rewrite Hl; reflexivity|].
  rewrite Hb, Hb', map_app. reflexivity.
Qed.

Lemma bytes_to_bit_string_inj (a b : bytes) :
  bytes_to_bit_string a = bytes_to_bit_string b -> a = b.
Proof.
  intros H. pose proof (bit_string_to_bytes_of_bytes a) as Ha.
  rewrite H, bit_string_to_bytes_of_bytes in Ha. congruence.
Qed.

(** The cipher has the complementation property of DES: encrypting the
    bitwise complement of a block under the bitwise complement of the key
    gives the bitwise complement of the ciphertext. *)
Theorem complementation (key B : bytes) (bs rounds kl : Z) (iv : option bytes) :
  length key = 8%nat -> length B = 8%nat ->
  exists key' B' e e' C C',
    xor_bytes key (repeat xff 8) = Ok key'
    /\ xor_bytes B (repeat xff 8) = Ok B'
    /\ DES_init key bs rounds kl iv = Ok e
    /\ DES_init key' bs rounds kl iv = Ok e'
    /\ encrypt_block e B = Ok C
    /\ encrypt_block e' B' = Ok C'
    /\ xor_bytes C (repeat xff 8) = Ok C'.
Proof.
  intros Hk HB.
  destruct (complement_bits key) as [key' [Ek [Hlk Hbk]]]. rewrite Hk in Ek, Hlk.
  destruct (complement_bits B) as [B' [EB [HlB HbB]]]. rewrite HB in EB, HlB.
  destruct (DES_init_ok key bs rounds kl iv) as [e [E [He [_ [Hr [_ Hs]]]]]].
  destruct (DES_init_ok key' bs rounds kl iv) as [e' [E' [He' [_ [Hr' [_ Hs']]]]]].
  rewrite normalize_key_8 in Hs, Hs' by assumption.
  assert (Hsub : subkeys e' = map (map negb) (subkeys e)).
  { rewrite Hs, Hs', map_map. apply map_ext. intros i.
    apply subkey_negb; assumption. }
  destruct (block_roundtrip e B He HB) as [C [Ln [Rn [EC [HC [_ [ER [HbC _]]]]]]]].
  destruct (length_block_halves B HB) as [HL HR].
  destruct He as [Hlen Hk48].
  destruct (feistel_rounds_inverse (subkeys e) Hk48 _ _ HL HR)
    as [Ln' [Rn' [ER' [HLn [HRn _]]]]].
  rewrite <- surjective_pairing in ER'. rewrite ER in ER'.
  injection ER' as <- <-.
  destruct (complement_bits C) as [C' [EC' [HlC HbC']]]. rewrite HC in EC', HlC.
  exists key', B', e, e', C, C'.
  split; [exact Ek|]. split; [exact EB|]. split; [exact E|].
  split; [exact E'|]. split; [exact EC|]. split; [|exact EC'].
  unfold encrypt_block.
  rewrite process_block_rounds by (assumption || apply He').
  assert (Hh : Spec.block_halves B'
               = (map negb (fst (Spec.block_halves B)),
                  map negb (snd (Spec.block_halves B)))).
  { unfold Spec.block_halves. cbn [fst snd].
    rewrite HbB, firstn_map, skipn_map. reflexivity. }
  rewrite Hh, Hsub.
  rewrite (feistel_rounds_negb (subkeys e) Hk48 _ _ Ln Rn HL HR)
    by (rewrite <- surjective_pairing; exact ER).
  cbn [bind fst snd]. rewrite <- map_app, <- HbC, <- HbC'.
  apply bit_string_to_bytes_of_bytes.
Qed.

Lemma complementation_witness :
  exists key' B' e e' C C',
    xor_bytes Samples.key (repeat xff 8) = Ok key'
    /\ xor_bytes Samples.msg (repeat xff 8) = Ok B'
    /\ DES_init Samples.key 64 16 64 None = Ok e
    /\ DES_init key' 64 16 64 None = Ok e'
    /\ encrypt_block e Samples.msg = Ok C
    /\ encrypt_block e' B' = Ok C'
    /\ xor_bytes C (repeat xff 8) = Ok C'.
Proof.
  apply (complementation Samples.key Samples.msg 64 16 64 None); reflexivity.
Defined.

(** ** Lengths of ciphertexts and of decryptions *)

Lemma mapM_length {A B : Type} (f : A -> result B) (l : list A) (ys : list B) :
  mapM f l = Ok ys -> length ys = length l.
Proof.
  revert ys. induction l as [|x l IH]; intros ys E; cbn [mapM] in E.
  - injection E as <-. reflexivity.
  - destruct (f x); [|discriminate E]. cbn [bind] in E.
    destruct (mapM f l) as [zs|]; [|discriminate E]. cbn [bind] in E.
    injection E as <-. cbn [length]. rewrite (IH zs eq_refl). reflexivity.
Qed.

Lemma CBC_encrypt_blocks_len (d : DES) : Spec.well_formed d ->
  forall (blocks acc : list bytes) (prev : bytes),
  Forall (fun b : bytes => length b = 8%nat) blocks -> length prev = 8%nat ->
  exists cs last,
    foldM (CBC_encrypt_step d) blocks (acc, prev) = Ok (acc ++ cs, last)
    /\ Forall (fun b : bytes => length b = 8%nat) cs
    /\ length cs = length blocks.
Proof.
  intros Hd. induction blocks as [|b blocks IH]; intros acc prev Hb Hprev.
  - exists [], prev. cbn [foldM]. rewrite app_nil_r. repeat split. constructor.
  - inversion Hb as [|? ? Hblock Hblocks]; subst.
    destruct (xor_bytes_ok b prev) as [x [Ex [Hx _]]].
    rewrite Hblock, Hprev in Hx. simpl in Hx.
    destruct (encrypt_block_ok d x Hd Hx) as [c [Ec Hc]].
    destruct (IH (acc ++ [c]) c Hblocks Hc) as [cs [last [E [H1 H2]]]].
    exists (c :: cs), last. cbn [foldM]. unfold CBC_encrypt_step at 1.
    rewrite Ex. cbn [bind]. rewrite Ec. cbn [bind]. rewrite E, <- app_assoc.
    split; [reflexivity|]. split; [constructor; assumption|].
    cbn [length]. rewrite H2. reflexivity.
Qed.

Lemma CFB_encrypt_blocks_len (d : DES) : Spec.well_formed d ->
  forall (blocks acc : list bytes) (prev : bytes),
  Forall (fun b : bytes => length b = 8%nat) blocks -> length prev = 8%nat ->
  exists cs last,
    foldM (CFB_encrypt_step d) blocks (acc, prev) = Ok (acc ++ cs, last)
    /\ Forall (fun b : bytes => length b = 8%nat) cs
    /\ length cs = length blocks.
Proof.
  intros Hd. induction blocks as [|b blocks IH]; intros acc prev Hb Hprev.
  - exists [], prev. cbn [foldM]. rewrite app_nil_r. repeat split. constructor.
  - inversion Hb as [|? ? Hblock Hblocks]; subst.
    destruct (encrypt_block_ok d prev Hd Hprev) as [ks [Ek Hk]].
    destruct (xor_bytes_ok b ks) as [c [Ec [Hc _]]].
    rewrite Hblock, Hk in Hc. simpl in Hc.
    destruct (IH (acc ++ [c]) c Hblocks Hc) as [cs [last [E [H1 H2]]]].
    exists (c :: cs), last. cbn [foldM]. unfold CFB_encrypt_step at 1.
    rewrite Ek. cbn [bind]. rewrite Ec. cbn [bind]. rewrite E, <- app_assoc.
    split; [reflexivity|]. split; [constructor; assumption|].
    cbn [length]. rewrite H2. reflexivity.
Qed.

(** In all five modes the ciphertext is a whole number of blocks, one more
    than [len P / 8]: the plaintext's length rounded up to the next multiple
    of 8, a full block being added when it already is one, so that the empty
    plaintext encrypts to 8 bytes. *)
Theorem ciphertext_length (key : bytes) (rounds kl : Z) (v P : bytes)
  (c : kind) :
  length v = 8%nat ->
  (c = CTR -> (int_from_bytes v + Z.of_nat (length P / 8 + 1) <= 2 ^ 64)%Z) ->
  exists e m ct,
    DES_init key 64 rounds kl (Some v) = Ok e
    /\ Mode_init c (Some e) = Ok m
    /\ Modes.encrypt m P = Ok ct
    /\ length ct = (8 * (length P / 8 + 1))%nat
    /\ (length P < length ct <= length P + 8)%nat.
Proof.
  intros Hv Hbound.
  destruct (new_mode_shape key rounds kl (Some v) c) as [e [E [He Em]]].
  exists e, (mkMode c (Some e) 8 (Some v)).
  assert (Hct : exists ct,
            Modes.encrypt (mkMode c (Some e) 8 (Some v)) P = Ok ct
            /\ length ct = (8 * (length P / 8 + 1))%nat).
  { destruct (pad_blocks P) as [padded [Ep [Hp _]]].
    destruct (slices_blocks _ padded Hp) as [Hs1 [Hs2 _]].
    destruct c.
    - destruct (ECB_blocks_roundtrip e He _ Hs1) as [cs [Ecs [H1 _]]].
      exists (concat cs). unfold Modes.encrypt. cbn [cls].
      unfold ECB_encrypt. cbn [des block_size_bytes].
      rewrite Ep. cbn [bind]. rewrite get_blocks_8. cbn [bind].
      rewrite Ecs. cbn [bind]. split; [reflexivity|].
      rewrite length_concat_blocks, (mapM_length _ _ _ Ecs), Hs2 by assumption.
      reflexivity.
    - destruct (CBC_encrypt_blocks_len e He _ [] v Hs1 Hv)
        as [cs [last [Ecs [H1 H2]]]].
      exists (concat cs). unfold Modes.encrypt. cbn [cls].
      unfold CBC_encrypt. cbn [des block_size_bytes].
      rewrite require_iv_8 by assumption. cbn [bind].
      rewrite Ep. cbn [bind]. rewrite get_blocks_8. cbn [bind].
      rewrite Ecs. cbn [bind fst app]. split; [reflexivity|].
      rewrite length_concat_blocks, H2, Hs2 by assumption. reflexivity.
    - destruct (CFB_encrypt_blocks_len e He _ [] v Hs1 Hv)
        as [cs [last [Ecs [H1 H2]]]].
      exists (concat cs). unfold Modes.encrypt. cbn [cls].
      unfold CFB_encrypt. cbn [des block_size_bytes].
      rewrite require_iv_8 by assumption. cbn [bind].
      rewrite Ep. cbn [bind]. rewrite get_blocks_8. cbn [bind].
      rewrite Ecs. cbn [bind fst app]. split; [reflexivity|].
      rewrite length_concat_blocks, H2, Hs2 by assumption. reflexivity.
    - apply stream_encrypt_ok; try assumption. left. reflexivity.
    - apply stream_encrypt_ok; try assumption. right. reflexivity. }
  destruct Hct as [ct [Ect Hl]]. exists ct.
  split; [exact E|]. split; [exact Em|]. split; [exact Ect|].
  split; [exact Hl|].
  pose proof (Nat.div_mod_eq (length P) 8).
  pose proof (Nat.mod_upper_bound (length P) 8). lia.
Qed.

Lemma ciphertext_length_witness :
  exists e m ct,
    DES_init Samples.key 64 16 64 (Some Samples.iv) = Ok e
    /\ Mode_init ECB (Some e) = Ok m
    /\ Modes.encrypt m [] = Ok ct
    /\ length ct = (8 * (length (@nil byte) / 8 + 1))%nat
    /\ (length (@nil byte) < length ct <= length (@nil byte) + 8)%nat.
Proof.
  apply (ciphertext_length Samples.key 16 64 Samples.iv [] ECB).
  - reflexivity.
  - intros H. discriminate H.
Defined.

Lemma unpad_length (data : bytes) :
  (length data <= length (unpad data 8) + 8)%nat
  /\ (length (unpad data 8) <= length data)%nat.
Proof.
  unfold unpad. destruct data as [|x data]; [simpl; lia|].
  set (d := x :: data). set (n := byte_int (last d x00)).
  destruct (Z.ltb_spec n 1); cbn [orb]; [lia|].
  destruct (Z.ltb_spec 8 n); cbn [orb]; [lia|].
  destruct (Z.ltb_spec (Z.of_nat (length d)) n); [lia|].
  rewrite length_firstn. lia.
Qed.

Lemma ECB_decrypt_blocks_len (d : DES) : Spec.well_formed d ->
  forall ws : list bytes, Forall (fun b : bytes => length b = 8%nat) ws ->
  exists out, mapM (decrypt_block d) ws = Ok out
              /\ Forall (fun b : bytes => length b = 8%nat) out.
Proof.
  intros Hd. induction 1 as [|b ws Hb Hws [out [E H]]].
  - exists []. split; [reflexivity|constructor].
  - destruct (decrypt_block_roundtrip d b Hd Hb) as [x [Ex [Hx _]]].
    exists (x :: out). cbn [mapM]. rewrite Ex, E.
    split; [reflexivity|constructor; assumption].
Qed.

Lemma CBC_decrypt_blocks_len (d : DES) : Spec.well_formed d ->
  forall (ws acc : list bytes) (prev : bytes),
  Forall (fun b : bytes => length b = 8%nat) ws -> length prev = 8%nat ->
  exists out last,
    foldM (CBC_decrypt_step d) ws (acc, prev) = Ok (acc ++ out, last)
    /\ Forall (fun b : bytes => length b = 8%nat) out
    /\ length out = length ws.
Proof.
  intros Hd. induction ws as [|b ws IH]; intros acc prev Hws Hprev.
  - exists [], prev. cbn [foldM]. rewrite app_nil_r. repeat split. constructor.
  - inversion Hws as [|? ? Hb Hws']; subst.
    destruct (decrypt_block_roundtrip d b Hd Hb) as [x [Ex [Hx _]]].
    destruct (xor_bytes_ok x prev) as [p [Ep [Hp _]]].
    rewrite Hx, Hprev in Hp. simpl in Hp.
    destruct (IH (acc ++ [p]) b Hws' Hb) as [out [last [E [H1 H2]]]].
    exists (p :: out), last. cbn [foldM]. unfold CBC_decrypt_step at 1.
    rewrite Ex. cbn [bind]. rewrite Ep. cbn [bind]. rewrite E, <- app_assoc.
    split; [reflexivity|]. split; [constructor; assumption|].
    cbn [length]. rewrite H2. reflexivity.
Qed.

Lemma CFB_decrypt_blocks_len (d : DES) : Spec.well_formed d ->
  forall (ws acc : list bytes) (prev : bytes),
  Forall (fun b : bytes => length b = 8%nat) ws -> length prev = 8%nat ->
  exists out last,
    foldM (CFB_decrypt_step d) ws (acc, prev) = Ok (acc ++ out, last)
    /\ Forall (fun b : bytes => length b = 8%nat) out
    /\ length out = length ws.
Proof.
  intros Hd. induction ws as [|b ws IH]; intros acc prev Hws Hprev.
  - exists [], prev. cbn [foldM]. rewrite app_nil_r. repeat split. constructor.
  - inversion Hws as [|? ? Hb Hws']; subst.
    destruct (encrypt_block_ok d prev Hd Hprev) as [ks [Ek Hk]].
    destruct (xor_bytes_ok b ks) as [p [Ep [Hp _]]].
    rewrite Hb, Hk in Hp. simpl in Hp.
    destruct (IH (acc ++ [p]) b Hws' Hb) as [out [last [E [H1 H2]]]].
    exists (p :: out), last. cbn [foldM]. unfold CFB_decrypt_step at 1.
    rewrite Ek. cbn [bind]. rewrite Ep. cbn [bind]. rewrite E, <- app_assoc.
    split; [reflexivity|]. split; [constructor; assumption|].
    cbn [length]. rewrite H2. reflexivity.
Qed.

(** ECB, CBC and CFB [decrypt] never reject a ciphertext of whole blocks,
    whatever its content: no padding error exists, and the result is the
    ciphertext's length or up to 8 bytes shorter. *)
Theorem decrypt_never_rejects_padding (key : bytes) (rounds kl : Z)
  (v ct : bytes) (c : kind) :
  length v = 8%nat -> (length ct mod 8 = 0)%nat ->
  c = ECB \/ c = CBC \/ c = CFB ->
  exists e m out,
    DES_init key 64 rounds kl (Some v) = Ok e
    /\ Mode_init c (Some e) = Ok m
    /\ Modes.decrypt m ct = Ok out
    /\ (length ct <= length out + 8)%nat
    /\ (length out <= length ct)%nat.
Proof.
  intros Hv Hct Hc.
  destruct (new_mode_shape key rounds kl (Some v) c) as [e [E [He Em]]].
  assert (Hlen : length ct = (8 * (length ct / 8))%nat)
    by (pose proof (Nat.div_mod_eq (length ct) 8); lia).
  destruct (slices_blocks _ ct Hlen) as [Hs1 [Hs2 _]].
  exists e, (mkMode c (Some e) 8 (Some v)).
  assert (Hfin : forall outs : list bytes,
            Forall (fun b : bytes => length b = 8%nat) outs ->
            length outs = length (slices 8 ct) ->
            (length ct <= length (unpad (concat outs) 8) + 8)%nat
            /\ (length (unpad (concat outs) 8) <= length ct)%nat).
  { intros outs Ho Hl. pose proof (unpad_length (concat outs)) as Hu.
    rewrite length_concat_blocks in Hu by assumption. lia. }
  unfold Modes.decrypt. cbn [cls].
  destruct Hc as [-> | [-> | ->]].
  - destruct (ECB_decrypt_blocks_len e He _ Hs1) as [outs [Eo Ho]].
    exists (unpad (concat outs) 8). split; [exact E|]. split; [exact Em|].
    unfold ECB_decrypt. cbn [des block_size_bytes].
    rewrite get_blocks_8. cbn [bind]. rewrite Eo. cbn [bind].
    split; [reflexivity|]. apply Hfin; [exact Ho|].
    apply (mapM_length _ _ _ Eo).
  - destruct (CBC_decrypt_blocks_len e He _ [] v Hs1 Hv) as [outs [last [Eo [Ho Hl]]]].
    exists (unpad (concat outs) 8). split; [exact E|]. split; [exact Em|].
    unfold CBC_decrypt. cbn [des block_size_bytes].
    rewrite require_iv_8 by assumption. cbn [bind].
    rewrite get_blocks_8. cbn [bind]. rewrite Eo. cbn [bind fst app].
    split; [reflexivity|]. apply Hfin; assumption.
  - destruct (CFB_decrypt_blocks_len e He _ [] v Hs1 Hv) as [outs [last [Eo [Ho Hl]]]].
    exists (unpad (concat outs) 8). split; [exact E|]. split; [exact Em|].
    unfold CFB_decrypt. cbn [des block_size_bytes].
    rewrite require_iv_8 by assumption. cbn [bind].
    rewrite get_blocks_8. cbn [bind]. rewrite Eo. cbn [bind fst app].
    split; [reflexivity|]. apply Hfin; assumption.
Qed.

Lemma decrypt_never_rejects_padding_witness :
  exists e m out,
    DES_init Samples.key 64 16 64 (Some Samples.iv) = Ok e
    /\ Mode_init CBC (Some e) = Ok m
    /\ Modes.decrypt m Samples.msg = Ok out
    /\ (length Samples.msg <= length out + 8)%nat
    /\ (length out <= length Samples.msg)%nat.
Proof.
  apply (decrypt_never_rejects_padding Samples.key 16 64 Samples.iv
           Samples.msg CBC).
  - reflexivity.
  - reflexivity.
  - right. left. reflexivity.
Defined.
